(** * k2s-Downloaderm: the download engine of [core/downloader.py]

    A shallow embedding of [src/k2s_downloader/core/downloader.py]:
    the size helpers, the URL cache, the range planner, one worker
    episode, one dispatch pass, the reassembly and the entry point
    [Downloader.download].  With it come its neighbours:
    [get_working_proxies] of [core/proxy.py], [generate_download_urls]
    of [core/k2s_client.py] and [main] of [cli.py].  What these meet
    outside (the file [proxies.txt], the answers of the remote services,
    the order in which Python lists a set) is a parameter of the
    definitions.

    Conventions.
    - Python [int] is [Z]; [str] is [string], a text of 8-bit
      characters; [bytes] is [list byte].
    - Python [float] is IEEE-754 binary64.  A float value is the rational
      it denotes ([Q]); every float operation is the exact operation
      followed by a rounding [fl : Q -> Q].  Definitions take [fl] as a
      parameter and the general theorems assume the laws [Rounding fl];
      [b64] below is round-to-nearest-even on 53 bits, has these laws
      ([b64_Rounding]) and is the instance the concrete evaluations use.
      The exponent is unbounded; where the code can reach 2^1024 (the
      range planner) the [OverflowError] that follows is modelled with
      [Py.finite], elsewhere such magnitudes are outside the model.
    - Exceptions are the [Raise] results of the [res] type. *)

From Stdlib Require Import ZArith QArith Qabs Qround Qpower Lia Lqa.
From Stdlib Require Import List Ascii String.
From Stdlib Require Import DecimalString DecimalPos DecimalZ.
From stdpp Require Import gmap strings list fin_maps.

Local Open Scope string_scope.
Local Open Scope Z_scope.

(** ** Exceptions *)

Inductive exn : Type :=
  | ValueError
  | KeyError
  | RuntimeError
  | TypeError
  | FileNotFoundError
  | IndexError
  | ZeroDivisionError
  | OverflowError
  | DownloadCancelled.

Inductive res (A : Type) : Type :=
  | Ok (a : A)
  | Raise (e : exn).
Arguments Ok {A} a.
Arguments Raise {A} e.

#[global] Instance res_ret : MRet res := fun _ a => Ok a.
#[global] Instance res_bind : MBind res := fun _ _ k r =>
  match r with
  | Ok a => k a
  | Raise e => Raise e
  end.

(** ** Python numbers *)

Module Py.

(** [round(x, 0)] and the rounding of float formatting: the nearest
    integer of [n/d] ([0 < d]), ties to the even one. *)
Definition rhe_div (n d : Z) : Z :=
  let f := (2 * n + d) / (2 * d) in
  if ((2 * n + d) mod (2 * d) =? 0) && Z.odd f then f - 1 else f.

Definition round_half_even (x : Q) : Z := rhe_div (Qnum x) (Zpos (Qden x)).

(** [int(x)] on a float: truncation towards zero. *)
Definition trunc (x : Q) : Z := Z.quot (Qnum x) (Zpos (Qden x)).

(** [math.ceil(x)]. *)
Definition ceil (x : Q) : Z := - ((- Qnum x) / Zpos (Qden x)).

(** Binary64 arithmetic rounds to the nearest number [m * 2^e] with
    [m] below [2^53], ties to the even [m]; [e] is the exponent that puts
    the scaled number in [[2^52, 2^53)], and at least -1074 (gradual
    underflow). *)
Definition exponent (x : Q) : Z :=
  let e0 := Z.log2 (Qnum x) - Z.log2 (Zpos (Qden x)) - 52 in
  let e1 := if Qle_bool (2 ^ 52) (x * 2 ^ (- e0)) then e0 else e0 - 1 in
  Z.max e1 (-1074).

Definition nearest (x : Q) : Q :=
  let e := exponent x in
  (inject_Z (round_half_even (x * 2 ^ (- e))) * 2 ^ e)%Q.

Definition b64 (x : Q) : Q :=
  match Qnum x with
  | 0 => 0%Q
  | Zpos _ => nearest x
  | Zneg _ => (- nearest (- x))%Q
  end.

Section Float.
Variable fl : Q -> Q.

Definition of_int (z : Z) : Q := fl (inject_Z z).
Definition fadd (x y : Q) : Q := fl (x + y).
Definition fsub (x y : Q) : Q := fl (x - y).
Definition fmul (x y : Q) : Q := fl (x * y).
Definition fdiv (x y : Q) : Q := fl (x / y).

End Float.

(** The operations above round with an unbounded exponent.  A binary64
    float is finite when its magnitude is below 2^1024: a result that
    reaches it stands for an infinity, and [float()] refuses an [int]
    whose nearest float reaches it. *)
Definition finite (x : Q) : bool :=
  negb (Qle_bool (inject_Z (2 ^ 1024)) (Qabs x)).

(** Half the distance between 1.0 and the next float, and half the
    least positive float. *)
Definition unit_roundoff : Q := 1 # 9007199254740992.
Definition half_least : Q := 1 # (2 ^ 1075).

(** The laws of a rounding that the proofs use: it is monotone, it
    leaves the integers of magnitude at most 2^53 alone, and it moves a
    number by at most half a unit in its last place. *)
Record Rounding (fl : Q -> Q) : Prop := {
  fl_le : forall x y : Q, (x <= y)%Q -> (fl x <= fl y)%Q;
  fl_int : forall z : Z, Z.abs z <= 2 ^ 53 -> (fl (inject_Z z) == inject_Z z)%Q;
  fl_err : forall x : Q,
    (Qabs (fl x - x) <= Qabs x * unit_roundoff + half_least)%Q
}.

(** ** Python strings *)

Definition is_digit (c : ascii) : bool :=
  let n := nat_of_ascii c in (48 <=? n)%nat && (n <=? 57)%nat.

Definition is_alpha (c : ascii) : bool :=
  let n := nat_of_ascii c in
  ((65 <=? n)%nat && (n <=? 90)%nat) || ((97 <=? n)%nat && (n <=? 122)%nat).

(** The characters that [str.strip] removes and [\s] matches, among
    the first 256 code points: 9 to 13, 28 to 32, 133 and 160. *)
Definition is_space (c : ascii) : bool :=
  let n := nat_of_ascii c in
  ((9 <=? n)%nat && (n <=? 13)%nat) || ((28 <=? n)%nat && (n <=? 32)%nat)
  || (n =? 133)%nat || (n =? 160)%nat.

Definition upper_char (c : ascii) : ascii :=
  let n := nat_of_ascii c in
  if (97 <=? n)%nat && (n <=? 122)%nat then ascii_of_nat (n - 32) else c.

Fixpoint span (p : ascii -> bool) (l : list ascii) : list ascii * list ascii :=
  match l with
  | c :: r => if p c then let '(a, b) := span p r in (c :: a, b) else ([], l)
  | [] => ([], [])
  end.

Definition lstrip (l : list ascii) : list ascii := snd (span is_space l).

Definition strip (s : string) : string :=
  string_of_list_ascii
    (rev (lstrip (rev (lstrip (list_ascii_of_string s))))).

Definition upper (s : string) : string :=
  string_of_list_ascii (map upper_char (list_ascii_of_string s)).

Definition lower_char (c : ascii) : ascii :=
  let n := nat_of_ascii c in
  if (65 <=? n)%nat && (n <=? 90)%nat then ascii_of_nat (n + 32) else c.

Definition lower (s : string) : string :=
  string_of_list_ascii (map lower_char (list_ascii_of_string s)).

(** [str(n)] for an [int]. *)
Definition str (z : Z) : string := NilZero.string_of_int (Z.to_int z).

(** [s.zfill(width)] for a string without sign. *)
Definition zfill (width : nat) (s : string) : string :=
  string_of_list_ascii (repeat "0"%char (width - String.length s))
  ++ s.

Definition digit_val (c : ascii) : Z := Z.of_nat (nat_of_ascii c) - 48.

Definition digits_val (l : list ascii) : Z :=
  fold_left (fun acc c => 10 * acc + digit_val c) l 0.

(** [float(s)] for a string of the class [[\d\.]+]: digits with at most
    one point and at least one digit; anything else is a [ValueError]. *)
Definition float_of_string (fl : Q -> Q) (l : list ascii) : res Q :=
  let '(ip, rest) := span is_digit l in
  match rest with
  | [] => match ip with
          | [] => Raise ValueError
          | _ => Ok (fl (inject_Z (digits_val ip)))
          end
  | c :: r =>
      let '(fp, rest') := span is_digit r in
      if Ascii.eqb c "." && (match rest' with [] => true | _ => false end)
         && negb (match ip, fp with [], [] => true | _, _ => false end)
      then Ok (fl (Qmake (digits_val (ip ++ fp))
                         (Z.to_pos (10 ^ Z.of_nat (length fp)))))
      else Raise ValueError
  end.

(** [f"{value:3.3f}"]: three decimals, correctly rounded; the minimum
    width 3 never pads. *)
Definition format_3f (x : Q) : string :=
  let k := rhe_div (Qnum x * 1000) (Zpos (Qden x)) in
  let a := Z.abs k in
  (if Qnum x <? 0 then "-" else EmptyString)
  ++ str (a / 1000) ++ "." ++ zfill 3 (str (a mod 1000)).

End Py.

(** ** [parse_size] and [human_readable_bytes] *)

Definition size_units : list (string * Z) :=
  [ ("B", 1); ("KB", 2 ^ 10); ("MB", 2 ^ 20); ("GB", 2 ^ 30); ("TB", 2 ^ 40);
    (EmptyString, 1);
    ("KIB", 10 ^ 3); ("MIB", 10 ^ 6); ("GIB", 10 ^ 9); ("TIB", 10 ^ 12) ].

Fixpoint dict_get {V} (d : list (string * V)) (k : string) : res V :=
  match d with
  | (k', v) :: r => if String.eqb k' k then Ok v else dict_get r k
  | [] => Raise KeyError
  end.

(** [re.match(r"^([\d\.]+)\s*([a-zA-Z]{0,3})$", s)]: the three classes
    are disjoint, so the greedy match is the only one. *)
Definition size_regex (s : string) : option (list ascii * string) :=
  let '(number, r1) :=
    Py.span (fun c => Py.is_digit c || Ascii.eqb c ".") (list_ascii_of_string s) in
  let '(_, r2) := Py.span Py.is_space r1 in
  match number with
  | [] => None
  | _ => if forallb Py.is_alpha r2 && (length r2 <=? 3)%nat
         then Some (number, string_of_list_ascii r2) else None
  end.

Definition parse_size (fl : Q -> Q) (size : string) : res Z :=
  let normalized := Py.strip size in
  match size_regex normalized with
  | None => Raise ValueError
  | Some (g1, g2) =>
      number ← Py.float_of_string fl g1;
      let unit := Py.upper g2 in
      u ← dict_get size_units unit;
      Ok (Py.trunc (Py.fmul fl number (Py.of_int fl u)))
  end.

Fixpoint human_readable_loop (fl : Q -> Q) (units : list string) (value : Q)
  : string :=
  match units with
  | unit :: r =>
      if Qlt_le_dec value 1024 then Py.format_3f value ++ " " ++ unit
      else human_readable_loop fl r (Py.fdiv fl value 1024)
  | [] => Py.format_3f value ++ " PB"
  end.

Definition human_readable_bytes (fl : Q -> Q) (num : Z) : string :=
  human_readable_loop fl ["bytes"; "KB"; "MB"; "GB"; "TB"] (Py.of_int fl num).

(** ** The URL cache ([urls.json]) *)

(** What the cache file can hold: a JSON object from resource identifiers
    to URL lists, another JSON value, or text that [json.load] rejects. *)
Inductive cache_file : Type :=
  | JsonDict (m : gmap string (list string))
  | JsonOther
  | NotJson.

(** [Downloader._cache_urls]: [None] is the absent file.  A JSON value
    that is no object makes [data[file_id] = ...] raise before the file
    is opened for writing. *)
Definition _cache_urls (cache : option cache_file) (file_id : string)
    (urls : list string) : res (option cache_file) :=
  data ← match cache with
         | Some (JsonDict m) => Ok m
         | Some JsonOther => Raise TypeError
         | Some NotJson => Ok ∅
         | None => Ok ∅
         end;
  Ok (Some (JsonDict (<[file_id := urls]> data))).

(** [Downloader._load_cached_urls]. *)
Definition _load_cached_urls (cache : option cache_file) (file_id : string)
  : list string :=
  match cache with
  | Some (JsonDict m) => default [] (m !! file_id)
  | _ => []
  end.

(** Lines 184-188 of [download]: the cache file is unlinked when it
    exists; [unlink_ok = false] is the [OSError] that the code passes
    over. *)
Definition unlink_url_cache (unlink_ok : bool) (cache : option cache_file)
  : option cache_file :=
  match cache with
  | Some c => if unlink_ok then None else Some c
  | None => None
  end.

(** ** The range planner *)

Record chunk : Type := {
  inUse : bool;
  downloaded : bool;
  range : Z * Z;    (* the string [f"{start}-{end}"] *)
  bytes : Z
}.

(** [d[k] = v] on an insertion-ordered dict. *)
Fixpoint dict_set {V} (d : list (string * V)) (k : string) (v : V)
  : list (string * V) :=
  match d with
  | (k', v') :: r =>
      if String.eqb k' k then (k', v) :: r else (k', v') :: dict_set r k v
  | [] => [(k, v)]
  end.

Section Ranges.
Variable fl : Q -> Q.

(** The quotient [i * total_value / (split_count * 1.0)]. *)
Definition boundary (total_value split_count i : Z) : Q :=
  Py.fdiv fl (Py.of_int fl (i * total_value))
             (Py.fmul fl (Py.of_int fl split_count) 1).

Definition range_start (total_value split_count i : Z) : Z :=
  Py.round_half_even
    (Py.fadd fl (Py.of_int fl 1) (boundary total_value split_count i)).

Definition range_end (total_value split_count i : Z) : Z :=
  Py.round_half_even
    (Py.fsub fl
       (Py.fadd fl
          (Py.fadd fl (Py.of_int fl 1) (boundary total_value split_count i))
          (Py.fdiv fl (Py.of_int fl total_value)
                      (Py.fmul fl (Py.of_int fl split_count) 1)))
       (Py.of_int fl 1)).

Definition new_chunk (total_value split_count i : Z) : chunk :=
  let start := range_start total_value split_count i in
  let end_ := range_end total_value split_count i in
  {| inUse := false; downloaded := false;
     range := (start, end_); bytes := end_ - start + 1 |}.

(** Every float that iteration [i] computes, in the order of lines
    455-456: the divisor [split_count * 1.0] with the conversion of
    [split_count], the conversion of [i * total_value] and the
    quotient, [1 + ...]; then, for the end, the conversion of
    [total_value] and its quotient, the sum and the difference. *)
Definition floats_of (total_value split_count i : Z) : list Q :=
  let divisor := Py.fmul fl (Py.of_int fl split_count) 1 in
  let first := Py.fadd fl (Py.of_int fl 1) (boundary total_value split_count i) in
  let width := Py.fdiv fl (Py.of_int fl total_value) divisor in
  [ Py.of_int fl split_count; divisor;
    Py.of_int fl (i * total_value); boundary total_value split_count i;
    first;
    Py.of_int fl total_value; width;
    Py.fadd fl first width;
    Py.fsub fl (Py.fadd fl first width) (Py.of_int fl 1) ].

(** Iteration [i] raises [OverflowError] when one of them is not
    finite: [float()] refuses the [int], or the sum is an infinity,
    stays one under [- 1] and [round(..., 0)], and [int()] refuses
    it. *)
Definition overflows (total_value split_count i : Z) : bool :=
  negb (forallb Py.finite (floats_of total_value split_count i)).

(** The loop [for i in range(split_count)]. *)
Definition build_loop (total_value split_count : Z)
  : res (list (string * chunk)) :=
  fold_left
    (fun acc i =>
       d ← acc;
       if overflows total_value split_count (Z.of_nat i)
       then Raise OverflowError
       else Ok (dict_set d (Py.str (Z.of_nat i))
                  (new_chunk total_value split_count (Z.of_nat i))))
    (seq 0 (Z.to_nat split_count)) (Ok []).

(** [Downloader._build_ranges].  [range_dict["0"]] is a [KeyError] on
    an empty table; [str(range).split("-")] gives two pieces only when
    neither number carries a minus sign, else the unpacking is a
    [ValueError]. *)
Definition _build_ranges (total_value split_count : Z)
  : res (list (string * chunk)) :=
  range_dict ← build_loop total_value split_count;
  first ← dict_get range_dict "0";
  let '(start, end_) := range first in
  if (0 <=? start) && (0 <=? end_) then
    Ok (dict_set range_dict "0"
          {| inUse := inUse first; downloaded := downloaded first;
             range := (0, end_); bytes := bytes first + 1 |})
  else Raise ValueError.

End Ranges.

Definition ranges_of (r : res (list (string * chunk))) : list (string * (Z * Z * Z)) :=
  match r with
  | Ok d => map (fun kv => (fst kv, (range (snd kv), bytes (snd kv)))) d
  | Raise _ => []
  end.

(** ** The state of a download attempt *)

Abbreviation pybytes := (list Byte.byte).

(** [math.isclose(a, b, abs_tol=1)] on two [int]s: both become floats,
    and [rel_tol] keeps its default [1e-09]. *)
Definition isclose (fl : Q -> Q) (a b : Z) : bool :=
  let x := Py.of_int fl a in
  let y := Py.of_int fl b in
  let rel_tol := fl (1 # 1000000000) in
  let abs_tol := Py.of_int fl 1 in
  if Qeq_bool x y then true
  else
    let diff := Qabs (Py.fsub fl y x) in
    Qle_bool diff (Qabs (Py.fmul fl rel_tol y))
    || Qle_bool diff (Qabs (Py.fmul fl rel_tol x))
    || Qle_bool diff abs_tol.

(** The fields of [Downloader] and the locals of [_download_once] that
    the workers and the coordinating loop share.  A lock is [true] when
    it is locked.  [files] maps a path to the content of the file there.
    The callbacks and the console progress bar are observers: they read
    the counters and change nothing here. *)
Record state : Type := {
  stop_event : bool;
  stop : bool;
  _bytes_downloaded : Z;
  _done_count : Z;
  ranges : list (string * chunk);
  url_locks : list bool;
  proxy_locks : list bool;
  working_proxy_indexes : list nat;
  _active_proxy_indexes : gset nat;
  files : gmap string pybytes
}.

Definition set_stop_event (b : bool) (s : state) : state :=
  {| stop_event := b; stop := stop s;
     _bytes_downloaded := _bytes_downloaded s; _done_count := _done_count s;
     ranges := ranges s; url_locks := url_locks s;
     proxy_locks := proxy_locks s;
     working_proxy_indexes := working_proxy_indexes s;
     _active_proxy_indexes := _active_proxy_indexes s; files := files s |}.

Definition set_stop (b : bool) (s : state) : state :=
  {| stop_event := stop_event s; stop := b;
     _bytes_downloaded := _bytes_downloaded s; _done_count := _done_count s;
     ranges := ranges s; url_locks := url_locks s;
     proxy_locks := proxy_locks s;
     working_proxy_indexes := working_proxy_indexes s;
     _active_proxy_indexes := _active_proxy_indexes s; files := files s |}.

Definition set_bytes_downloaded (z : Z) (s : state) : state :=
  {| stop_event := stop_event s; stop := stop s;
     _bytes_downloaded := z; _done_count := _done_count s;
     ranges := ranges s; url_locks := url_locks s;
     proxy_locks := proxy_locks s;
     working_proxy_indexes := working_proxy_indexes s;
     _active_proxy_indexes := _active_proxy_indexes s; files := files s |}.

Definition set_done_count (z : Z) (s : state) : state :=
  {| stop_event := stop_event s; stop := stop s;
     _bytes_downloaded := _bytes_downloaded s; _done_count := z;
     ranges := ranges s; url_locks := url_locks s;
     proxy_locks := proxy_locks s;
     working_proxy_indexes := working_proxy_indexes s;
     _active_proxy_indexes := _active_proxy_indexes s; files := files s |}.

Definition set_ranges (r : list (string * chunk)) (s : state) : state :=
  {| stop_event := stop_event s; stop := stop s;
     _bytes_downloaded := _bytes_downloaded s; _done_count := _done_count s;
     ranges := r; url_locks := url_locks s;
     proxy_locks := proxy_locks s;
     working_proxy_indexes := working_proxy_indexes s;
     _active_proxy_indexes := _active_proxy_indexes s; files := files s |}.

Definition set_url_locks (l : list bool) (s : state) : state :=
  {| stop_event := stop_event s; stop := stop s;
     _bytes_downloaded := _bytes_downloaded s; _done_count := _done_count s;
     ranges := ranges s; url_locks := l;
     proxy_locks := proxy_locks s;
     working_proxy_indexes := working_proxy_indexes s;
     _active_proxy_indexes := _active_proxy_indexes s; files := files s |}.

Definition set_proxy_locks (l : list bool) (s : state) : state :=
  {| stop_event := stop_event s; stop := stop s;
     _bytes_downloaded := _bytes_downloaded s; _done_count := _done_count s;
     ranges := ranges s; url_locks := url_locks s;
     proxy_locks := l;
     working_proxy_indexes := working_proxy_indexes s;
     _active_proxy_indexes := _active_proxy_indexes s; files := files s |}.

Definition set_working (l : list nat) (s : state) : state :=
  {| stop_event := stop_event s; stop := stop s;
     _bytes_downloaded := _bytes_downloaded s; _done_count := _done_count s;
     ranges := ranges s; url_locks := url_locks s;
     proxy_locks := proxy_locks s;
     working_proxy_indexes := l;
     _active_proxy_indexes := _active_proxy_indexes s; files := files s |}.

Definition set_active (a : gset nat) (s : state) : state :=
  {| stop_event := stop_event s; stop := stop s;
     _bytes_downloaded := _bytes_downloaded s; _done_count := _done_count s;
     ranges := ranges s; url_locks := url_locks s;
     proxy_locks := proxy_locks s;
     working_proxy_indexes := working_proxy_indexes s;
     _active_proxy_indexes := a; files := files s |}.

Definition set_files (f : gmap string pybytes) (s : state) : state :=
  {| stop_event := stop_event s; stop := stop s;
     _bytes_downloaded := _bytes_downloaded s; _done_count := _done_count s;
     ranges := ranges s; url_locks := url_locks s;
     proxy_locks := proxy_locks s;
     working_proxy_indexes := working_proxy_indexes s;
     _active_proxy_indexes := _active_proxy_indexes s; files := f |}.

(** [range_meta["inUse"] = b] and [range_meta["downloaded"] = b]:
    [range_meta] is the object stored in [ranges] under [index]. *)
Definition set_inUse (b : bool) (c : chunk) : chunk :=
  {| inUse := b; downloaded := downloaded c; range := range c; bytes := bytes c |}.

Definition set_downloaded (b : bool) (c : chunk) : chunk :=
  {| inUse := inUse c; downloaded := b; range := range c; bytes := bytes c |}.

Fixpoint dict_alter {V} (f : V -> V) (d : list (string * V)) (k : string)
  : list (string * V) :=
  match d with
  | (k', v) :: r =>
      if String.eqb k' k then (k', f v) :: r else (k', v) :: dict_alter f r k
  | [] => []
  end.

Definition update_chunk (f : chunk -> chunk) (index : string) (s : state)
  : state :=
  set_ranges (dict_alter f (ranges s) index) s.

(** [lock.release()] guarded by [lock.locked()], and [lock.acquire()] on
    a free lock.  The test and the release are one step here, which is
    what the pair does as long as no other thread releases the same lock
    between the two. *)
Definition release (i : nat) (locks : list bool) : list bool :=
  <[i := false]> locks.

Definition acquire (i : nat) (locks : list bool) : list bool :=
  <[i := true]> locks.

(** [report_progress(delta)]. *)
Definition report_progress (delta : Z) (s : state) : state :=
  if delta =? 0 then s
  else set_bytes_downloaded (_bytes_downloaded s + delta) s.

Definition len (b : pybytes) : Z := Z.of_nat (length b).

(** ** One attempt: worker, dispatch pass, reassembly *)

(** What [response.iter_content] delivers to a worker, in order.  A
    [Block] is one data segment; it is [late] when more than 20 s passed
    since the previous one.  [CancelCall] is a call of [cancel()] from
    another thread between two segments.  An exception of [requests] ends
    the list early: the code suppresses it and goes on to the length
    check. *)
Inductive segment : Type :=
  | Block (data : pybytes) (late : bool)
  | CancelCall.

Section Attempt.
Variable fl : Q -> Q.
Variables tmp_dir filename : string.
Variable split_count : Z.

(** [self.tmp_dir / f"{filename}.part{str(idx).zfill(len(str(split_count)))}"],
    with [sidx] the text [str(idx)]. *)
Definition part_path (sidx : string) : string :=
  (tmp_dir ++ "/" ++ filename ++ ".part"
   ++ Py.zfill (String.length (Py.str split_count)) sidx)%string.

(** *** The worker [download_chunk] *)

(** The [for known in self.working_proxy_indexes] loop.  [rnd] are the
    coming results of [random.randint]; [None] when an index is out of
    range or when the draws run out. *)
Fixpoint scan_known (locks : list bool) (known rnd : list nat)
    (proxy_idx : nat) : option (nat * list nat) :=
  match known with
  | [] => Some (proxy_idx, rnd)
  | k :: ks =>
      match locks !! k with
      | None => None
      | Some false => Some (k, rnd)
      | Some true =>
          match rnd with
          | r :: rnd' => scan_known locks ks rnd' r
          | [] => None
          end
      end
  end.

(** The [while self.proxy_locks[proxy_idx].locked()] loop. *)
Fixpoint spin (locks : list bool) (rnd : list nat) (proxy_idx : nat)
  : option nat :=
  match locks !! proxy_idx with
  | None => None
  | Some false => Some proxy_idx
  | Some true =>
      match rnd with
      | r :: rnd' => spin locks rnd' r
      | [] => None
      end
  end.

Definition select_proxy (s : state) (rnd : list nat) : option nat :=
  match scan_known (proxy_locks s) (working_proxy_indexes s) rnd 0%nat with
  | Some (proxy_idx, rnd') => spin (proxy_locks s) rnd' proxy_idx
  | None => None
  end.

(** Lines 320-326: the proxy lock is taken and the proxy is entered in
    the active set. *)
Definition take_proxy (proxy_idx : nat) (s : state) : state :=
  set_active ({[proxy_idx]} ∪ _active_proxy_indexes s)
    (set_proxy_locks (acquire proxy_idx (proxy_locks s)) s).

(** The [for data in response.iter_content(...)] loop; the result is
    the state and [buffer.getvalue()]. *)
Fixpoint receive (segs : list segment) (buffer : pybytes) (s : state)
  : state * pybytes :=
  match segs with
  | [] => (s, buffer)
  | CancelCall :: rest => receive rest buffer (set_stop_event true s)
  | Block data late :: rest =>
      if stop_event s then (set_stop true s, buffer)
      else if late then (s, buffer)
      else receive rest (buffer ++ data)%list (report_progress (len data) s)
  end.

(** The [finally] clause of the worker. *)
Definition worker_finally (thread_index proxy_idx : nat) (s : state)
  : state :=
  set_proxy_locks (release proxy_idx (proxy_locks s))
    (set_url_locks (release thread_index (url_locks s))
       (set_active (_active_proxy_indexes s ∖ {[proxy_idx]}) s)).

(** Lines 348-370: the length check and what follows it. *)
Definition settle (index : string) (expected_bytes : Z)
    (thread_index proxy_idx : nat) (buffer : pybytes) (s : state) : state :=
  let chunk_bytes := len buffer in
  if negb (isclose fl chunk_bytes expected_bytes) then
    let s1 := report_progress (- chunk_bytes) s in
    let s2 := update_chunk (set_inUse false) index s1 in
    set_url_locks (release thread_index (url_locks s2)) s2
  else
    let s1 := set_files (<[part_path index := buffer]> (files s)) s in
    let s2 :=
      if bool_decide (proxy_idx ∈ working_proxy_indexes s1) then s1
      else set_working (working_proxy_indexes s1 ++ [proxy_idx])%list s1 in
    let s3 := update_chunk (fun c => set_downloaded true (set_inUse false c))
                index s2 in
    set_done_count (_done_count s3 + 1) s3.

(** The worker from the moment it holds proxy [proxy_idx]. *)
Definition transfer (index : string) (expected_bytes : Z)
    (thread_index proxy_idx : nat) (segs : list segment) (s : state)
  : state :=
  let '(s1, buffer) := receive segs [] (take_proxy proxy_idx s) in
  worker_finally thread_index proxy_idx
    (settle index expected_bytes thread_index proxy_idx buffer s1).

(** [download_chunk(index, range_meta, thread_index)], run without
    another thread in between.  [None]: the worker does not get past
    the choice of a proxy. *)
Definition download_chunk (index : string) (thread_index : nat)
    (rnd : list nat) (segs : list segment) (s : state) : option state :=
  if stop_event s then Some (set_stop true s)
  else
    match dict_get (ranges s) index with
    | Raise _ => None
    | Ok range_meta =>
        match select_proxy s rnd with
        | None => None
        | Some proxy_idx =>
            Some (transfer index (bytes range_meta) thread_index
                    proxy_idx segs s)
        end
    end.

(** *** One step of the dispatch loop *)

Fixpoint find_free (locks : list bool) : option nat :=
  match locks with
  | [] => None
  | false :: _ => Some 0%nat
  | true :: r => S <$> find_free r
  end.

(** What the body of [for idx, meta in ranges.items()] decides for one
    chunk. *)
Inductive verdict : Type :=
  | Break
  | Skip
  | Resumed
  | Spawn (thread_index : nat)
  | NoSlot.

(** Lines 392-406: an existing part file is accepted or unlinked.  The
    result says whether the loop goes on to the next chunk. *)
Definition check_part (idx : string) (meta : chunk) (s : state)
  : state * bool :=
  match files s !! part_path idx with
  | Some existing =>
      if isclose fl (len existing) (bytes meta) then
        let s1 := report_progress (bytes meta) s in
        let s2 := update_chunk (set_downloaded true) idx s1 in
        (set_done_count (_done_count s2 + 1) s2, true)
      else (set_files (delete (part_path idx) (files s)) s, false)
  | None => (s, false)
  end.

Definition dispatch_chunk (idx : string) (s : state) : state * verdict :=
  if stop_event s then (set_stop true s, Break)
  else
    match dict_get (ranges s) idx with
    | Raise _ => (s, Skip)
    | Ok meta =>
        if inUse meta || downloaded meta then (s, Skip)
        else
          let '(s1, resumed) := check_part idx meta s in
          if resumed then (s1, Resumed)
          else
            match find_free (url_locks s1) with
            | Some thread_index =>
                (update_chunk (set_inUse true) idx
                   (set_url_locks (acquire thread_index (url_locks s1)) s1),
                 Spawn thread_index)
            | None => (s1, NoSlot)
            end
    end.

(** *** Reassembly (lines 436-445) *)

Fixpoint concat_parts (target : string) (idxs : list nat)
    (fs : gmap string pybytes) : res (gmap string pybytes) :=
  match idxs with
  | [] => Ok fs
  | idx :: rest =>
      let part := part_path (Py.str (Z.of_nat idx)) in
      match fs !! part with
      | None => Raise FileNotFoundError
      | Some data =>
          concat_parts target rest
            (delete part
               (<[target := (default [] (fs !! target) ++ data)%list]> fs))
      end
  end.

Definition reassemble (s : state) : res state :=
  let target_path := filename in
  let fs0 := delete target_path (files s) in
  fs ← concat_parts target_path (seq 0 (length (ranges s)))
         (<[target_path := []]> fs0);
  Ok (set_files fs s).

End Attempt.

Definition chunk_start (c : chunk) : Z := fst (range c).
Definition chunk_end (c : chunk) : Z := snd (range c).

(** The table that [_build_ranges] returns, entry by entry. *)
Definition planned (fl : Q -> Q) (total_value split_count : Z) (i : nat)
  : string * chunk :=
  (Py.str (Z.of_nat i),
   {| inUse := false; downloaded := false;
      range := (match i with
                | O => 0
                | _ => range_start fl total_value split_count (Z.of_nat i)
                end,
                range_end fl total_value split_count (Z.of_nat i));
      bytes := range_end fl total_value split_count (Z.of_nat i)
               - range_start fl total_value split_count (Z.of_nat i) + 1
               + match i with O => 1 | _ => 0 end |}).

(** The ranges of a table lie end to end over [[0, total_size)]: the
    first starts at 0, each next one starts one past the end of the one
    before, the last ends at [total_size - 1]. *)
Definition contiguous_cover (total_size : Z) (table : list (string * chunk))
  : Prop :=
  (exists c, table !! 0%nat = Some c /\ chunk_start (snd c) = 0)
  /\ (forall i a b, table !! i = Some a -> table !! S i = Some b ->
        chunk_start (snd b) = chunk_end (snd a) + 1)
  /\ (exists c, last table = Some c /\ chunk_end (snd c) = total_size - 1).

(** The boundary [i * total_size / chunk_count] lies exactly halfway
    between two integers. *)
Definition tie (total_size chunk_count i : Z) : Prop :=
  (2 * (i * total_size) + chunk_count) mod (2 * chunk_count) = 0.

(** ** The coordinating loop of [_download_once] *)

(** What can happen next while an attempt runs.  [MainStep]: the
    coordinating thread executes its next step.  [Work j rnd segs]: the
    [j]-th worker that was spawned runs [download_chunk], with the random
    draws [rnd] and the response [segs].  [Cancel]: another thread calls
    [cancel()].  [Interrupt]: a [KeyboardInterrupt] reaches the
    coordinating thread. *)
Inductive action : Type :=
  | MainStep
  | Work (j : nat) (rnd : list nat) (segs : list segment)
  | Cancel
  | Interrupt.

(** Where the coordinating thread stands: at the [while] test, inside
    the [for] loop with the keys it has still to visit, or past the
    loop. *)
Inductive position : Type :=
  | AtWhile
  | InFor (keys : list string)
  | Left.

(** A spawned thread: its arguments, and whether it has run. *)
Record job : Type := {
  job_index : string;
  job_thread : nat;
  job_ran : bool
}.

Record config : Type := {
  shared : state;
  pos : position;
  jobs : list job
}.

Section Loop.
Variable fl : Q -> Q.
Variables tmp_dir filename : string.
Variable split_count : Z.

(** One step of the coordinating thread inside
    [while self._done_count < len(ranges)]. *)
Definition main_step (c : config) : config :=
  let s := shared c in
  match pos c with
  | AtWhile =>
      if (_done_count s <? Z.of_nat (length (ranges s))) && negb (stop s)
      then {| shared := s; pos := InFor (map fst (ranges s)); jobs := jobs c |}
      else {| shared := s; pos := Left; jobs := jobs c |}
  | InFor [] => {| shared := s; pos := AtWhile; jobs := jobs c |}
  | InFor (idx :: rest) =>
      match dispatch_chunk fl tmp_dir filename split_count idx s with
      | (s', Break) => {| shared := s'; pos := AtWhile; jobs := jobs c |}
      | (s', Spawn thread_index) =>
          {| shared := s'; pos := InFor rest;
             jobs := (jobs c ++ [{| job_index := idx;
                                    job_thread := thread_index;
                                    job_ran := false |}])%list |}
      | (s', _) => {| shared := s'; pos := InFor rest; jobs := jobs c |}
      end
  | Left => c
  end.

Definition mark_ran (j : job) : job :=
  {| job_index := job_index j; job_thread := job_thread j; job_ran := true |}.

(** The [j]-th thread runs, from its first line to the end of its
    [finally] clause in one step; a thread runs once, and one that does
    not get past the choice of a proxy leaves everything as it is.  What
    other threads can do between the lines of a worker is the matter of
    [tstep] below, and of [settle] and [worker_finally] taken one by
    one. *)
Definition work_step (j : nat) (rnd : list nat) (segs : list segment)
    (c : config) : config :=
  match jobs c !! j with
  | Some jb =>
      if job_ran jb then c
      else
        match download_chunk fl tmp_dir filename split_count
                (job_index jb) (job_thread jb) rnd segs (shared c) with
        | Some s' => {| shared := s'; pos := pos c;
                        jobs := <[j := mark_ran jb]> (jobs c) |}
        | None => c
        end
  | None => c
  end.

Definition step (a : action) (c : config) : config :=
  match pos c with
  | Left => c
  | _ =>
      match a with
      | MainStep => main_step c
      | Work j rnd segs => work_step j rnd segs c
      | Cancel =>
          {| shared := set_stop_event true (shared c);
             pos := pos c; jobs := jobs c |}
      | Interrupt =>
          {| shared := set_stop true (set_stop_event true (shared c));
             pos := Left; jobs := jobs c |}
      end
  end.

(** The loop under a schedule; what is left of the schedule once the
    coordinating thread is past the loop comes back with the result. *)
Fixpoint run (sched : list action) (c : config) : config * list action :=
  match pos c with
  | Left => (c, sched)
  | _ =>
      match sched with
      | [] => (c, [])
      | a :: rest => run rest (step a c)
      end
  end.

(** The [finally] clause of the loop. *)
Definition release_all (s : state) : state :=
  set_proxy_locks (map (fun _ => false) (proxy_locks s))
    (set_url_locks (map (fun _ => false) (url_locks s)) s).

(** Lines 381-449 of [_download_once] from the configuration [c] on:
    the loop, its [finally], the cancellation test and the reassembly.
    [None]: the schedule ends while the loop still runs.  A worker that
    has not returned when the loop is left is not followed further: the
    result is what the coordinating thread sees when no such worker
    acts before it is done. *)
Definition finish_from (sched : list action) (c : config)
  : option (res string * state * list action) :=
  let '(c', sched') := run sched c in
  match pos c' with
  | Left =>
      let s1 := release_all (shared c') in
      if stop s1 then Some (Raise DownloadCancelled, s1, sched')
      else
        match reassemble tmp_dir filename split_count s1 with
        | Ok s2 => Some (Ok filename, s2, sched')
        | Raise e => Some (Raise e, s1, sched')
        end
  | _ => None
  end.

Definition finish_attempt (sched : list action) (s : state)
  : option (res string * state * list action) :=
  finish_from sched {| shared := s; pos := AtWhile; jobs := [] |}.

End Loop.

(** [Downloader._download_once(urls, filename, threads, bytes_per_split)].
    [content_length] is the [Content-Length] header of the [HEAD]
    request, when there is a non-empty one. *)
Definition _download_once (fl : Q -> Q) (tmp_dir : string)
    (content_length : option Z) (sched : list action)
    (urls : list string) (filename : string) (threads bytes_per_split : Z)
    (s : state) : option (res string * state * list action) :=
  match urls, content_length with
  | [], _ => Some (Raise IndexError, s, sched)
  | _, None => Some (Raise RuntimeError, s, sched)
  | _, Some size_in_bytes =>
      let total_size :=
        if size_in_bytes <? 0 then size_in_bytes + 2 ^ 32 else size_in_bytes in
      let s1 := set_done_count 0 (set_bytes_downloaded 0 s) in
      if bytes_per_split =? 0 then Some (Raise ZeroDivisionError, s1, sched)
      else
        let split_count :=
          Z.max 1 (Py.ceil (fl (inject_Z total_size / inject_Z bytes_per_split)%Q)) in
        match _build_ranges fl total_size split_count with
        | Raise e => Some (Raise e, s1, sched)
        | Ok table =>
            let s2 :=
              set_stop false
                (set_url_locks (repeat false (Z.to_nat threads))
                   (set_ranges table s1)) in
            finish_attempt fl tmp_dir filename split_count sched s2
        end
  end.

(** ** [Downloader.download] *)

Definition MEDIA_EXTENSIONS : list string :=
  [".mp4"; ".mkv"; ".mov"; ".avi"; ".flv"; ".wmv"; ".webm"; ".mpg"; ".mpeg";
   ".m4v"; ".mp3"; ".aac"; ".wav"; ".flac"; ".ogg"].

Fixpoint starts_with (p l : list ascii) : option (list ascii) :=
  match p, l with
  | [], _ => Some l
  | a :: p', b :: l' => if Ascii.eqb a b then starts_with p' l' else None
  | _ :: _, [] => None
  end.

(** A [.] of the pattern: any character but a newline. *)
Definition any_char (l : list ascii) : option (list ascii) :=
  match l with
  | c :: r => if Ascii.eqb c "010" then None else Some r
  | [] => None
  end.

(** The lazy group [(.*?)] followed by [(\?|/|$)]. *)
Fixpoint lazy_id (l : list ascii) : option (list ascii) :=
  match l with
  | [] => Some []
  | c :: r =>
      if Ascii.eqb c "?" || Ascii.eqb c "/" then Some []
      else if Ascii.eqb c "010" then
        match r with [] => Some [] | _ => None end
      else cons c <$> lazy_id r
  end.

(** The pattern [https?://(k2s.cc|keep2share.cc)/file/(.*?)(\?|/|$)] at
    the head of [l]. *)
Definition match_file_url (l : list ascii) : option (list ascii) :=
  l1 ← starts_with (list_ascii_of_string "http") l;
  let l2 := match l1 with
            | c :: r => if Ascii.eqb c "s" then r else l1
            | [] => l1
            end in
  l3 ← starts_with (list_ascii_of_string "://") l2;
  let host1 :=
    a ← starts_with (list_ascii_of_string "k2s") l3;
    b ← any_char a;
    starts_with (list_ascii_of_string "cc/file/") b in
  let host2 :=
    a ← starts_with (list_ascii_of_string "keep2share") l3;
    b ← any_char a;
    starts_with (list_ascii_of_string "cc/file/") b in
  match host1 ≫= lazy_id with
  | Some id => Some id
  | None => host2 ≫= lazy_id
  end.

Fixpoint search_file_url (l : list ascii) : option (list ascii) :=
  match match_file_url l with
  | Some id => Some id
  | None => match l with
            | [] => None
            | _ :: r => search_file_url r
            end
  end.

(** [Downloader.extract_file_id]. *)
Definition extract_file_id (url : string) : res string :=
  match search_file_url (list_ascii_of_string url) with
  | Some id => Ok (string_of_list_ascii id)
  | None => Raise ValueError
  end.

(** What the outside world answers during one call of [download]: the
    proxy discovery, the two calls of the link service, whether the
    cache file can be unlinked, the [Content-Length] of the [n]-th
    attempt, whether [ffmpeg] is installed and what it says of the
    [n]-th output, and [pathlib]'s [suffix] and [suffixes].
    [get_working_proxies] is the list that the discovery returns: a
    discovery that raises, and the proxy file that it rewrites, are not
    in this record (the function itself is [Proxy.get_working_proxies]
    below), so what is said of a [download] that reaches
    [refresh_proxies] is said of calls in which the discovery
    returns. *)
Record world : Type := {
  get_working_proxies : list (option string);
  get_name : string -> res string;
  generate_download_urls :
    string -> Z -> list (option string) -> res (list string);
  unlink_ok : bool;
  content_length : nat -> option Z;
  which_ffmpeg : bool;
  _check_media : nat -> bool;
  path_suffix : string -> string;
  path_suffixes : string -> list string
}.

(** The [Downloader] object and the files it works on. *)
Record downloader : Type := {
  tmp_dir : string;
  proxies : list (option string);
  url_cache : option cache_file;
  attempt : state
}.

(** The contacts with the outside world and the writes, in order. *)
Inductive event : Type :=
  | EvProxies
  | EvGetName (file_id : string)
  | EvUnlinkCache
  | EvGenerateUrls (file_id : string) (count : Z)
  | EvWriteCache
  | EvMkdir
  | EvAttempt (bytes_per_split : Z)
  | EvCheckMedia.

Section Download.
Variable fl : Q -> Q.
Variable w : world.

(** [Downloader._resolve_filename]. *)
Definition _resolve_filename (user_filename : option string)
    (original_name : string) : string :=
  match user_filename with
  | None => original_name
  | Some EmptyString => original_name
  | Some name =>
      if negb (String.eqb (path_suffix w name) EmptyString) then name
      else (name ++ String.concat EmptyString (path_suffixes w original_name))%string
  end.

(** [Downloader.should_check_media]. *)
Definition should_check_media (name : string) : bool :=
  bool_decide (Py.lower (path_suffix w name) ∈ MEDIA_EXTENSIONS).

(** [Downloader.refresh_proxies]. *)
Definition refresh_proxies (d : downloader) : downloader :=
  let ps := get_working_proxies w in
  {| tmp_dir := tmp_dir d; proxies := ps; url_cache := url_cache d;
     attempt :=
       set_active ∅
         (set_working []
            (set_proxy_locks (map (fun _ => false) ps) (attempt d))) |}.

Definition with_attempt (s : state) (d : downloader) : downloader :=
  {| tmp_dir := tmp_dir d; proxies := proxies d; url_cache := url_cache d;
     attempt := s |}.

Definition with_cache (c : option cache_file) (d : downloader) : downloader :=
  {| tmp_dir := tmp_dir d; proxies := proxies d; url_cache := c;
     attempt := attempt d |}.

(** The [while True] loop of [download].  [fuel] bounds the rounds of
    the loop, [n] counts the attempts made before this one, and
    [redownloaded] is the flag of line 212. *)
Fixpoint attempts (fuel n : nat) (redownloaded : bool)
    (ensure_media_check : bool) (urls : list string)
    (resolved_name : string) (threads current_split : Z)
    (sched : list action) (d : downloader) (log : list event)
  : option (res string * downloader * list event) :=
  match fuel with
  | O => None
  | S fuel' =>
      match _download_once fl (tmp_dir d) (content_length w n) sched urls
              resolved_name threads current_split (attempt d) with
      | None => None
      | Some (r, s', sched') =>
          let d' := with_attempt s' d in
          let log' := (log ++ [EvAttempt current_split])%list in
          match r with
          | Raise e => Some (Raise e, d', log')
          | Ok result =>
              if stop_event s' then Some (Raise DownloadCancelled, d', log')
              else if ensure_media_check && should_check_media resolved_name
                      && which_ffmpeg w
              then
                if _check_media w n then Some (Ok result, d', (log' ++ [EvCheckMedia])%list)
                else if redownloaded
                then Some (Ok result, d', (log' ++ [EvCheckMedia])%list)
                else attempts fuel' (S n) true ensure_media_check urls
                       resolved_name threads (current_split * 2) sched' d'
                       (log' ++ [EvCheckMedia])%list
              else Some (Ok result, d', log')
          end
      end
  end.

(** Lines 172-200 of [download]: everything before the first attempt.
    The result is the URLs and the resolved name, or what was raised;
    with it come the downloader afterwards and the log of what was
    done. *)
Definition download_setup (url : string) (filename : option string)
    (threads split_size : Z) (d : downloader)
  : res (list string * string) * downloader * list event :=
  if split_size <? 5 * 1024 * 1024 then (Raise ValueError, d, [])
  else
    let '(d1, log1) :=
      match proxies d with
      | [] => (refresh_proxies d, [EvProxies])
      | _ => (d, [])
      end in
    match extract_file_id url with
    | Raise e => (Raise e, d1, log1)
    | Ok file_id =>
        let log2 := (log1 ++ [EvGetName file_id])%list in
        match get_name w file_id with
        | Raise e => (Raise e, d1, log2)
        | Ok original_name =>
            let resolved_name := _resolve_filename filename original_name in
            let '(d2, log3) :=
              match url_cache d1 with
              | Some _ =>
                  (with_cache (unlink_url_cache (unlink_ok w) (url_cache d1)) d1,
                   (log2 ++ [EvUnlinkCache])%list)
              | None => (d1, log2)
              end in
            let log4 := (log3 ++ [EvGenerateUrls file_id threads])%list in
            match generate_download_urls w file_id threads (proxies d2) with
            | Raise e => (Raise e, d2, log4)
            | Ok urls =>
                match _cache_urls (url_cache d2) file_id urls with
                | Raise e => (Raise e, d2, log4)
                | Ok cache' =>
                    (Ok (urls, resolved_name),
                     with_attempt (set_stop_event false (attempt d2))
                       (with_cache cache' d2),
                     (log4 ++ [EvWriteCache; EvMkdir])%list)
                end
            end
        end
    end.

(** [Downloader.download(url, filename=..., threads=..., split_size=...,
    ensure_media_check=...)].  The result is what the call returns or
    raises, the downloader afterwards and the log of what it did;
    [None] when the schedule ends while an attempt still runs.  The
    loop gets two rounds of fuel; it never asks for a third
    ([attempts_fuel]). *)
Definition download (url : string) (filename : option string)
    (threads split_size : Z) (ensure_media_check : bool)
    (sched : list action) (d : downloader)
  : option (res string * downloader * list event) :=
  match download_setup url filename threads split_size d with
  | (Raise e, d', log) => Some (Raise e, d', log)
  | (Ok (urls, resolved_name), d', log) =>
      attempts 2 0 false ensure_media_check urls resolved_name
        threads split_size sched d' log
  end.

End Download.

(** ** A concrete world for the examples *)

Definition idle_state : state :=
  {| stop_event := false; stop := false;
     _bytes_downloaded := 0; _done_count := 0;
     ranges := []; url_locks := []; proxy_locks := [];
     working_proxy_indexes := []; _active_proxy_indexes := ∅;
     files := ∅ |}.

Definition sample_world : world :=
  {| get_working_proxies := [None];
     get_name := fun _ => Ok "movie.mp4";
     generate_download_urls := fun _ _ _ => Ok ["https://host/u1"];
     unlink_ok := true;
     content_length := fun _ => Some 100;
     which_ffmpeg := false;
     _check_media := fun _ => true;
     path_suffix := fun _ => ".mp4";
     path_suffixes := fun _ => [".mp4"] |}.

Definition sample_downloader : downloader :=
  {| tmp_dir := "tmp"; proxies := [];
     url_cache := Some (JsonDict {["other" := ["https://host/old"]]});
     attempt := idle_state |}.

(** ** Vocabulary of the statements, and sample data *)

(** The number that a text of decimal digits denotes. *)
Definition decode (s : string) : option N :=
  option_map Pos.of_uint (NilEmpty.uint_of_string s).

(** The part files as the workers leave them when the chunks complete
    in the order [order]: chunk [i] is written with [content i]. *)
Definition write_parts (tmp_dir filename : string) (split_count : Z)
    (content : nat -> pybytes) (order : list nat)
    (fs : gmap string pybytes) : gmap string pybytes :=
  fold_left
    (fun fs i =>
       <[part_path tmp_dir filename split_count (Py.str (Z.of_nat i))
         := content i]> fs)
    order fs.

(** Two chunks of a file, with a stale file at the output path. *)
Definition sample_content (i : nat) : pybytes :=
  match i with
  | O => [Byte.x61; Byte.x62]
  | _ => [Byte.x63]
  end.

Definition two_chunks : state :=
  set_ranges
    [("0", {| inUse := false; downloaded := true; range := (0, 2); bytes := 3 |});
     ("1", {| inUse := false; downloaded := true; range := (3, 3); bytes := 1 |})]
    (set_files {["movie.mp4" := [Byte.x78]]} idle_state).

(** [s'] differs from [s] at most in the two stop flags and in the
    bytes-downloaded counter. *)
Definition same_but_progress (s s' : state) : Prop :=
  files s' = files s /\ ranges s' = ranges s
  /\ _done_count s' = _done_count s /\ url_locks s' = url_locks s
  /\ proxy_locks s' = proxy_locks s
  /\ working_proxy_indexes s' = working_proxy_indexes s
  /\ _active_proxy_indexes s' = _active_proxy_indexes s.

(** A chunk of 4 000 000 000 bytes and a part file two bytes short. *)
Definition big_chunk : chunk :=
  {| inUse := false; downloaded := false;
     range := (0, 3999999999); bytes := 4000000000 |}.

Definition short_part_state : state :=
  set_files
    {[part_path "tmp" "movie.mp4" 1 "0"
      := repeat Byte.x00 (Z.to_nat 3999999998)]}
    idle_state.

(** Every lock of the list is unlocked. *)
Definition unlocked (locks : list bool) : Prop :=
  Forall (fun b => b = false) locks.

Definition is_main (a : action) : bool :=
  match a with MainStep => true | _ => false end.

(** The number of steps that a schedule gives to the coordinating
    thread. *)
Definition main_steps (sched : list action) : nat :=
  length (filter (fun a => is_main a = true) sched).

(** A run of [download] on a file of 100 bytes: the worker fetches the
    only chunk, then [cancel()] is called, then the coordinating thread
    reaches the [while] test. *)
Definition hundred_bytes : pybytes := repeat Byte.x2a 100.

Definition late_cancel : list action :=
  [MainStep; MainStep; Work 0 [] [Block hundred_bytes false]; Cancel;
   MainStep; MainStep].

(** The start of an attempt on 5 bytes in 2 chunks, with two slots and
    one proxy. *)
Definition two_chunk_start : config :=
  {| shared :=
       set_ranges
         [("0", {| inUse := false; downloaded := false; range := (0, 2);
                   bytes := 3 |});
          ("1", {| inUse := false; downloaded := false; range := (4, 5);
                   bytes := 2 |})]
         (set_url_locks [false; false] (set_proxy_locks [false] idle_state));
     pos := AtWhile;
     jobs := [] |}.

(** This attempt once the worker of chunk ["0"] has fetched its three
    bytes and returned, and [cancel()] was called: the coordinating
    thread has chunk ["1"] still to visit. *)
Definition seen_in_pass : config :=
  fst (run Py.b64 "tmp" "movie.mp4" 2
         [MainStep; MainStep;
          Work 0 [] [Block [Byte.x2a; Byte.x2a; Byte.x2a] false]; Cancel]
         two_chunk_start).

(** What no step of an attempt undoes: the file at the output path is
    as it was, and a stop flag that is set stays set. *)
Definition keeps (filename : string) (s s' : state) : Prop :=
  files s' !! filename = files s !! filename
  /\ (stop s = true -> stop s' = true)
  /\ (stop_event s = true -> stop_event s' = true).

(** The steps that the coordinating thread needs to leave the loop once
    [stop] is set. *)
Definition need (c : config) : nat :=
  match pos c with
  | Left => 0
  | AtWhile => 1
  | InFor _ => 2
  end.

(** ** The proxy locks under interleaving *)

(** Where a [download_chunk] thread stands with respect to its proxy
    lock: before the test of the flag (line 298), choosing an index
    (lines 309-318), blocked in [acquire()] (line 320), between
    [acquire()] and the [finally] clause (lines 321-370), returned. *)
Inductive wstate : Type :=
  | Entry
  | Choosing
  | Waiting (proxy_idx : nat)
  | Holding (proxy_idx : nat)
  | Returned.

(** The proxy locks, the flag, the list of working proxies, the worker
    threads that were started and whether the coordinating thread is in
    a dispatch loop.  The locks belong to the downloader: they outlive
    a loop, and so can its workers, which are daemon threads. *)
Record threads : Type := {
  t_locks : list bool;
  t_stop_event : bool;
  t_working : list nat;
  t_workers : list wstate;
  t_in_loop : bool
}.

(** One atomic step of one thread. *)
Inductive tstep : threads -> threads -> Prop :=
  | t_spawn (c : threads) :
      (* line 413: the coordinating thread starts a worker *)
      t_in_loop c = true ->
      tstep c {| t_locks := t_locks c; t_stop_event := t_stop_event c;
                 t_working := t_working c;
                 t_workers := (t_workers c ++ [Entry])%list;
                 t_in_loop := true |}
  | t_enter (c : threads) (i : nat) :
      (* lines 298-300 *)
      t_workers c !! i = Some Entry ->
      tstep c {| t_locks := t_locks c; t_stop_event := t_stop_event c;
                 t_working := t_working c;
                 t_workers :=
                   <[i := if t_stop_event c then Returned else Choosing]>
                     (t_workers c);
                 t_in_loop := t_in_loop c |}
  | t_choose (c : threads) (i : nat) (rnd rnd' : list nat) (p0 p : nat) :
      (* lines 309-318: the two loops end with an index seen unlocked *)
      t_workers c !! i = Some Choosing ->
      scan_known (t_locks c) (t_working c) rnd 0%nat = Some (p0, rnd') ->
      spin (t_locks c) rnd' p0 = Some p ->
      tstep c {| t_locks := t_locks c; t_stop_event := t_stop_event c;
                 t_working := t_working c;
                 t_workers := <[i := Waiting p]> (t_workers c);
                 t_in_loop := t_in_loop c |}
  | t_acquire (c : threads) (i p : nat) :
      (* line 320: [acquire()] returns once the lock is free *)
      t_workers c !! i = Some (Waiting p) ->
      t_locks c !! p = Some false ->
      tstep c {| t_locks := <[p := true]> (t_locks c);
                 t_stop_event := t_stop_event c;
                 t_working := t_working c;
                 t_workers := <[i := Holding p]> (t_workers c);
                 t_in_loop := t_in_loop c |}
  | t_finish (c : threads) (i p : nat) (accepted : bool) :
      (* lines 357-358 and 378-379: the chunk is settled and the
         [finally] clause releases the lock *)
      t_workers c !! i = Some (Holding p) ->
      tstep c {| t_locks := <[p := false]> (t_locks c);
                 t_stop_event := t_stop_event c;
                 t_working :=
                   if accepted && negb (bool_decide (p ∈ t_working c))
                   then (t_working c ++ [p])%list else t_working c;
                 t_workers := <[i := Returned]> (t_workers c);
                 t_in_loop := t_in_loop c |}
  | t_cancel (c : threads) :
      (* [cancel()] from another thread *)
      tstep c {| t_locks := t_locks c; t_stop_event := true;
                 t_working := t_working c; t_workers := t_workers c;
                 t_in_loop := t_in_loop c |}
  | t_leave (c : threads) :
      (* lines 423-429: the loop ends and its [finally] clause releases
         every proxy lock *)
      t_in_loop c = true ->
      tstep c {| t_locks := map (fun _ => false) (t_locks c);
                 t_stop_event := t_stop_event c;
                 t_working := t_working c; t_workers := t_workers c;
                 t_in_loop := false |}
  | t_again (c : threads) :
      (* a further loop on the same locks: the retry of lines 205-216,
         which is reached with the flag not set, or a later call of
         [download], which clears the flag at line 199 *)
      t_in_loop c = false ->
      tstep c {| t_locks := t_locks c; t_stop_event := false;
                 t_working := t_working c; t_workers := t_workers c;
                 t_in_loop := true |}.

(** The first loop of a downloader: no worker yet. *)
Definition t_init (locks : list bool) (working : list nat) : threads :=
  {| t_locks := locks; t_stop_event := false; t_working := working;
     t_workers := []; t_in_loop := true |}.

(** No two workers are between [acquire()] and their [finally] clause
    with the same proxy. *)
Definition exclusive (c : threads) : Prop :=
  forall i j p, i <> j ->
    t_workers c !! i = Some (Holding p) ->
    t_workers c !! j = Some (Holding p) -> False.

(** The lock of a proxy in use is locked. *)
Definition held_locked (c : threads) : Prop :=
  forall i p, t_workers c !! i = Some (Holding p) -> t_locks c !! p = Some true.

(** No worker is between [acquire()] and its [finally] clause. *)
Definition quiet (c : threads) : Prop :=
  forall i p, t_workers c !! i = Some (Holding p) -> False.

(** A step after which the coordinating thread is in its loop: from a
    state inside a loop, a step that does not end this loop. *)
Definition loop_step (c c' : threads) : Prop :=
  tstep c c' /\ t_in_loop c' = true.

(** One step of a trace, its side conditions by computation. *)
Tactic Notation "thread_step" uconstr(rule) :=
  eapply rtc_l; [eapply rule; reflexivity|cbn].

Tactic Notation "loop_thread_step" uconstr(rule) :=
  eapply rtc_l; [split; [eapply rule; reflexivity|reflexivity]|cbn].

(** One worker holds proxy 0 while a second one chooses. *)
Definition one_holder : threads :=
  {| t_locks := [true; false]; t_stop_event := false; t_working := [];
     t_workers := [Holding 0; Choosing]; t_in_loop := true |}.

(** ** [core/proxy.py] *)

(** [l[:k]] for a Python list. *)
Definition slice_to {A} (k : Z) (l : list A) : list A :=
  if 0 <=? k then take (Z.to_nat k) l
  else take (Z.to_nat (Z.of_nat (length l) + k)) l.

Module Proxy.

(** The characters at which [str.splitlines] breaks a text, among the
    first 256 code points. *)
Definition is_break (c : ascii) : bool :=
  let n := nat_of_ascii c in
  ((10 <=? n)%nat && (n <=? 13)%nat) || ((28 <=? n)%nat && (n <=? 30)%nat)
  || (n =? 133)%nat.

(** The lines of [text.splitlines()] that are not empty, [cur] being
    the line read so far. *)
Fixpoint lines_from (cur : list ascii) (l : list ascii) : list string :=
  match l with
  | [] => match cur with [] => [] | _ => [string_of_list_ascii cur] end
  | c :: r =>
      if is_break c then
        match cur with
        | [] => lines_from [] r
        | _ => string_of_list_ascii cur :: lines_from [] r
        end
      else lines_from (cur ++ [c]) r
  end.

Definition nonempty_lines (text : string) : list string :=
  lines_from [] (list_ascii_of_string text).

(** What the function meets outside: the file [proxies.txt] ([None]
    when there is none), the answer of proxyscrape.com, which proxies
    pass the HTTPS check, and the order in which Python lists the
    elements of the set of working proxies. *)
Record net : Type := {
  proxies_txt : option string;
  remote_text : res string;
  passes : string -> bool;
  set_order : list string -> list string
}.

(** The loop that removes duplicates and keeps the order. *)
Fixpoint dedupe (seen : gset string) (l : list string) : list string :=
  match l with
  | [] => []
  | proxy :: r =>
      if negb (String.eqb proxy EmptyString) && negb (bool_decide (proxy ∈ seen))
      then proxy :: dedupe ({[proxy]} ∪ seen) r
      else dedupe seen r
  end.

Definition nonempty {A} (l : list A) : bool :=
  match l with [] => false | _ => true end.

(** [get_working_proxies(refresh, max_candidates=..., recheck_cached=...)]:
    the list it returns and the file [proxies.txt] afterwards.  With
    [HTTPS_RETRIES = 1] the validation loop makes one pass and retries
    nothing. *)
Definition get_working_proxies (n : net) (refresh : bool)
    (max_candidates : option Z) (recheck_cached : bool)
  : res (list (option string) * option string) :=
  let cached_proxies :=
    match proxies_txt n with
    | Some text => nonempty_lines text
    | None => []
    end in
  if negb refresh && negb recheck_cached && nonempty cached_proxies
  then Ok (None :: map Some cached_proxies, proxies_txt n)
  else
    let rechecked :=
      if recheck_cached && nonempty cached_proxies then cached_proxies
      else [] in
    let fetch_remote :=
      if recheck_cached then negb (nonempty cached_proxies)
      else refresh || negb (nonempty cached_proxies) in
    fetched ← (if fetch_remote
               then text ← remote_text n; Ok (nonempty_lines text)
               else Ok []);
    let proxies := dedupe ∅ (rechecked ++ fetched) in
    match proxies with
    | [] => Ok (None :: map Some cached_proxies, proxies_txt n)
    | _ =>
        let proxies :=
          match max_candidates with
          | Some k => if k =? 0 then proxies else slice_to k proxies
          | None => proxies
          end in
        match proxies with
        | [] => Ok ([None], proxies_txt n)
        | _ =>
            let working_proxies := set_order n (List.filter (passes n) proxies) in
            match working_proxies with
            | [] => Ok ([None], Some EmptyString)
            | _ => Ok (None :: map Some working_proxies,
                       Some (String.concat (String "010" EmptyString)
                               working_proxies))
            end
        end
    end.

End Proxy.

(** ** [core/k2s_client.py] *)

Module K2sClient.

(** What [requests.post(".../getUrl", ...).json()] gives for the
    request with the captcha answer: an exception, or a JSON object, of
    which the code reads whether [status] is ["error"], the [message]
    (the empty text when absent), [time_wait] (a number when present)
    and [free_download_key]. *)
Inductive reply : Type :=
  | NoAnswer
  | Answer (status_error : bool) (message : string) (time_wait : option Z)
           (free_download_key : option string).

(** The outside world of one call, in the order in which the call
    consumes it: the captcha challenges ([Raise] when fetching or
    answering one raises), the replies to the requests with the captcha
    answer, and for each round of URL requests the outcomes of its
    futures in the order in which they complete ([None]: the future
    raised). *)
Record script : Type := {
  captchas : list (res unit);
  links : list reply;
  rounds : list (list (option string))
}.

Inductive outcome : Type :=
  | Returns (urls : list string)
  | Raises (e : exn)
  | SysExit (message : string)
  | Unfinished.

(** How the loop [while not working_link] ends for one proxy. *)
Inductive link : Type :=
  | Working (free_download_key : string)
            (captchas' : list (res unit)) (links' : list reply)
  | NextProxy (captchas' : list (res unit)) (links' : list reply)
  | LinkRaises (e : exn)
  | LinkExit
  | LinkUnfinished.

Fixpoint try_link (links : list reply) (captchas : list (res unit)) : link :=
  match links with
  | [] => LinkUnfinished
  | NoAnswer :: links' => NextProxy captchas links'
  | Answer status_error message time_wait key :: links' =>
      if status_error && String.eqb message "Invalid captcha code" then
        match captchas with
        | [] => LinkUnfinished
        | Raise e :: _ => LinkRaises e
        | Ok _ :: captchas' => try_link links' captchas'
        end
      else if status_error && String.eqb message "File not found" then LinkExit
      else
        match time_wait with
        | None => Working (default EmptyString key) captchas links'
        | Some wait_time =>
            if 30 <? wait_time then NextProxy captchas links'
            else match key with
                 | Some k => Working k captchas links'
                 | None => LinkRaises KeyError
                 end
        end
  end.

(** The loop [while len(urls) < count]. *)
Fixpoint collect (rounds : list (list (option string))) (count : Z)
    (urls : list string) : option (list string) :=
  if Z.of_nat (length urls) <? count then
    match rounds with
    | [] => None
    | done :: rounds' =>
        let to_generate := count - Z.of_nat (length urls) in
        collect rounds' count
          (urls ++ omap id (take (Z.to_nat to_generate) done))
    end
  else Some urls.

(** The loop [for proxy in proxy_pool]; the result is [urls], or how
    the call ends inside the loop. *)
Fixpoint visit (proxy_pool : list (option string))
    (captchas : list (res unit)) (links : list reply)
    (rounds : list (list (option string))) (count : Z)
  : outcome :=
  match proxy_pool with
  | [] => Returns []
  | _ :: pool' =>
      match try_link links captchas with
      | Working _ _ _ =>
          match collect rounds count [] with
          | Some urls => Returns urls
          | None => Unfinished
          end
      | NextProxy captchas' links' => visit pool' captchas' links' rounds count
      | LinkRaises e => Raises e
      | LinkExit => SysExit "File not found"
      | LinkUnfinished => Unfinished
      end
  end.

(** [generate_download_urls(file_id, count, skip=..., proxies=...)].
    [net] answers [get_working_proxies()] when no proxies are given. *)
Definition generate_download_urls (net : Proxy.net) (sc : script)
    (file_id : string) (count skip : Z)
    (proxies : option (list (option string))) : outcome :=
  match
    match proxies with
    | Some pool => Ok pool
    | None =>
        match Proxy.get_working_proxies net false None false with
        | Ok (pool, _) => Ok pool
        | Raise e => Raise e
        end
    end
  with
  | Raise e => Raises e
  | Ok pool =>
      let proxy_pool := if 0 <? skip then drop (Z.to_nat skip) pool else pool in
      match captchas sc with
      | [] => Unfinished
      | Raise e :: _ => Raises e
      | Ok _ :: captchas' =>
          match visit proxy_pool captchas' (links sc) (rounds sc) count with
          | Returns [] => Raises RuntimeError
          | Returns urls => Returns (slice_to count urls)
          | other => other
          end
      end
  end.

End K2sClient.

(** ** [cli.py] *)

(** [Downloader(...)]: the object that [__init__] builds, on a disk
    that holds the URL cache [cache] and the files [fs]. *)
Definition new_downloader (cache : option cache_file)
    (fs : gmap string pybytes) : downloader :=
  {| tmp_dir := "tmp"; proxies := []; url_cache := cache;
     attempt :=
       {| stop_event := false; stop := false;
          _bytes_downloaded := 0; _done_count := 0;
          ranges := []; url_locks := []; proxy_locks := [];
          working_proxy_indexes := []; _active_proxy_indexes := ∅;
          files := fs |} |}.

Module Cli.

(** The parsed command line. *)
Record args : Type := {
  url : string;
  filename : option string;
  batch_count : Z;
  size : string;
  skip_media_check : bool
}.

(** [build_parser().parse_args(argv)] when [argv] holds the URL alone. *)
Definition defaults (the_url : string) : args :=
  {| url := the_url; filename := None; batch_count := 20; size := "20M";
     skip_media_check := false |}.

(** How [main] ends: it returns a status, it leaves through
    [SystemExit] with a status ([parser.error] gives 2, [parser.exit(1)]
    gives 1), or an exception leaves it. *)
Inductive status : Type :=
  | Return (code : Z)
  | Exit (code : Z)
  | Uncaught (e : exn).

(** [main(argv)] from the parsed arguments on; with the status comes
    the log of what [download] did. *)
Definition main (fl : Q -> Q) (w : world) (sched : list action)
    (cache : option cache_file) (fs : gmap string pybytes) (a : args)
  : option (status * list event) :=
  match parse_size fl (size a) with
  | Raise ValueError => Some (Exit 2, [])
  | Raise e => Some (Uncaught e, [])
  | Ok split_size =>
      match download fl w (url a) (filename a) (batch_count a) split_size
              (negb (skip_media_check a)) sched (new_downloader cache fs) with
      | None => None
      | Some (Ok _, _, log) => Some (Return 0, log)
      | Some (Raise DownloadCancelled, _, log) => Some (Return 1, log)
      | Some (Raise _, _, log) => Some (Exit 1, log)
      end
  end.

End Cli.

(** ** Vocabulary of the further properties, and sample data *)

(** The unit that [human_readable_bytes] prints after [j] divisions. *)
Definition unit_name (j : nat) : string :=
  nth j ["bytes"; "KB"; "MB"; "GB"; "TB"] "PB".

(** A character that the identifier group of the URL pattern can hold. *)
Definition id_char (c : ascii) : bool :=
  negb (Ascii.eqb c "?" || Ascii.eqb c "/" || Ascii.eqb c "010").

(** The chunk that the planner gives to index [i] when the chunk count
    divides the total size, [q] being the quotient. *)
Definition even_chunk (q : Z) (i : nat) : string * chunk :=
  (Py.str (Z.of_nat i),
   {| inUse := false; downloaded := false;
      range := (match i with O => 0 | _ => Z.of_nat i * q + 1 end,
                (Z.of_nat i + 1) * q);
      bytes := q + match i with O => 1 | _ => 0 end |}).

(** The byte counts of a table, added up. *)
Definition planned_bytes (table : list (string * chunk)) : Z :=
  foldr Z.add 0 (map (fun kv => bytes (snd kv)) table).

(** A response whose blocks all arrive in time, with no cancellation. *)
Definition on_time (blocks : list pybytes) : list segment :=
  map (fun data => Block data false) blocks.

(** What never changes of a table: its keys and byte counts. *)
Definition plan_of (table : list (string * chunk)) : list (string * Z) :=
  map (fun kv => (fst kv, bytes (snd kv))) table.

(** The number of chunks that are marked downloaded. *)
Definition downloaded_count (table : list (string * chunk)) : Z :=
  Z.of_nat (length (List.filter (fun kv => downloaded (snd kv)) table)).

(** A worker thread that was started and has not run yet. *)
Definition pending (c : config) (j : nat) (jb : job) : Prop :=
  jobs c !! j = Some jb /\ job_ran jb = false.

(** The state in which the coordinating loop starts: the keys are
    ["0"], ["1"], ..., no chunk is in use or downloaded, and nothing is
    counted as done. *)
Definition fresh (s : state) : Prop :=
  map fst (ranges s)
  = map (fun i => Py.str (Z.of_nat i)) (seq 0 (length (ranges s)))
  /\ Forall (fun kv => inUse (snd kv) = false /\ downloaded (snd kv) = false)
       (ranges s)
  /\ _done_count s = 0.

(** What every step of an attempt keeps. *)
Record loop_invariant (fl : Q -> Q) (tmp_dir filename : string)
    (split_count : Z) (plan : list (string * Z)) (c : config) : Prop := {
  inv_plan : plan_of (ranges (shared c)) = plan;
  inv_keys :
    map fst plan = map (fun i => Py.str (Z.of_nat i)) (seq 0 (length plan));
  inv_pending : forall j jb, pending c j jb ->
    exists meta,
      dict_get (ranges (shared c)) (job_index jb) = Ok meta
      /\ inUse meta = true /\ downloaded meta = false
      /\ url_locks (shared c) !! job_thread jb = Some true;
  inv_distinct : forall j1 j2 jb1 jb2,
    pending c j1 jb1 -> pending c j2 jb2 -> j1 <> j2 ->
    job_index jb1 <> job_index jb2 /\ job_thread jb1 <> job_thread jb2;
  inv_count : _done_count (shared c) = downloaded_count (ranges (shared c));
  inv_files : forall idx meta,
    dict_get (ranges (shared c)) idx = Ok meta -> downloaded meta = true ->
    exists data,
      files (shared c) !! part_path tmp_dir filename split_count idx = Some data
      /\ isclose fl (len data) (bytes meta) = true;
  inv_left :
    pos c = Left ->
    stop (shared c) = true
    \/ Z.of_nat (length (ranges (shared c))) <= _done_count (shared c)
}.

(** What one visit of the dispatch loop does to the chunk [idx]. *)
Inductive dispatch_effect (fl : Q -> Q) (tmp_dir filename : string)
    (split_count : Z) (idx : string) (s s' : state) : verdict -> Prop :=
  | effect_break :
      s' = set_stop true s ->
      dispatch_effect fl tmp_dir filename split_count idx s s' Break
  | effect_skip :
      s' = s -> dispatch_effect fl tmp_dir filename split_count idx s s' Skip
  | effect_resumed (meta : chunk) (existing : pybytes) :
      dict_get (ranges s) idx = Ok meta ->
      inUse meta = false -> downloaded meta = false ->
      files s !! part_path tmp_dir filename split_count idx = Some existing ->
      isclose fl (len existing) (bytes meta) = true ->
      files s' = files s ->
      ranges s' = dict_alter (set_downloaded true) (ranges s) idx ->
      _done_count s' = _done_count s + 1 ->
      url_locks s' = url_locks s ->
      stop s' = stop s ->
      dispatch_effect fl tmp_dir filename split_count idx s s' Resumed
  | effect_spawn (meta : chunk) (thread_index : nat) :
      dict_get (ranges s) idx = Ok meta ->
      inUse meta = false -> downloaded meta = false ->
      (files s' = files s
       \/ files s'
          = delete (part_path tmp_dir filename split_count idx) (files s)) ->
      ranges s' = dict_alter (set_inUse true) (ranges s) idx ->
      _done_count s' = _done_count s ->
      url_locks s !! thread_index = Some false ->
      url_locks s' = acquire thread_index (url_locks s) ->
      stop s' = stop s ->
      dispatch_effect fl tmp_dir filename split_count idx s s'
        (Spawn thread_index)
  | effect_no_slot (meta : chunk) :
      dict_get (ranges s) idx = Ok meta ->
      inUse meta = false -> downloaded meta = false ->
      (files s' = files s
       \/ files s'
          = delete (part_path tmp_dir filename split_count idx) (files s)) ->
      ranges s' = ranges s ->
      _done_count s' = _done_count s ->
      url_locks s' = url_locks s ->
      stop s' = stop s ->
      dispatch_effect fl tmp_dir filename split_count idx s s' NoSlot.

(** The split sizes of the attempts that a log records, in order. *)
Definition attempt_sizes (log : list event) : list Z :=
  omap (fun e => match e with EvAttempt b => Some b | _ => None end) log.

(** The downloader with the cancellation flag put to [b]. *)
Definition flagged (b : bool) (d : downloader) : downloader :=
  with_attempt (set_stop_event b (attempt d)) d.

(** A proxy as the cache file can hold it: not empty, with no line
    break in it. *)
Definition proxy_line (s : string) : Prop :=
  s <> EmptyString
  /\ Forall (fun c => Proxy.is_break c = false) (list_ascii_of_string s).

(** A chunk of three bytes, handed to the worker of slot 0, with one
    proxy that is free. *)
Definition three_bytes : chunk :=
  {| inUse := false; downloaded := false; range := (0, 2); bytes := 3 |}.

Definition worker_state : state :=
  set_ranges [("0", set_inUse true three_bytes)]
    (set_url_locks [true] (set_proxy_locks [false] idle_state)).

(** The same chunk before it is handed out, with a part file on disk. *)
Definition part_state (existing : pybytes) : state :=
  set_files {[part_path "tmp" "movie.mp4" 1 "0" := existing]}
    (set_ranges [("0", three_bytes)] (set_url_locks [false] idle_state)).

(** The attempt [two_chunk_start] when the coordinating thread has
    started the worker of chunk ["0"] on slot 0 and this worker, with
    proxy 0, has received one byte of its three. *)
Definition short_read : state :=
  fst (receive [Block [Byte.x2a] false] []
         (take_proxy 0
            (shared (fst (run Py.b64 "tmp" "movie.mp4" 2 [MainStep; MainStep]
                            two_chunk_start))))).

(** A run in which the only chunk of a file of 100 bytes arrives. *)
Definition plain_run : list action :=
  [MainStep; MainStep; Work 0 [] [Block hundred_bytes false];
   MainStep; MainStep].

(** A world in which [ffmpeg] is installed and finds every output
    corrupted. *)
Definition corrupt_world : world :=
  {| get_working_proxies := [None];
     get_name := fun _ => Ok "movie.mp4";
     generate_download_urls := fun _ _ _ => Ok ["https://host/u1"];
     unlink_ok := true;
     content_length := fun _ => Some 100;
     which_ffmpeg := true;
     _check_media := fun _ => false;
     path_suffix := fun _ => ".mp4";
     path_suffixes := fun _ => [".mp4"] |}.

(** A downloader that has loaded its proxy list: the direct connection
    alone. *)
Definition ready_downloader : downloader :=
  {| tmp_dir := "tmp"; proxies := [None]; url_cache := None;
     attempt := set_proxy_locks [false] idle_state |}.

(** Two known proxies, the first of which is busy. *)
Definition first_busy : state :=
  set_working [0; 1]%nat (set_proxy_locks [true; false] idle_state).

(** A cache file of two proxies, of which the check lets one pass. *)
Definition sample_net : Proxy.net :=
  {| Proxy.proxies_txt := Some ("1.1.1.1:80" ++ String "010" "2.2.2.2:80");
     Proxy.remote_text := Raise RuntimeError;
     Proxy.passes := String.eqb "1.1.1.1:80";
     Proxy.set_order := fun l => l |}.

(** The cache file that a check of [sample_net] leaves behind. *)
Definition checked_net : Proxy.net :=
  {| Proxy.proxies_txt := Some "1.1.1.1:80";
     Proxy.remote_text := Raise RuntimeError;
     Proxy.passes := fun _ => false;
     Proxy.set_order := fun l => l |}.

(** The link service answers with a key, then with two URLs in two
    rounds. *)
Definition sample_script : K2sClient.script :=
  {| K2sClient.captchas := [Ok tt];
     K2sClient.links := [K2sClient.Answer false EmptyString None (Some "key")];
     K2sClient.rounds :=
       [[Some "https://host/u1"; None]; [Some "https://host/u2"]] |}.

(** No proxy answers. *)
Definition silent_script : K2sClient.script :=
  {| K2sClient.captchas := [Ok tt];
     K2sClient.links := [K2sClient.NoAnswer; K2sClient.NoAnswer];
     K2sClient.rounds := [] |}.

(** * Properties *)

(** ** The planner on small inputs *)

Example build_ranges_100_4 :
  ranges_of (_build_ranges Py.b64 100 4)
  = [("0", (0, 25, 26)); ("1", (26, 50, 25)); ("2", (51, 75, 25)); ("3", (76, 100, 25))].
Proof. vm_compute. reflexivity. Qed.

Example build_ranges_5_2 :
  ranges_of (_build_ranges Py.b64 5 2) = [("0", (0, 2, 3)); ("1", (4, 5, 2))].
Proof. vm_compute. reflexivity. Qed.

Example build_ranges_7_2 :
  ranges_of (_build_ranges Py.b64 7 2) = [("0", (0, 4, 5)); ("1", (4, 7, 4))].
Proof. vm_compute. reflexivity. Qed.

(** ** Rounding to the nearest integer *)

Lemma rhe_div_spec (n d : Z) :
  0 < d ->
  let r := Py.rhe_div n d in
  (2 * r - 1) * d <= 2 * n <= (2 * r + 1) * d
  /\ (2 * n = (2 * r + 1) * d -> Z.even r = true)
  /\ (2 * n = (2 * r - 1) * d -> Z.even r = true).
Proof.
  intros Hd. unfold Py.rhe_div.
  pose proof (Z.div_mod (2 * n + d) (2 * d) ltac:(lia)) as Hdm.
  pose proof (Z.mod_pos_bound (2 * n + d) (2 * d) ltac:(lia)) as Hm.
  set (f := (2 * n + d) / (2 * d)) in *.
  set (m := (2 * n + d) mod (2 * d)) in *.
  destruct (m =? 0) eqn:Em; simpl.
  - apply Z.eqb_eq in Em.
    destruct (Z.odd f) eqn:Eo.
    + assert (Z.even (f - 1) = true).
      { rewrite Z.even_sub. rewrite <- Z.negb_odd, Eo. reflexivity. }
      repeat split; try nia. intros; assumption.
    + repeat split; try nia. intros _.
      rewrite <- Z.negb_odd, Eo. reflexivity.
  - apply Z.eqb_neq in Em. repeat split; nia.
Qed.

Lemma rhe_div_mono (n1 d1 n2 d2 : Z) :
  0 < d1 -> 0 < d2 -> n1 * d2 <= n2 * d1 ->
  Py.rhe_div n1 d1 <= Py.rhe_div n2 d2.
Proof.
  intros H1 H2 Hle.
  destruct (rhe_div_spec n1 d1 H1) as ([Hl1 Hu1] & Hup1 & Hdn1).
  destruct (rhe_div_spec n2 d2 H2) as ([Hl2 Hu2] & Hup2 & Hdn2).
  set (r1 := Py.rhe_div n1 d1) in *. set (r2 := Py.rhe_div n2 d2) in *.
  destruct (Z_le_gt_dec r1 r2) as [|Hgt]; [assumption|exfalso].
  assert (Ha : (2 * r1 - 1) * (d1 * d2) <= 2 * n1 * d2) by nia.
  assert (Hb : 2 * n2 * d1 <= (2 * r2 + 1) * (d1 * d2)) by nia.
  assert (Hc : 0 < d1 * d2) by nia.
  assert (Hr : r1 = r2 + 1) by nia.
  assert (He1 : 2 * n1 = (2 * r1 - 1) * d1) by nia.
  assert (He2 : 2 * n2 = (2 * r2 + 1) * d2) by nia.
  specialize (Hdn1 He1). specialize (Hup2 He2).
  rewrite Hr, Z.even_add in Hdn1. rewrite Hup2 in Hdn1. discriminate.
Qed.

Lemma round_half_even_mono (x y : Q) :
  (x <= y)%Q -> Py.round_half_even x <= Py.round_half_even y.
Proof.
  intros H. unfold Py.round_half_even.
  apply rhe_div_mono; try reflexivity. exact H.
Qed.

Lemma round_half_even_proper (x y : Q) :
  (x == y)%Q -> Py.round_half_even x = Py.round_half_even y.
Proof.
  intros H. apply Z.le_antisymm; apply round_half_even_mono;
    rewrite H; apply Qle_refl.
Qed.

Lemma round_half_even_int (z : Z) : Py.round_half_even (inject_Z z) = z.
Proof.
  unfold Py.round_half_even. simpl.
  destruct (rhe_div_spec z 1 ltac:(lia)) as ([Hl Hu] & _ & _). lia.
Qed.

(** Away from a tie, adding one commutes with rounding. *)
Lemma rhe_div_succ (n d : Z) :
  0 < d -> (2 * n + d) mod (2 * d) <> 0 ->
  Py.rhe_div (n + d) d = Py.rhe_div n d + 1.
Proof.
  intros Hd Hm. unfold Py.rhe_div.
  replace (2 * (n + d) + d) with (2 * n + d + 1 * (2 * d)) by ring.
  rewrite Z.div_add, Z.mod_add by lia.
  apply Z.eqb_neq in Hm. rewrite Hm. reflexivity.
Qed.

(** ** Rounding to binary64 *)

Section Binary64.
Local Open Scope Q_scope.

(** The nearest integer is within one half. *)
Lemma round_half_even_near (x : Q) :
  inject_Z (Py.round_half_even x) - (1 # 2) <= x
  /\ x <= inject_Z (Py.round_half_even x) + (1 # 2).
Proof.
  unfold Py.round_half_even.
  destruct (rhe_div_spec (Qnum x) (Zpos (Qden x)) ltac:(lia))
    as ([Hl Hu] & _ & _).
  set (r := Py.rhe_div _ _) in *. destruct x as [n d]. simpl in *.
  unfold Qle, Qminus, Qplus, Qopp, inject_Z. simpl. split; lia.
Qed.

(** Powers of two with an integer exponent. *)
Lemma pow2_pos (e : Z) : 0 < 2 ^ e.
Proof. apply Qpower_0_lt. reflexivity. Qed.

Lemma pow2_add (a b : Z) : 2 ^ (a + b) == 2 ^ a * 2 ^ b.
Proof. apply Qpower_plus. discriminate. Qed.

Lemma pow2_cancel (e : Z) : 2 ^ (- e) * 2 ^ e == 1.
Proof. rewrite <- pow2_add. replace (- e + e)%Z with 0%Z by lia. reflexivity. Qed.

Lemma pow2_le (a b : Z) : (a <= b)%Z -> 2 ^ a <= 2 ^ b.
Proof. intros H. apply Qpower_le_compat_l; [exact H|discriminate]. Qed.

Lemma pow2_lt_inv (a b : Z) : 2 ^ a < 2 ^ b -> (a < b)%Z.
Proof. intros H. apply (Qpower_lt_compat_l_inv 2); [exact H|reflexivity]. Qed.

Lemma pow2_le_inv (a b : Z) : 2 ^ a <= 2 ^ b -> (a <= b)%Z.
Proof. intros H. apply (Qpower_le_compat_l_inv 2); [exact H|reflexivity]. Qed.

Lemma pow2_inject (n : Z) : (0 <= n)%Z -> inject_Z (2 ^ n) == 2 ^ n.
Proof. intros H. apply (Zpower_Qpower 2 n H). Qed.

Lemma pow2_succ (e : Z) : 2 ^ (e + 1) == 2 * 2 ^ e.
Proof. rewrite pow2_add. change (2 ^ 1) with 2. ring. Qed.

Lemma pow2_pred (e : Z) : 2 * 2 ^ (e - 1) == 2 ^ e.
Proof.
  rewrite <- pow2_succ. replace (e - 1 + 1)%Z with e by lia. reflexivity.
Qed.

(** [Z.log2] brackets a positive integer between two powers of two,
    and so does the difference of two logarithms for a quotient. *)
Lemma log2_window (z : Z) :
  (0 < z)%Z -> 2 ^ Z.log2 z <= inject_Z z /\ inject_Z z < 2 * 2 ^ Z.log2 z.
Proof.
  intros Hz. destruct (Z.log2_spec z Hz) as [Hl Hu].
  pose proof (Z.log2_nonneg z) as Hn.
  rewrite <- pow2_succ, <- !pow2_inject by lia.
  rewrite <- Zle_Qle, <- Zlt_Qlt. split; [exact Hl|exact Hu].
Qed.

Lemma quotient_window (x : Q) :
  0 < x ->
  let k := (Z.log2 (Qnum x) - Z.log2 (Zpos (Qden x)))%Z in
  2 ^ k < 2 * x /\ x < 2 * 2 ^ k.
Proof.
  intros Hx k.
  assert (Hn : (0 < Qnum x)%Z).
  { destruct x as [n d]. unfold Qlt in Hx. simpl in *. lia. }
  destruct (log2_window (Qnum x) Hn) as [Hal Hau].
  destruct (log2_window (Zpos (Qden x)) ltac:(lia)) as [Hbl Hbu].
  assert (HU : 2 ^ Z.log2 (Qnum x) == 2 ^ k * 2 ^ Z.log2 (Zpos (Qden x))).
  { rewrite <- pow2_add. unfold k.
    replace (Z.log2 (Qnum x) - Z.log2 (Z.pos (Qden x))
             + Z.log2 (Z.pos (Qden x)))%Z
      with (Z.log2 (Qnum x)) by lia. reflexivity. }
  pose proof (pow2_pos k) as HK.
  pose proof (pow2_pos (Z.log2 (Zpos (Qden x)))) as HV.
  assert (Hx' : x * inject_Z (Zpos (Qden x)) == inject_Z (Qnum x)).
  { destruct x as [n d]. unfold Qeq, Qmult, inject_Z. simpl. lia. }
  set (A := inject_Z (Qnum x)) in *. set (B := inject_Z (Zpos (Qden x))) in *.
  set (U := 2 ^ Z.log2 (Qnum x)) in *. set (V := 2 ^ Z.log2 (Zpos (Qden x))) in *.
  set (K := 2 ^ k) in *.
  assert (HB : 0 < B) by lra.
  split.
  - apply (Qmult_lt_r _ _ B HB). nra.
  - apply (Qmult_lt_r _ _ B HB). nra.
Qed.

Lemma pow2_scale (x y : Q) (e : Z) : x * 2 ^ (- e) <= y <-> x <= y * 2 ^ e.
Proof.
  pose proof (pow2_pos e) as He. pose proof (pow2_cancel e) as Hc.
  rewrite <- (Qmult_le_r _ _ _ He).
  assert (H : x * 2 ^ (- e) * 2 ^ e == x).
  { rewrite <- Qmult_assoc, Hc. ring. }
  rewrite H. reflexivity.
Qed.

Lemma pow2_scale_ge (x y : Q) (e : Z) : y <= x * 2 ^ (- e) <-> y * 2 ^ e <= x.
Proof.
  pose proof (pow2_pos e) as He. pose proof (pow2_cancel e) as Hc.
  rewrite <- (Qmult_le_r _ (x * 2 ^ (- e)) _ He).
  assert (H : x * 2 ^ (- e) * 2 ^ e == x).
  { rewrite <- Qmult_assoc, Hc. ring. }
  rewrite H. reflexivity.
Qed.

(** The exponent puts the scaled number in [[2^52, 2^53)], unless the
    least exponent was reached first. *)
Lemma exponent_spec (x : Q) :
  0 < x ->
  exists e1 : Z, Py.exponent x = Z.max e1 (-1074)
    /\ 2 ^ 52 * 2 ^ e1 <= x /\ x < 2 ^ 53 * 2 ^ e1.
Proof.
  intros Hx. destruct (quotient_window x Hx) as [Hl Hu].
  unfold Py.exponent.
  set (k := (Z.log2 (Qnum x) - Z.log2 (Zpos (Qden x)))%Z) in *.
  set (e0 := (k - 52)%Z).
  assert (Hk : 2 ^ k == 2 ^ 52 * 2 ^ e0).
  { rewrite <- pow2_add. replace (52 + e0)%Z with k by (unfold e0; lia).
    reflexivity. }
  pose proof (pow2_pred e0) as Hp.
  pose proof (pow2_pos e0) as H0. pose proof (pow2_pos (e0 - 1)) as H1.
  destruct (Qle_bool (2 ^ 52) (x * 2 ^ (- e0))) eqn:E.
  - exists e0. split; [reflexivity|].
    apply Qle_bool_iff, pow2_scale_ge in E. split; [exact E|]. lra.
  - exists (e0 - 1)%Z. split; [reflexivity|].
    assert (E' : x < 2 ^ 52 * 2 ^ e0).
    { apply Qnot_le_lt. intros H. apply pow2_scale_ge, Qle_bool_iff in H.
      congruence. }
    split; lra.
Qed.

Lemma least_half : 2 ^ (-1074) == 2 * Py.half_least.
Proof. vm_compute. reflexivity. Qed.

(** Half a unit in the last place, relative in the normal range and
    absolute in the subnormal one. *)
Lemma nearest_error (x : Q) :
  0 < x -> Qabs (Py.nearest x - x) <= x * Py.unit_roundoff + Py.half_least.
Proof.
  intros Hx. destruct (exponent_spec x Hx) as (e1 & He & Hl & Hu).
  unfold Py.nearest. set (e := Py.exponent x) in *.
  destruct (round_half_even_near (x * 2 ^ (- e))) as [Hn1 Hn2].
  set (m := inject_Z (Py.round_half_even (x * 2 ^ (- e)))) in *.
  pose proof (pow2_pos e) as HP.
  apply pow2_scale_ge in Hn1. apply pow2_scale in Hn2.
  assert (Hhalf : 2 ^ e <= 2 * (x * Py.unit_roundoff + Py.half_least)).
  { assert (H0 : 0 < Py.half_least) by reflexivity.
    unfold Py.unit_roundoff.
    destruct (Z.max_spec e1 (-1074)) as [[_ Hm]|[_ Hm]];
      rewrite Hm in He; rewrite He in *.
    - rewrite least_half. lra.
    - lra. }
  apply Qabs_Qle_condition. split; lra.
Qed.

Lemma nearest_nonneg (x : Q) : 0 < x -> 0 <= Py.nearest x.
Proof.
  intros Hx. unfold Py.nearest.
  apply Qmult_le_0_compat; [|apply Qlt_le_weak, pow2_pos].
  change 0 with (inject_Z 0). rewrite <- Zle_Qle.
  rewrite <- (round_half_even_int 0). apply round_half_even_mono.
  apply Qmult_le_0_compat; [lra|apply Qlt_le_weak, pow2_pos].
Qed.

(** A number whose scaled value is whole is a float. *)
Lemma nearest_whole (x : Q) (k : Z) :
  x * 2 ^ (- Py.exponent x) == inject_Z k -> Py.nearest x == x.
Proof.
  intros H. unfold Py.nearest.
  rewrite (round_half_even_proper _ _ H), round_half_even_int, <- H.
  rewrite <- Qmult_assoc, pow2_cancel. ring.
Qed.

Lemma nearest_int (z : Z) :
  (0 < z <= 2 ^ 53)%Z -> Py.nearest (inject_Z z) == inject_Z z.
Proof.
  intros [Hz0 Hz].
  assert (Hx : 0 < inject_Z z).
  { change 0 with (inject_Z 0). now rewrite <- Zlt_Qlt. }
  destruct (exponent_spec _ Hx) as (e1 & He & Hl & _).
  assert (Hq : inject_Z z <= 2 ^ 53).
  { rewrite <- pow2_inject by lia. now rewrite <- Zle_Qle. }
  assert (He1 : (e1 <= 1)%Z).
  { apply pow2_le_inv. change (2 ^ 1) with 2. lra. }
  destruct (Z_le_gt_dec (Py.exponent (inject_Z z)) 0) as [Hle|Hgt].
  - apply (nearest_whole _ (z * 2 ^ (- Py.exponent (inject_Z z)))).
    rewrite inject_Z_mult, pow2_inject by lia. reflexivity.
  - assert (E : Py.exponent (inject_Z z) = 1%Z) by lia.
    assert (e1 = 1%Z) by lia. subst e1.
    assert (Hz' : z = (2 ^ 53)%Z).
    { apply Z.le_antisymm; [exact Hz|]. rewrite Zle_Qle.
      rewrite pow2_inject by lia. change (2 ^ 1) with 2 in Hl. lra. }
    apply (nearest_whole _ (2 ^ 52)). rewrite E, Hz'. reflexivity.
Qed.

Lemma nearest_le (x y : Q) : 0 < x -> x <= y -> Py.nearest x <= Py.nearest y.
Proof.
  intros Hx Hxy. assert (Hy : 0 < y) by lra.
  destruct (exponent_spec x Hx) as (a & Hea & Hla & Hua).
  destruct (exponent_spec y Hy) as (b & Heb & Hlb & Hub).
  assert (Hab : (a <= b)%Z).
  { assert (H : 2 ^ a < 2 ^ (b + 1)) by (rewrite pow2_succ; lra).
    apply pow2_lt_inv in H. lia. }
  unfold Py.nearest.
  set (ex := Py.exponent x) in *. set (ey := Py.exponent y) in *.
  pose proof (pow2_pos ex) as Hpx. pose proof (pow2_pos ey) as Hpy.
  destruct (Z.eq_dec ex ey) as [E|E].
  - rewrite <- E. apply Qmult_le_compat_r; [|lra].
    rewrite <- Zle_Qle. apply round_half_even_mono.
    apply Qmult_le_compat_r; [exact Hxy|apply Qlt_le_weak, pow2_pos].
  - assert (Hlt : (ex + 1 <= ey)%Z) by lia.
    assert (Hb : ey = b) by lia.
    assert (H1 : inject_Z (Py.round_half_even (x * 2 ^ (- ex))) <= 2 ^ 53).
    { rewrite <- (pow2_inject 53) by lia. rewrite <- Zle_Qle.
      rewrite <- (round_half_even_int (2 ^ 53)).
      apply round_half_even_mono. apply pow2_scale.
      rewrite pow2_inject by lia.
      pose proof (pow2_le a ex ltac:(lia)). lra. }
    assert (H2 : 2 ^ 52 <= inject_Z (Py.round_half_even (y * 2 ^ (- ey)))).
    { rewrite <- (pow2_inject 52) by lia. rewrite <- Zle_Qle.
      rewrite <- (round_half_even_int (2 ^ 52)) at 1.
      apply round_half_even_mono. apply pow2_scale_ge.
      rewrite pow2_inject by lia. rewrite Hb. exact Hlb. }
    pose proof (pow2_le (ex + 1) ey Hlt) as Hs. rewrite pow2_succ in Hs.
    apply Qle_trans with (2 ^ 53 * 2 ^ ex).
    + apply Qmult_le_compat_r; [exact H1|lra].
    + apply Qle_trans with (2 ^ 52 * 2 ^ ey); [lra|].
      apply Qmult_le_compat_r; [exact H2|lra].
Qed.

(** The binary64 rounding has the three laws. *)
Lemma b64_Rounding : Py.Rounding Py.b64.
Proof.
  assert (Hpos : forall p d, 0 < Zpos p # d) by reflexivity.
  split.
  - intros [[|p|p] d] [[|q|q] e] H; cbv beta iota delta [Py.b64 Qnum];
      try (exfalso; revert H; unfold Qle; simpl; lia);
      try apply Qle_refl.
    + apply nearest_nonneg, Hpos.
    + apply nearest_le; [apply Hpos|exact H].
    + change (- (Z.neg p # d)) with (Zpos p # d).
      pose proof (nearest_nonneg _ (Hpos p d)). lra.
    + change (- (Z.neg p # d)) with (Zpos p # d).
      pose proof (nearest_nonneg _ (Hpos p d)).
      pose proof (nearest_nonneg _ (Hpos q e)). lra.
    + apply Qopp_le_compat. apply nearest_le; [apply Hpos|].
      apply Qopp_le_compat in H. exact H.
  - intros [|p|p] Hz; cbv beta iota delta [Py.b64 Qnum inject_Z].
    + reflexivity.
    + apply (nearest_int (Zpos p)). lia.
    + change (- (Z.neg p # 1)) with (inject_Z (Zpos p)).
      rewrite nearest_int by lia. reflexivity.
  - intros [[|p|p] d]; cbv beta iota delta [Py.b64 Qnum].
    + assert (H : 0 - (0 # d) == 0) by reflexivity.
      rewrite H. simpl. unfold Py.unit_roundoff, Py.half_least.
      unfold Qle. simpl. lia.
    + rewrite (Qabs_pos (Zpos p # d)) by (apply Qlt_le_weak, Hpos).
      apply nearest_error, Hpos.
    + change (- (Z.neg p # d)) with (Zpos p # d).
      change (Qabs (Z.neg p # d)) with (Zpos p # d).
      assert (H : - Py.nearest (Z.pos p # d) - (Z.neg p # d)
                  == - (Py.nearest (Z.pos p # d) - (Z.pos p # d))).
      { change (Z.neg p # d) with (- (Zpos p # d)). ring. }
      rewrite H, Qabs_opp. apply nearest_error, Hpos.
Qed.

End Binary64.

(** ** Decimal text and ordered dicts *)

Lemma str_inj (a b : Z) : Py.str a = Py.str b -> a = b.
Proof.
  unfold Py.str. intros H.
  assert (Hn : forall z, Z.to_int z <> Decimal.Pos Decimal.Nil
                         /\ Z.to_int z <> Decimal.Neg Decimal.Nil).
  { intros [|p|p]; simpl; split; try discriminate;
      intros [= Hp]; exact (DecimalPos.Unsigned.to_uint_nonnil p Hp). }
  apply DecimalZ.to_int_inj.
  assert (Some (Z.to_int a) = Some (Z.to_int b)) as [= ->]; [|reflexivity].
  rewrite <- (NilZero.isi (Z.to_int a)), <- (NilZero.isi (Z.to_int b));
    try apply Hn.
  now rewrite H.
Qed.

Lemma dict_set_fresh {V} (d : list (string * V)) (k : string) (v : V) :
  k ∉ map fst d -> dict_set d k v = (d ++ [(k, v)])%list.
Proof.
  induction d as [|[k' v'] d IH]; simpl; intros Hk; [reflexivity|].
  destruct (String.eqb_spec k' k) as [->|Hne].
  - exfalso. apply Hk. left.
  - rewrite IH; [reflexivity|]. intros Hin. apply Hk. now right.
Qed.

Lemma dict_get_head {V} (d : list (string * V)) (k : string) (v : V) :
  dict_get ((k, v) :: d) k = Ok v.
Proof. simpl. now rewrite String.eqb_refl. Qed.

Lemma dict_set_head {V} (d : list (string * V)) (k : string) (v v' : V) :
  dict_set ((k, v) :: d) k v' = (k, v') :: d.
Proof. simpl. now rewrite String.eqb_refl. Qed.

Section RangeFacts.
Variable fl : Q -> Q.
Variables total_value split_count : Z.

Let entry (i : nat) : string * chunk :=
  (Py.str (Z.of_nat i), new_chunk fl total_value split_count (Z.of_nat i)).

Let body (acc : res (list (string * chunk))) (i : nat)
  : res (list (string * chunk)) :=
  d ← acc;
  if overflows fl total_value split_count (Z.of_nat i)
  then Raise OverflowError
  else Ok (dict_set d (Py.str (Z.of_nat i))
             (new_chunk fl total_value split_count (Z.of_nat i))).

Lemma build_loop_raised (l : list nat) (e : exn) :
  fold_left body l (Raise e) = Raise e.
Proof. induction l as [|i l IH]; [reflexivity|exact IH]. Qed.

(** The loop gives the table entry by entry, unless an iteration
    overflows. *)
Lemma build_loop_cases :
  build_loop fl total_value split_count
  = if forallb
         (fun i => negb (overflows fl total_value split_count (Z.of_nat i)))
         (seq 0 (Z.to_nat split_count))
    then Ok (map entry (seq 0 (Z.to_nat split_count)))
    else Raise OverflowError.
Proof.
  unfold build_loop. fold body.
  generalize (Z.to_nat split_count) as n.
  assert (H : forall n a,
    fold_left body (seq a n) (Ok (map entry (seq 0 a)))
    = if forallb
           (fun i => negb (overflows fl total_value split_count (Z.of_nat i)))
           (seq a n)
      then Ok (map entry (seq 0 (a + n)))
      else Raise OverflowError).
  { induction n as [|n IH]; intros a; cbn [seq fold_left forallb].
    - now rewrite Nat.add_0_r.
    - unfold body at 2. cbn [mbind res_bind].
      destruct (overflows fl total_value split_count (Z.of_nat a));
        cbn [negb andb]; [apply build_loop_raised|].
      rewrite dict_set_fresh.
      + replace (map entry (seq 0 a) ++ [_])%list
          with (map entry (seq 0 (S a))).
        * rewrite IH. replace (S a + n)%nat with (a + S n)%nat by lia.
          reflexivity.
        * rewrite seq_S, map_app. reflexivity.
      + rewrite map_map. simpl. intros Hin.
        apply list_elem_of_In, in_map_iff in Hin as (j & Hj & Hin).
        apply str_inj in Hj. apply in_seq in Hin. lia. }
  intros n. apply (H n 0%nat).
Qed.

Lemma build_loop_map :
  (forall i, 0 <= i < split_count ->
     overflows fl total_value split_count i = false) ->
  build_loop fl total_value split_count
  = Ok (map entry (seq 0 (Z.to_nat split_count))).
Proof.
  intros Hfin. rewrite build_loop_cases.
  assert (E : forallb
                (fun i => negb (overflows fl total_value split_count (Z.of_nat i)))
                (seq 0 (Z.to_nat split_count)) = true).
  { apply forallb_forall. intros i Hi. apply in_seq in Hi.
    rewrite Hfin by lia. reflexivity. }
  now rewrite E.
Qed.

End RangeFacts.

Section RoundingFacts.
Variable fl : Q -> Q.
Hypothesis Hfl : Py.Rounding fl.

Lemma fl_proper (x y : Q) : (x == y)%Q -> (fl x == fl y)%Q.
Proof.
  intros H. apply Qle_antisym; apply (Py.fl_le fl Hfl);
    rewrite H; apply Qle_refl.
Qed.

#[local] Instance fl_Proper : Proper (Qeq ==> Qeq) fl.
Proof. intros x y. apply fl_proper. Qed.

Lemma fl_0 : (fl 0 == 0)%Q.
Proof. apply (Py.fl_int fl Hfl 0). simpl. lia. Qed.

Lemma fl_1 : (fl 1 == 1)%Q.
Proof. apply (Py.fl_int fl Hfl 1). simpl. lia. Qed.

Lemma fl_nonneg (x : Q) : (0 <= x)%Q -> (0 <= fl x)%Q.
Proof. intros H. rewrite <- fl_0. now apply (Py.fl_le fl Hfl). Qed.

Lemma fl_ge_1 (x : Q) : (1 <= x)%Q -> (1 <= fl x)%Q.
Proof. intros H. rewrite <- fl_1. now apply (Py.fl_le fl Hfl). Qed.

Lemma of_int_mono (a b : Z) : a <= b -> (Py.of_int fl a <= Py.of_int fl b)%Q.
Proof.
  intros H. apply (Py.fl_le fl Hfl). now rewrite <- Zle_Qle.
Qed.

Variables total_value split_count : Z.
Hypothesis Htotal : 0 <= total_value.
Hypothesis Hcount : 1 <= split_count.

Let D : Q := Py.fmul fl (Py.of_int fl split_count) 1.

Lemma divisor_pos : (0 < D)%Q.
Proof.
  apply Qlt_le_trans with 1%Q; [reflexivity|].
  unfold D, Py.fmul, Py.of_int. apply fl_ge_1.
  rewrite Qmult_1_r. apply fl_ge_1.
  change 1%Q with (inject_Z 1). now rewrite <- Zle_Qle.
Qed.

Lemma div_mono (a b : Q) : (a <= b)%Q -> (a / D <= b / D)%Q.
Proof.
  intros H. unfold Qdiv. apply Qmult_le_compat_r; [exact H|].
  apply Qinv_le_0_compat, Qlt_le_weak, divisor_pos.
Qed.

Lemma boundary_mono (i j : Z) :
  i <= j ->
  (boundary fl total_value split_count i
   <= boundary fl total_value split_count j)%Q.
Proof.
  intros H. unfold boundary, Py.fdiv. apply (Py.fl_le fl Hfl).
  apply div_mono, of_int_mono. nia.
Qed.

Lemma boundary_0 : (boundary fl total_value split_count 0 == 0)%Q.
Proof.
  unfold boundary, Py.fdiv, Py.of_int. simpl (0 * total_value).
  change (inject_Z 0) with 0%Q. rewrite fl_0.
  unfold Qdiv. rewrite Qmult_0_l. apply fl_0.
Qed.

Lemma range_start_mono (i j : Z) :
  i <= j ->
  range_start fl total_value split_count i
  <= range_start fl total_value split_count j.
Proof.
  intros H. unfold range_start, Py.fadd.
  apply round_half_even_mono, (Py.fl_le fl Hfl).
  apply Qplus_le_r. now apply boundary_mono.
Qed.

Lemma range_start_0 : range_start fl total_value split_count 0 = 1.
Proof.
  unfold range_start, Py.fadd, Py.of_int.
  rewrite <- (round_half_even_int 1) at 2.
  apply round_half_even_proper.
  change (inject_Z 1) with 1%Q.
  rewrite boundary_0, fl_1, Qplus_0_r. apply fl_1.
Qed.

Lemma range_end_0_nonneg : 0 <= range_end fl total_value split_count 0.
Proof.
  unfold range_end, Py.fsub, Py.fadd, Py.fdiv.
  rewrite <- (round_half_even_int 0) at 1.
  apply round_half_even_mono. change (inject_Z 0) with 0%Q.
  apply fl_nonneg.
  assert (H1 : (Py.of_int fl 1 == 1)%Q) by apply fl_1.
  unfold Qminus. apply (proj1 (Qle_minus_iff _ _)). rewrite H1. apply fl_ge_1.
  rewrite boundary_0, Qplus_0_r, fl_1.
  apply Qle_trans with (1 + 0)%Q;
    [rewrite Qplus_0_r; apply Qle_refl | apply Qplus_le_r].
  apply fl_nonneg. apply Qle_shift_div_l; [apply divisor_pos|].
  rewrite Qmult_0_l. rewrite <- fl_0. apply of_int_mono, Htotal.
Qed.

End RoundingFacts.

Section PlannerShape.
Variable fl : Q -> Q.
Hypothesis Hfl : Py.Rounding fl.
Variables total_value split_count : Z.
Hypothesis Htotal : 0 <= total_value.
Hypothesis Hcount : 1 <= split_count.

(** What [_build_ranges] makes of the table of the loop. *)
Lemma build_ranges_of_loop :
  build_loop fl total_value split_count
  = Ok (map (fun i => (Py.str (Z.of_nat i),
                       new_chunk fl total_value split_count (Z.of_nat i)))
          (seq 0 (Z.to_nat split_count))) ->
  _build_ranges fl total_value split_count
  = Ok (map (planned fl total_value split_count) (seq 0 (Z.to_nat split_count))).
Proof.
  intros Hloop. unfold _build_ranges. rewrite Hloop. cbn [mbind res_bind].
  destruct (Z.to_nat split_count) as [|m] eqn:Em; [lia|].
  cbn [seq map]. change (Py.str (Z.of_nat 0)) with "0".
  rewrite dict_get_head. cbn [mbind res_bind new_chunk range].
  change (Z.of_nat 0) with 0.
  rewrite (range_start_0 fl Hfl total_value split_count).
  pose proof (range_end_0_nonneg fl Hfl total_value split_count
                Htotal Hcount) as He.
  apply Z.leb_le in He. rewrite He. cbn [andb Z.leb].
  rewrite dict_set_head. f_equal. apply f_equal2.
  - unfold planned. change (Z.of_nat 0) with 0.
    rewrite (range_start_0 fl Hfl total_value split_count).
    change (Py.str 0) with "0". f_equal. f_equal.
    cbn [bytes new_chunk].
    rewrite (range_start_0 fl Hfl total_value split_count). lia.
  - apply map_ext_in. intros i Hi. apply in_seq in Hi.
    unfold planned, new_chunk; destruct i as [|i]; [lia|].
    f_equal. f_equal; lia.
Qed.

Lemma build_ranges_planned :
  (forall i, 0 <= i < split_count ->
     overflows fl total_value split_count i = false) ->
  _build_ranges fl total_value split_count
  = Ok (map (planned fl total_value split_count) (seq 0 (Z.to_nat split_count))).
Proof.
  intros Hfin. apply build_ranges_of_loop. now apply build_loop_map.
Qed.

(** The planner returns the planned table or raises [OverflowError]. *)
Lemma build_ranges_cases :
  _build_ranges fl total_value split_count
  = Ok (map (planned fl total_value split_count) (seq 0 (Z.to_nat split_count)))
  \/ _build_ranges fl total_value split_count = Raise OverflowError.
Proof.
  pose proof (build_loop_cases fl total_value split_count) as Hloop.
  destruct (forallb _ _).
  - left. now apply build_ranges_of_loop.
  - right. unfold _build_ranges. now rewrite Hloop.
Qed.

Lemma build_ranges_returns (table : list (string * chunk)) :
  _build_ranges fl total_value split_count = Ok table ->
  table
  = map (planned fl total_value split_count) (seq 0 (Z.to_nat split_count)).
Proof.
  intros H. destruct build_ranges_cases as [E|E]; rewrite E in H;
    [now injection H|discriminate].
Qed.

(** A rounded number is at most twice the bound of the exact one, and
    one more. *)
Lemma fl_upper (x M : Q) : (0 <= x)%Q -> (x <= M)%Q -> (fl x <= 2 * M + 1)%Q.
Proof.
  intros H0 HM. pose proof (Py.fl_err fl Hfl x) as He.
  rewrite (Qabs_pos x H0) in He.
  pose proof (Qle_Qabs (fl x - x)) as Ha.
  assert (Hu : (Py.unit_roundoff <= 1)%Q) by (vm_compute; discriminate).
  assert (Hh : (Py.half_least <= 1)%Q) by (vm_compute; discriminate).
  assert (Hxu : (x * Py.unit_roundoff <= x * 1)%Q).
  { rewrite !(Qmult_comm x). now apply Qmult_le_compat_r. }
  lra.
Qed.

(** No iteration overflows as long as [(total_value + 1) * split_count]
    is at most 2^1000. *)
Lemma no_overflow (i : Z) :
  (total_value + 1) * split_count <= 2 ^ 1000 ->
  0 <= i < split_count ->
  overflows fl total_value split_count i = false.
Proof.
  intros Hsize Hi.
  set (K := inject_Z ((total_value + 1) * split_count)).
  assert (HK1 : (1 <= K)%Q).
  { unfold K. change 1%Q with (inject_Z 1). rewrite <- Zle_Qle. nia. }
  assert (Hint : forall z, 0 <= z <= (total_value + 1) * split_count ->
            (0 <= Py.of_int fl z <= 2 * K + 1)%Q).
  { intros z Hz. unfold Py.of_int. split.
    - apply (fl_nonneg fl Hfl). change 0%Q with (inject_Z 0).
      rewrite <- Zle_Qle. lia.
    - apply fl_upper.
      + change 0%Q with (inject_Z 0). rewrite <- Zle_Qle. lia.
      + unfold K. rewrite <- Zle_Qle. lia. }
  assert (Hfinite : forall x, (0 <= x)%Q -> (x <= 48 * K + 73)%Q ->
            Py.finite x = true).
  { intros x H0 Hx. unfold Py.finite. apply negb_true_iff.
    destruct (Qle_bool (inject_Z (2 ^ 1024)) (Qabs x)) eqn:E; [|reflexivity].
    exfalso. apply Qle_bool_iff in E. rewrite (Qabs_pos x H0) in E.
    assert (HK : (K <= inject_Z (2 ^ 1000))%Q)
      by (unfold K; now rewrite <- Zle_Qle).
    assert (Hc : (48 * inject_Z (2 ^ 1000) + 73 < inject_Z (2 ^ 1024))%Q)
      by (vm_compute; reflexivity).
    lra. }
  pose proof (divisor_pos fl Hfl split_count Hcount) as Hd0.
  set (D := Py.fmul fl (Py.of_int fl split_count) 1) in *.
  assert (Hd1 : (1 <= D)%Q).
  { unfold D, Py.fmul, Py.of_int. apply (fl_ge_1 fl Hfl).
    rewrite Qmult_1_r. apply (fl_ge_1 fl Hfl).
    change 1%Q with (inject_Z 1). now rewrite <- Zle_Qle. }
  destruct (Hint split_count ltac:(nia)) as [Hs0 Hs1].
  destruct (Hint (i * total_value) ltac:(nia)) as [Hn0 Hn1].
  destruct (Hint total_value ltac:(nia)) as [Ht0 Ht1].
  assert (Hone : (Py.of_int fl 1 == 1)%Q) by apply (fl_1 fl Hfl).
  assert (Hquot : forall n, (0 <= n)%Q -> (n <= 2 * K + 1)%Q ->
            (0 <= Py.fdiv fl n D <= 4 * K + 3)%Q).
  { intros n H0 H1. unfold Py.fdiv.
    assert (Hq0 : (0 <= n / D)%Q).
    { apply Qle_shift_div_l; [exact Hd0|]. now rewrite Qmult_0_l. }
    assert (Hq1 : (n / D <= n)%Q).
    { apply Qle_shift_div_r; [exact Hd0|].
      rewrite <- (Qmult_1_r n) at 1.
      rewrite !(Qmult_comm n). apply Qmult_le_compat_r; assumption. }
    split; [now apply (fl_nonneg fl Hfl)|].
    apply Qle_trans with (2 * (2 * K + 1) + 1)%Q; [|lra].
    apply fl_upper; [exact Hq0|lra]. }
  assert (Hb : (0 <= boundary fl total_value split_count i <= 4 * K + 3)%Q)
    by exact (Hquot _ Hn0 Hn1).
  destruct Hb as [Hb0 Hb1].
  destruct (Hquot _ Ht0 Ht1) as [Hw0 Hw1].
  set (b := boundary fl total_value split_count i) in *.
  set (w := Py.fdiv fl (Py.of_int fl total_value) D) in *.
  assert (Hf : (0 <= Py.fadd fl (Py.of_int fl 1) b <= 8 * K + 9)%Q).
  { unfold Py.fadd. split.
    - apply (fl_nonneg fl Hfl). lra.
    - apply Qle_trans with (2 * (4 * K + 4) + 1)%Q; [|lra].
      apply fl_upper; lra. }
  set (f := Py.fadd fl (Py.of_int fl 1) b) in *.
  assert (Hf1 : (1 <= f)%Q).
  { unfold f, Py.fadd. apply (fl_ge_1 fl Hfl). lra. }
  assert (Hg : (1 <= Py.fadd fl f w <= 24 * K + 25)%Q).
  { unfold Py.fadd. split.
    - apply (fl_ge_1 fl Hfl). lra.
    - apply Qle_trans with (2 * (12 * K + 12) + 1)%Q; [|lra].
      apply fl_upper; lra. }
  set (g := Py.fadd fl f w) in *.
  assert (Hh : (0 <= Py.fsub fl g (Py.of_int fl 1) <= 48 * K + 51)%Q).
  { unfold Py.fsub. split.
    - apply (fl_nonneg fl Hfl). lra.
    - apply Qle_trans with (2 * (24 * K + 25) + 1)%Q; [|lra].
      apply fl_upper; lra. }
  assert (HD : (D <= 4 * K + 3)%Q).
  { unfold D, Py.fmul.
    apply Qle_trans with (2 * (2 * K + 1) + 1)%Q; [|lra].
    apply fl_upper; rewrite Qmult_1_r; lra. }
  assert (F1 : Py.finite (Py.of_int fl split_count) = true)
    by (apply Hfinite; lra).
  assert (F2 : Py.finite D = true) by (apply Hfinite; lra).
  assert (F3 : Py.finite (Py.of_int fl (i * total_value)) = true)
    by (apply Hfinite; lra).
  assert (F4 : Py.finite b = true) by (apply Hfinite; lra).
  assert (F5 : Py.finite f = true) by (apply Hfinite; lra).
  assert (F6 : Py.finite (Py.of_int fl total_value) = true)
    by (apply Hfinite; lra).
  assert (F7 : Py.finite w = true) by (apply Hfinite; lra).
  assert (F8 : Py.finite g = true) by (apply Hfinite; lra).
  assert (F9 : Py.finite (Py.fsub fl g (Py.of_int fl 1)) = true)
    by (apply Hfinite; lra).
  unfold overflows. apply negb_false_iff.
  change (floats_of fl total_value split_count i)
    with [Py.of_int fl split_count; D; Py.of_int fl (i * total_value); b; f;
          Py.of_int fl total_value; w; g; Py.fsub fl g (Py.of_int fl 1)].
  cbn [forallb]. now rewrite F1, F2, F3, F4, F5, F6, F7, F8, F9.
Qed.

Lemma build_ranges_small :
  (total_value + 3) * split_count <= 2 ^ 49 ->
  _build_ranges fl total_value split_count
  = Ok (map (planned fl total_value split_count) (seq 0 (Z.to_nat split_count))).
Proof.
  intros Hsize. apply build_ranges_planned. intros i Hi.
  apply no_overflow; [|exact Hi].
  apply Z.le_trans with (2 ^ 49); [nia|].
  apply Z.pow_le_mono_r; lia.
Qed.

End PlannerShape.

(** ** The range planner: shape of the table (C8) *)

(** The planner on 10^400 bytes: the size is too large for a float and
    [total_value / (split_count * 1.0)] raises. *)
Lemma build_ranges_overflow :
  _build_ranges Py.b64 (10 ^ 400) 1 = Raise OverflowError.
Proof. vm_compute. reflexivity. Qed.

(** C8, amended.  For a total size [>= 0] and a chunk count [>= 1],
    [_build_ranges] returns a table whenever
    [(total_size + 1) * chunk_count <= 2^1000], and raises nothing but
    [OverflowError] otherwise.  A table that it returns has exactly
    [chunk_count] ranges, keyed ["0"], ["1"], ... in this order; the
    starts never decrease along the table; every recorded byte count is
    [end - start + 1], also for the first range once its start is 0; and
    the first range starts at 0. *)
Theorem build_ranges_shape (fl : Q -> Q) (total_size chunk_count : Z) :
  Py.Rounding fl -> 0 <= total_size -> 1 <= chunk_count ->
  ((total_size + 1) * chunk_count <= 2 ^ 1000 ->
   exists table, _build_ranges fl total_size chunk_count = Ok table)
  /\ (forall e, _build_ranges fl total_size chunk_count = Raise e ->
        e = OverflowError)
  /\ (forall table,
        _build_ranges fl total_size chunk_count = Ok table ->
        length table = Z.to_nat chunk_count
        /\ map fst table
           = map (fun i => Py.str (Z.of_nat i)) (seq 0 (Z.to_nat chunk_count))
        /\ (forall i j ci cj, (i <= j)%nat ->
              table !! i = Some ci -> table !! j = Some cj ->
              chunk_start (snd ci) <= chunk_start (snd cj))
        /\ (forall i c, table !! i = Some c ->
              bytes (snd c) = chunk_end (snd c) - chunk_start (snd c) + 1)
        /\ (exists c, table !! 0%nat = Some c /\ chunk_start (snd c) = 0)).
Proof.
  intros Hfl Ht Hn. split; [|split].
  { intros Hsize. eexists.
    apply (build_ranges_planned fl Hfl total_size chunk_count Ht Hn).
    intros i Hi.
    now apply (no_overflow fl Hfl total_size chunk_count Ht Hn). }
  { intros e He.
    destruct (build_ranges_cases fl Hfl total_size chunk_count Ht Hn) as [E|E];
      rewrite E in He; [discriminate|now injection He]. }
  intros table Htable.
  apply (build_ranges_returns fl Hfl total_size chunk_count Ht Hn) in Htable.
  subst table.
  assert (Hlk : forall i c,
    map (planned fl total_size chunk_count) (seq 0 (Z.to_nat chunk_count)) !! i
    = Some c -> (i < Z.to_nat chunk_count)%nat
                /\ c = planned fl total_size chunk_count i).
  { intros i c H. rewrite list_lookup_fmap in H.
    destruct (seq 0 (Z.to_nat chunk_count) !! i) as [k|] eqn:E; [|discriminate].
    apply lookup_seq in E as [-> E]. injection H as <-. now split. }
  assert (Hs1 : forall i : nat,
    1 <= range_start fl total_size chunk_count (Z.of_nat i)).
  { intros i. rewrite <- (range_start_0 fl Hfl total_size chunk_count).
    apply (range_start_mono fl Hfl total_size chunk_count Ht Hn). lia. }
  split; [now rewrite length_map, length_seq|].
  split; [now rewrite map_map|].
  split; [|split].
  - intros i j ci cj Hij Hi Hj.
    apply Hlk in Hi as [_ ->]. apply Hlk in Hj as [_ ->].
    unfold chunk_start, planned. cbn.
    destruct i as [|i], j as [|j]; try lia.
    + specialize (Hs1 (S j)). lia.
    + apply (range_start_mono fl Hfl total_size chunk_count Ht Hn). lia.
  - intros i c Hi. apply Hlk in Hi as [_ ->].
    unfold chunk_start, chunk_end, planned. cbn.
    destruct i as [|i]; [|lia].
    change (Z.of_nat 0) with 0.
    rewrite (range_start_0 fl Hfl total_size chunk_count). lia.
  - exists (planned fl total_size chunk_count 0). split; [|reflexivity].
    destruct (Z.to_nat chunk_count) eqn:E; [lia|reflexivity].
Qed.

Lemma build_ranges_shape_witness :
  exists table,
    _build_ranges Py.b64 100 4 = Ok table
    /\ length table = 4%nat
    /\ map fst table = ["0"; "1"; "2"; "3"]
    /\ (forall i c, table !! i = Some c ->
          bytes (snd c) = chunk_end (snd c) - chunk_start (snd c) + 1)
    /\ (exists c, table !! 0%nat = Some c /\ chunk_start (snd c) = 0).
Proof.
  assert (H0 : 0 <= 100) by lia.
  assert (H1 : 1 <= 4) by lia.
  assert (Hsize : (100 + 1) * 4 <= 2 ^ 1000)
    by (apply Z.leb_le; vm_compute; reflexivity).
  destruct (build_ranges_shape Py.b64 100 4 b64_Rounding H0 H1)
    as (Hret & _ & Hshape).
  destruct (Hret Hsize) as [table Htable]. exists table.
  destruct (Hshape table Htable) as (Hlen & Hkeys & _ & Hbytes & Hfirst).
  split; [exact Htable|]. split; [exact Hlen|]. split; [exact Hkeys|].
  split; [exact Hbytes|exact Hfirst].
Defined.

(** ** The range planner: adjacency of the ranges (C2) *)

Lemma rhe_div_stable (N n : Z) (y : Q) :
  0 < n -> (2 * N + n) mod (2 * n) <> 0 ->
  ((N # Z.to_pos n) - (1 # Z.to_pos (2 * n)) < y)%Q ->
  (y < (N # Z.to_pos n) + (1 # Z.to_pos (2 * n)))%Q ->
  Py.round_half_even y = Py.rhe_div N n.
Proof.
  intros Hn Htie Hlo Hhi.
  destruct (rhe_div_spec N n Hn) as ([Hl Hu] & _ & _).
  destruct (rhe_div_spec (Qnum y) (Zpos (Qden y)) ltac:(lia)) as ([Hl' Hu'] & _ & _).
  fold (Py.round_half_even y) in *.
  set (r := Py.rhe_div N n) in *. set (r' := Py.round_half_even y) in *.
  assert (Hne1 : 2 * N <> (2 * r + 1) * n).
  { intros E. apply Htie. replace (2 * N + n) with ((r + 1) * (2 * n)) by lia.
    apply Z.mod_mul. lia. }
  assert (Hne2 : 2 * N <> (2 * r - 1) * n).
  { intros E. apply Htie. replace (2 * N + n) with (r * (2 * n)) by lia.
    apply Z.mod_mul. lia. }
  destruct y as [p d]. unfold Qlt, Qminus, Qplus, Qopp in Hlo, Hhi.
  cbn [Qnum Qden] in *.
  rewrite ?Pos2Z.inj_mul, ?Z2Pos.id in Hlo, Hhi by lia.
  assert (H1 : 2 * p < (2 * r + 1) * Zpos d) by nia.
  assert (H2 : (2 * r - 1) * Zpos d < 2 * p) by nia.
  nia.
Qed.

Lemma half_least_small : (Py.half_least <= Py.unit_roundoff)%Q.
Proof. apply Qle_bool_imp_le. vm_compute. reflexivity. Qed.

Section PlannerAdjacency.
Variable fl : Q -> Q.
Hypothesis Hfl : Py.Rounding fl.

Lemma fl_near (x M : Q) :
  (Qabs x <= M)%Q ->
  (fl x <= x + (M + 1) * Py.unit_roundoff)%Q
  /\ (x - (M + 1) * Py.unit_roundoff <= fl x)%Q.
Proof.
  intros HM. pose proof (Py.fl_err fl Hfl x) as H.
  apply Qabs_Qle_condition in H as [H1 H2].
  pose proof half_least_small as Hs.
  pose proof (Qabs_nonneg x) as H0.
  assert (Hm : (Qabs x * Py.unit_roundoff <= M * Py.unit_roundoff)%Q).
  { apply Qmult_le_compat_r; [exact HM|discriminate]. }
  split; lra.
Qed.

Lemma fl_near_pos (x : Q) :
  (0 <= x)%Q ->
  (fl x <= x + (x + 1) * Py.unit_roundoff)%Q
  /\ (x - (x + 1) * Py.unit_roundoff <= fl x)%Q.
Proof.
  intros H. apply fl_near. rewrite Qabs_pos by exact H. apply Qle_refl.
Qed.

(** The error of the two float expressions of [_build_ranges], for an
    exact boundary [q], an exact chunk length [h] and a bound [t]. *)
Lemma start_error (q t : Q) :
  (0 <= q)%Q -> (q <= t)%Q -> (t <= 562949953421312)%Q ->
  let s := fl (1 + fl q) in
  (s - (1 + q) <= 5 * (t + 3) * Py.unit_roundoff)%Q
  /\ ((1 + q) - s <= 5 * (t + 3) * Py.unit_roundoff)%Q.
Proof.
  intros Hq Hqt Ht s.
  destruct (fl_near_pos q Hq) as [Hb1 Hb2].
  assert (H1 : (0 <= 1 + fl q)%Q) by (unfold Py.unit_roundoff in *; lra).
  destruct (fl_near_pos _ H1) as [Hs1 Hs2]. fold s in Hs1, Hs2.
  unfold Py.unit_roundoff in *. split; lra.
Qed.

Lemma end_error (q h t : Q) :
  (0 <= q)%Q -> (0 <= h)%Q -> (q + h <= t)%Q -> (t <= 562949953421312)%Q ->
  let e := fl (fl (fl (1 + fl q) + fl h) - 1) in
  (e - (q + h) <= 5 * (t + 3) * Py.unit_roundoff)%Q
  /\ ((q + h) - e <= 5 * (t + 3) * Py.unit_roundoff)%Q.
Proof.
  intros Hq Hh Hqt Ht e.
  destruct (fl_near_pos q Hq) as [Hb1 Hb2].
  assert (H1 : (0 <= 1 + fl q)%Q) by (unfold Py.unit_roundoff in *; lra).
  destruct (fl_near_pos _ H1) as [Hs1 Hs2].
  destruct (fl_near_pos h Hh) as [Hw1 Hw2].
  set (s := fl (1 + fl q)) in *. set (w := fl h) in *.
  assert (H2 : (0 <= s + w)%Q) by (unfold Py.unit_roundoff in *; lra).
  destruct (fl_near_pos _ H2) as [Ha1 Ha2].
  set (a := fl (s + w)) in *.
  assert (H3 : (Qabs (a - 1) <= a + 1)%Q).
  { apply Qabs_Qle_condition. unfold Py.unit_roundoff in *. split; lra. }
  destruct (fl_near _ _ H3) as [He1 He2]. fold e in He1, He2.
  unfold Py.unit_roundoff in *. split; lra.
Qed.

End PlannerAdjacency.

Section PlannerValues.
Variable fl : Q -> Q.
Hypothesis Hfl : Py.Rounding fl.
Variable total_value : Z.
Variable count : positive.
Hypothesis Htotal : 0 <= total_value.
Hypothesis Hsize : (total_value + 3) * Zpos count <= 2 ^ 49.

#[local] Instance fl_Proper' : Proper (Qeq ==> Qeq) fl.
Proof. intros x y. apply (fl_proper fl Hfl). Qed.

#[local] Instance rhe_Proper : Proper (Qeq ==> eq) Py.round_half_even.
Proof. intros x y. apply round_half_even_proper. Qed.

Lemma tolerance :
  (5 * (inject_Z total_value + 3) * Py.unit_roundoff < 1 # (2 * count))%Q.
Proof.
  assert (E : (5 * (inject_Z total_value + 3) * Py.unit_roundoff
               == (5 * (total_value + 3)) # 9007199254740992)%Q).
  { unfold Py.unit_roundoff, Qeq, Qmult, Qplus, inject_Z. cbn. lia. }
  rewrite E. unfold Qlt. cbn [Qnum Qden]. lia.
Qed.

Lemma quotient_exact (i : Z) :
  0 <= i <= Zpos count ->
  (Py.fdiv fl (Py.of_int fl (i * total_value))
              (Py.fmul fl (Py.of_int fl (Zpos count)) 1)
   == fl ((i * total_value) # count))%Q.
Proof.
  intros Hi. unfold Py.fdiv, Py.fmul, Py.of_int.
  rewrite (Py.fl_int fl Hfl (i * total_value)) by nia.
  rewrite (Py.fl_int fl Hfl (Zpos count)) by nia.
  rewrite Qmult_1_r.
  rewrite (Py.fl_int fl Hfl (Zpos count)) by nia.
  now rewrite <- Qmake_Qdiv.
Qed.

Lemma fraction_bounds (i : Z) :
  0 <= i <= Zpos count ->
  (0 <= (i * total_value) # count)%Q
  /\ ((i * total_value) # count <= inject_Z total_value)%Q.
Proof.
  intros Hi. unfold Qle, inject_Z. cbn [Qnum Qden]. split; nia.
Qed.

Lemma range_start_value (i : Z) :
  0 <= i <= Zpos count ->
  (2 * (i * total_value) + Zpos count) mod (2 * Zpos count) <> 0 ->
  range_start fl total_value (Zpos count) i
  = Py.rhe_div (i * total_value) (Zpos count) + 1.
Proof.
  intros Hi Htie. unfold range_start, boundary, Py.fadd.
  rewrite (quotient_exact i Hi).
  assert (E1 : (Py.of_int fl 1 == 1)%Q) by apply (fl_1 fl Hfl).
  rewrite E1.
  destruct (fraction_bounds i Hi) as [Hq0 Hqt].
  destruct (start_error fl Hfl _ _ Hq0 Hqt) as [H1 H2].
  { change 562949953421312%Q with (inject_Z (2 ^ 49)).
    rewrite <- Zle_Qle. nia. }
  pose proof tolerance as Htol.
  rewrite <- rhe_div_succ by (lia || exact Htie).
  assert (E : (1 + ((i * total_value) # count)
               == (i * total_value + Zpos count) # count)%Q).
  { unfold Qeq, Qplus. cbn [Qnum Qden]. nia. }
  apply rhe_div_stable; try lia.
  - replace (2 * (i * total_value + Zpos count) + Zpos count)
      with (2 * (i * total_value) + Zpos count + 1 * (2 * Zpos count)) by ring.
    rewrite Z.mod_add by lia. exact Htie.
  - cbn [Z.to_pos Z.mul Pos.mul]. rewrite <- E.
    change (2 * Zpos count) with (Zpos (2 * count)). cbn [Z.to_pos]. lra.
  - cbn [Z.to_pos Z.mul Pos.mul]. rewrite <- E.
    change (2 * Zpos count) with (Zpos (2 * count)). cbn [Z.to_pos]. lra.
Qed.

Lemma range_end_value (i : Z) :
  0 <= i < Zpos count ->
  (2 * ((i + 1) * total_value) + Zpos count) mod (2 * Zpos count) <> 0 ->
  range_end fl total_value (Zpos count) i
  = Py.rhe_div ((i + 1) * total_value) (Zpos count).
Proof.
  intros Hi Htie. unfold range_end, boundary, Py.fadd, Py.fsub.
  rewrite (quotient_exact i) by lia.
  assert (E1 : (Py.of_int fl 1 == 1)%Q) by apply (fl_1 fl Hfl).
  rewrite E1.
  assert (Ew : (Py.fdiv fl (Py.of_int fl total_value)
                  (Py.fmul fl (Py.of_int fl (Zpos count)) 1)
                == fl (total_value # count))%Q).
  { rewrite <- (Z.mul_1_l total_value) at 1.
    rewrite (quotient_exact 1) by lia. now rewrite Z.mul_1_l. }
  rewrite Ew.
  destruct (fraction_bounds i ltac:(lia)) as [Hq0 _].
  destruct (fraction_bounds (i + 1) ltac:(lia)) as [_ Hqt].
  assert (Hh0 : (0 <= total_value # count)%Q).
  { unfold Qle. cbn [Qnum Qden]. lia. }
  assert (E : (((i * total_value) # count) + (total_value # count)
               == ((i + 1) * total_value) # count)%Q).
  { unfold Qeq, Qplus. cbn [Qnum Qden]. nia. }
  destruct (end_error fl Hfl _ _ (inject_Z total_value) Hq0 Hh0) as [H1 H2].
  { rewrite E. exact Hqt. }
  { change 562949953421312%Q with (inject_Z (2 ^ 49)).
    rewrite <- Zle_Qle. nia. }
  pose proof tolerance as Htol.
  apply rhe_div_stable; try lia; try exact Htie.
  - change (2 * Zpos count) with (Zpos (2 * count)). cbn [Z.to_pos].
    rewrite <- E. lra.
  - change (2 * Zpos count) with (Zpos (2 * count)). cbn [Z.to_pos].
    rewrite <- E. lra.
Qed.

Lemma rhe_div_whole (z : Z) : Py.rhe_div (Zpos count * z) (Zpos count) = z.
Proof.
  destruct (rhe_div_spec (Zpos count * z) (Zpos count) ltac:(lia))
    as ([Hl Hu] & _ & _). nia.
Qed.

Lemma last_range_end :
  range_end fl total_value (Zpos count) (Zpos count - 1) = total_value.
Proof.
  rewrite range_end_value; [|lia|];
    replace (Zpos count - 1 + 1) with (Zpos count) by ring.
  - apply rhe_div_whole.
  - replace (2 * (Zpos count * total_value) + Zpos count)
      with (Zpos count + total_value * (2 * Zpos count)) by ring.
    rewrite Z.mod_add by lia. rewrite Z.mod_small by lia. lia.
Qed.

End PlannerValues.

(** The planner on 5 bytes in 2 chunks gives ["0-2"] and ["4-5"]: byte 3
    is in no range and the last range ends at 5. *)
Lemma build_ranges_5_2_gap :
  exists table,
    _build_ranges Py.b64 5 2 = Ok table /\ ~ contiguous_cover 5 table.
Proof.
  eexists. split; [vm_compute; reflexivity|].
  intros (_ & Hadj & _).
  specialize (Hadj 0%nat _ _ eq_refl eq_refl). vm_compute in Hadj. discriminate.
Qed.

(** C2, amended.  For a total size [>= 0] and a chunk count [>= 1] with
    [(total_size + 3) * chunk_count <= 2^49], the table of
    [_build_ranges] starts at byte 0, its last range ends at
    [total_size] (one past the last byte), and a range starts one past
    the end of the range before it whenever the boundary between the two
    is not a tie. *)
Theorem build_ranges_adjacent (fl : Q -> Q) (total_size chunk_count : Z) :
  Py.Rounding fl -> 0 <= total_size -> 1 <= chunk_count ->
  (total_size + 3) * chunk_count <= 2 ^ 49 ->
  exists table,
    _build_ranges fl total_size chunk_count = Ok table
    /\ (exists c, table !! 0%nat = Some c /\ chunk_start (snd c) = 0)
    /\ (forall i a b, table !! i = Some a -> table !! S i = Some b ->
          ~ tie total_size chunk_count (Z.of_nat (S i)) ->
          chunk_start (snd b) = chunk_end (snd a) + 1)
    /\ (exists c, last table = Some c /\ chunk_end (snd c) = total_size).
Proof.
  intros Hfl Ht Hn Hsize.
  destruct chunk_count as [|count|count]; try lia.
  exists (map (planned fl total_size (Zpos count)) (seq 0 (Pos.to_nat count))).
  assert (Hlk : forall i c,
    map (planned fl total_size (Zpos count)) (seq 0 (Pos.to_nat count)) !! i
    = Some c -> (i < Pos.to_nat count)%nat
                /\ c = planned fl total_size (Zpos count) i).
  { intros i c H. rewrite list_lookup_fmap in H.
    destruct (seq 0 (Pos.to_nat count) !! i) as [k|] eqn:E; [|discriminate].
    apply lookup_seq in E as [-> E]. injection H as <-. now split. }
  split; [now apply build_ranges_small|].
  split; [|split].
  - exists (planned fl total_size (Zpos count) 0). split; [|reflexivity].
    destruct (Pos.to_nat count) eqn:E; [lia|reflexivity].
  - intros i a b Ha Hb Htie. unfold tie in Htie.
    apply Hlk in Ha as [_ ->]. apply Hlk in Hb as [Hi ->].
    unfold chunk_start, chunk_end, planned. cbn [snd fst range].
    rewrite (range_start_value fl Hfl total_size count Ht Hsize)
      by (lia || exact Htie).
    rewrite (range_end_value fl Hfl total_size count Ht Hsize).
    + do 2 f_equal. lia.
    + lia.
    + replace (Z.of_nat i + 1) with (Z.of_nat (S i)) by lia. exact Htie.
  - exists (planned fl total_size (Zpos count) (Pos.to_nat count - 1)). split.
    + rewrite last_lookup, length_map, length_seq, list_lookup_fmap.
      rewrite lookup_seq_lt by lia. cbn. do 2 f_equal. lia.
    + unfold chunk_end, planned. cbn [snd range].
      replace (Z.of_nat (Pos.to_nat count - 1)) with (Zpos count - 1) by lia.
      apply (last_range_end fl Hfl total_size count Ht Hsize).
Qed.

Lemma build_ranges_adjacent_witness :
  exists table,
    _build_ranges Py.b64 100 4 = Ok table
    /\ (exists c, table !! 0%nat = Some c /\ chunk_start (snd c) = 0)
    /\ (forall i a b, table !! i = Some a -> table !! S i = Some b ->
          ~ tie 100 4 (Z.of_nat (S i)) ->
          chunk_start (snd b) = chunk_end (snd a) + 1)
    /\ (exists c, last table = Some c /\ chunk_end (snd c) = 100).
Proof.
  apply (build_ranges_adjacent Py.b64 100 4);
    [apply b64_Rounding|lia|lia|lia].
Defined.

(** ** The size helpers (C3) *)

(** C3.  [parse_size("20M")] does not return [20 * 2^20]: the text
    matches the pattern, ["M"] is no key of [units], and the lookup
    raises [KeyError]. *)
Theorem parse_size_20M_raises (fl : Q -> Q) :
  parse_size fl "20M" = Raise KeyError.
Proof. reflexivity. Qed.

Lemma parse_size_20MB_value : parse_size Py.b64 "20MB" = Ok (20 * 2 ^ 20).
Proof. vm_compute. reflexivity. Qed.

Lemma human_readable_bytes_1G :
  human_readable_bytes Py.b64 (2 ^ 30) = "1.000 GB".
Proof. vm_compute. reflexivity. Qed.

(** ** The URL cache (C1) *)

Lemma cache_urls_insert (m : gmap string (list string)) (file_id : string)
    (urls : list string) :
  _cache_urls (Some (JsonDict m)) file_id urls
  = Ok (Some (JsonDict (<[file_id := urls]> m))).
Proof. reflexivity. Qed.

Lemma cache_urls_frame (m : gmap string (list string))
    (file_id other : string) (urls : list string) :
  other <> file_id ->
  exists m', _cache_urls (Some (JsonDict m)) file_id urls = Ok (Some (JsonDict m'))
             /\ m' !! other = m !! other /\ m' !! file_id = Some urls.
Proof.
  intros Hne. eexists. split; [apply cache_urls_insert|]. split.
  - now rewrite lookup_insert_ne.
  - now rewrite lookup_insert_eq.
Qed.

Lemma attempts_url_cache (fl : Q -> Q) (w : world) (fuel n : nat)
    (redownloaded emc : bool) (urls : list string) (name : string)
    (threads split : Z) (sched : list action) (d : downloader)
    (log : list event) r d' log' :
  attempts fl w fuel n redownloaded emc urls name threads split sched d log
  = Some (r, d', log') ->
  url_cache d' = url_cache d.
Proof.
  revert n redownloaded split sched d log.
  induction fuel as [|fuel IH]; intros n redownloaded split sched d log H;
    [discriminate|].
  cbn [attempts] in H.
  destruct (_download_once _ _ _ _ _ _ _ _ _) as [[[r0 s'] sched']|];
    [|discriminate].
  destruct r0 as [result|e]; [|now injection H as <- <- <-].
  destruct (stop_event s'); [now injection H as <- <- <-|].
  destruct (emc && should_check_media w name && which_ffmpeg w);
    [|now injection H as <- <- <-].
  destruct (_check_media w n); [now injection H as <- <- <-|].
  destruct redownloaded; [now injection H as <- <- <-|].
  apply IH in H. exact H.
Qed.

(** With the sample cache file, which holds an entry for ["other"],
    [download] of the file ["abc123"] leaves a cache without that
    entry. *)
Lemma download_drops_other_entries :
  let d := sample_downloader in
  let '(_, d', _) :=
    download_setup sample_world "https://k2s.cc/file/abc123" None 20
      (20 * 1024 * 1024) d in
  exists m m',
    url_cache d = Some (JsonDict m) /\ url_cache d' = Some (JsonDict m')
    /\ m !! "other" = Some ["https://host/old"]
    /\ m' !! "other" = None
    /\ m' <> <["abc123" := ["https://host/u1"]]> m.
Proof.
  vm_compute download_setup. cbn [sample_downloader url_cache].
  do 2 eexists. split; [reflexivity|]. split; [reflexivity|].
  split; [reflexivity|]. split; [reflexivity|].
  intros H. apply (f_equal (fun x => x !! "other")) in H.
  vm_compute in H. discriminate.
Qed.

(** C1, amended.  [download] unlinks the whole cache file before it
    asks for URLs.  With a cache file that holds the mapping [m], the
    cache after the write is [m] with the [file_id] key replaced only
    when the unlink fails; when it succeeds the cache holds the entry of
    [file_id] and nothing else.  The write [_cache_urls] on its own
    keeps every other entry. *)
Theorem download_cache_after_write (fl : Q -> Q) (w : world)
    (url : string) (filename : option string) (threads split_size : Z)
    (d : downloader) (file_id original_name : string) (urls : list string)
    (m : gmap string (list string)) :
  5 * 1024 * 1024 <= split_size ->
  extract_file_id url = Ok file_id ->
  get_name w file_id = Ok original_name ->
  generate_download_urls w file_id threads
    (match proxies d with [] => get_working_proxies w | ps => ps end)
  = Ok urls ->
  url_cache d = Some (JsonDict m) ->
  let after := <[file_id := urls]> (if unlink_ok w then ∅ else m) in
  (exists name d' log,
     download_setup w url filename threads split_size d
     = (Ok (urls, name), d', log)
     /\ url_cache d' = Some (JsonDict after))
  /\ (forall emc sched r d' log,
        download fl w url filename threads split_size emc sched d
        = Some (r, d', log) ->
        url_cache d' = Some (JsonDict after))
  /\ _cache_urls (Some (JsonDict m)) file_id urls
     = Ok (Some (JsonDict (<[file_id := urls]> m))).
Proof.
  intros Hsize Hid Hname Hurls Hcache after.
  assert (Hsetup : exists name d' log,
     download_setup w url filename threads split_size d
     = (Ok (urls, name), d', log)
     /\ url_cache d' = Some (JsonDict after)).
  { unfold download_setup.
    destruct (Z.ltb_spec split_size (5 * 1024 * 1024)) as [|_]; [lia|].
    rewrite Hid, Hname.
    destruct (proxies d) as [|p ps] eqn:Hp;
      cbn [refresh_proxies url_cache proxies]; rewrite Hcache;
      unfold refresh_proxies; cbn [with_cache proxies]; rewrite ?Hp, Hurls;
      unfold after; destruct (unlink_ok w); cbn;
      do 3 eexists; split; reflexivity. }
  split; [exact Hsetup|]. split; [|reflexivity].
  intros emc sched r d' log H. unfold download in H.
  destruct Hsetup as (name & d1 & log1 & Hs & Hc). rewrite Hs in H.
  apply attempts_url_cache in H. congruence.
Qed.

Lemma download_cache_after_write_witness :
  let after := <["abc123" := ["https://host/u1"]]> ∅ in
  (exists name d' log,
     download_setup sample_world "https://k2s.cc/file/abc123" None 20
       (20 * 1024 * 1024) sample_downloader
     = (Ok (["https://host/u1"], name), d', log)
     /\ url_cache d' = Some (JsonDict after))
  /\ (forall emc sched r d' log,
        download Py.b64 sample_world "https://k2s.cc/file/abc123" None 20
          (20 * 1024 * 1024) emc sched sample_downloader
        = Some (r, d', log) ->
        url_cache d' = Some (JsonDict after))
  /\ _cache_urls (Some (JsonDict {["other" := ["https://host/old"]]}))
       "abc123" ["https://host/u1"]
     = Ok (Some (JsonDict (<["abc123" := ["https://host/u1"]]>
                             {["other" := ["https://host/old"]]}))).
Proof.
  apply (download_cache_after_write Py.b64 sample_world
           "https://k2s.cc/file/abc123" None 20 (20 * 1024 * 1024)
           sample_downloader "abc123" "movie.mp4" ["https://host/u1"]
           {["other" := ["https://host/old"]]});
    [lia|reflexivity|reflexivity|reflexivity|reflexivity].
Defined.

(** ** The lower bound on the split size (C10) *)

(** C10.  With a split size below 5 MiB, [download] raises [ValueError]:
    the downloader is as it was and nothing was asked of the outside
    world or written. *)
Theorem download_small_split (fl : Q -> Q) (w : world) (url : string)
    (filename : option string) (threads split_size : Z) (emc : bool)
    (sched : list action) (d : downloader) :
  split_size < 5 * 1024 * 1024 ->
  download fl w url filename threads split_size emc sched d
  = Some (Raise ValueError, d, []).
Proof.
  intros H. unfold download, download_setup.
  apply Z.ltb_lt in H. now rewrite H.
Qed.

Lemma download_small_split_witness :
  download Py.b64 sample_world "https://k2s.cc/file/abc123" None 20
    (5 * 1024 * 1024 - 1) true [] sample_downloader
  = Some (Raise ValueError, sample_downloader, []).
Proof.
  apply (download_small_split Py.b64 sample_world
           "https://k2s.cc/file/abc123" None 20 (5 * 1024 * 1024 - 1)
           true [] sample_downloader).
  lia.
Defined.

(** ** Part files and reassembly (C7) *)

Lemma decode_zero (s : string) : decode (String "0" s) = decode s.
Proof.
  unfold decode. cbn [NilEmpty.uint_of_string].
  destruct (NilEmpty.uint_of_string s); reflexivity.
Qed.

Lemma decode_str (i : nat) : decode (Py.str (Z.of_nat i)) = Some (N.of_nat i).
Proof.
  unfold decode, Py.str. destruct i as [|i]; [reflexivity|].
  pose proof (DecimalPos.Unsigned.to_uint_nonnil (Pos.of_succ_nat i)) as Hn.
  assert (E : NilZero.string_of_uint (Pos.to_uint (Pos.of_succ_nat i))
              = NilEmpty.string_of_uint (Pos.to_uint (Pos.of_succ_nat i))).
  { destruct (Pos.to_uint (Pos.of_succ_nat i)); try reflexivity.
    now destruct Hn. }
  change (NilZero.string_of_int (Z.to_int (Z.of_nat (S i))))
    with (NilZero.string_of_uint (Pos.to_uint (Pos.of_succ_nat i))).
  rewrite E, NilEmpty.usu. cbn [option_map].
  rewrite DecimalPos.Unsigned.of_to. f_equal; lia.
Qed.

Lemma append_cons (c : ascii) (a b : string) :
  (String c a ++ b)%string = String c (a ++ b).
Proof. reflexivity. Qed.

Lemma decode_zfill (width : nat) (s : string) :
  decode (Py.zfill width s) = decode s.
Proof.
  unfold Py.zfill. induction (width - String.length s)%nat as [|k IH];
    [reflexivity|].
  cbn [repeat string_of_list_ascii].
  now rewrite append_cons, decode_zero.
Qed.

Lemma append_inj_l (p a b : string) : (p ++ a = p ++ b)%string -> a = b.
Proof.
  induction p as [|c p IH]; intros H; [exact H|].
  rewrite !append_cons in H. injection H as H. now apply IH.
Qed.

Lemma length_append (a b : string) :
  String.length (a ++ b) = (String.length a + String.length b)%nat.
Proof.
  induction a as [|c a IH]; [reflexivity|].
  rewrite append_cons. cbn [String.length]. now rewrite IH.
Qed.

Lemma part_path_inj (tmp_dir filename : string) (split_count : Z) (i j : nat) :
  part_path tmp_dir filename split_count (Py.str (Z.of_nat i))
  = part_path tmp_dir filename split_count (Py.str (Z.of_nat j)) ->
  i = j.
Proof.
  unfold part_path. intros H.
  do 4 apply append_inj_l in H.
  apply (f_equal decode) in H. rewrite !decode_zfill, !decode_str in H.
  injection H as H. now apply Nat2N.inj.
Qed.

Lemma part_path_not_target (tmp_dir filename : string) (split_count : Z)
    (sidx : string) :
  part_path tmp_dir filename split_count sidx <> filename.
Proof.
  unfold part_path. intros H. apply (f_equal String.length) in H.
  rewrite !length_append in H. cbn [String.length] in H. lia.
Qed.

Section Reassembly.
Variables tmp_dir filename : string.
Variable split_count : Z.
Variable content : nat -> pybytes.

Let part (i : nat) : string :=
  part_path tmp_dir filename split_count (Py.str (Z.of_nat i)).

Lemma concat_parts_spec (idxs : list nat) :
  forall (fs : gmap string pybytes) (acc : pybytes),
    NoDup idxs ->
    fs !! filename = Some acc ->
    (forall i, i ∈ idxs -> fs !! part i = Some (content i)) ->
    exists fs',
      concat_parts tmp_dir filename split_count filename idxs fs = Ok fs'
      /\ fs' !! filename = Some (acc ++ concat (map content idxs))%list
      /\ (forall i, i ∈ idxs -> fs' !! part i = None)
      /\ (forall p, p <> filename -> (forall i, i ∈ idxs -> p <> part i) ->
            fs' !! p = fs !! p).
Proof.
  induction idxs as [|idx rest IH]; intros fs acc Hnd Hacc Hparts.
  - exists fs. cbn [concat_parts map concat]. rewrite app_nil_r.
    repeat split; auto. intros i Hi. inversion Hi.
  - apply NoDup_cons in Hnd as [Hidx Hnd].
    pose proof (Hparts idx ltac:(left)) as Hidxp.
    assert (Hpt : part idx <> filename) by apply part_path_not_target.
    destruct (IH (delete (part idx) (<[filename := (acc ++ content idx)%list]> fs))
                (acc ++ content idx)%list Hnd) as (fs' & Hr & Ht & Hgone & Hrest).
    + rewrite lookup_delete_ne by exact Hpt. apply lookup_insert_eq.
    + intros i Hi.
      assert (part i <> part idx).
      { intros E. apply part_path_inj in E. subst i. contradiction. }
      rewrite lookup_delete_ne by congruence.
      rewrite lookup_insert_ne by (intros E; symmetry in E;
                                   now apply part_path_not_target in E).
      apply Hparts. now right.
    + exists fs'. cbn [concat_parts]. cbv zeta. fold (part idx).
      rewrite Hidxp, Hacc. cbn [default].
      split; [exact Hr|]. split; [|split].
      * rewrite Ht. cbn [map concat]. now rewrite app_assoc.
      * intros i Hi. apply elem_of_cons in Hi as [->|Hi]; [|now apply Hgone].
        rewrite Hrest; [apply lookup_delete_eq|exact Hpt|].
        intros i Hi E. apply part_path_inj in E. subst i. contradiction.
      * intros p Hp Hnot. rewrite Hrest.
        -- rewrite lookup_delete_ne by (intros E; apply (Hnot idx); [left|auto]).
           now rewrite lookup_insert_ne by congruence.
        -- exact Hp.
        -- intros i Hi. apply Hnot. now right.
Qed.

Lemma write_parts_cons (j : nat) (rest : list nat) (fs : gmap string pybytes) :
  write_parts tmp_dir filename split_count content (j :: rest) fs
  = write_parts tmp_dir filename split_count content rest
      (<[part j := content j]> fs).
Proof. reflexivity. Qed.

Lemma write_parts_lookup (order : list nat) (i : nat) :
  forall fs : gmap string pybytes,
    i ∈ order \/ fs !! part i = Some (content i) ->
    write_parts tmp_dir filename split_count content order fs !! part i
    = Some (content i).
Proof.
  induction order as [|j rest IH]; intros fs H.
  - destruct H as [H|H]; [inversion H|exact H].
  - rewrite write_parts_cons. apply IH.
    destruct (decide (i = j)) as [->|Hne].
    + right. apply lookup_insert_eq.
    + destruct H as [H|H].
      * apply elem_of_cons in H as [H|H]; [contradiction|now left].
      * right. rewrite lookup_insert_ne; [exact H|].
        intros E. apply part_path_inj in E. congruence.
Qed.

Lemma write_parts_other (order : list nat) (p : string) :
  forall fs : gmap string pybytes,
    (forall i, i ∈ order -> p <> part i) ->
    write_parts tmp_dir filename split_count content order fs !! p = fs !! p.
Proof.
  induction order as [|j rest IH]; intros fs H; [reflexivity|].
  rewrite write_parts_cons.
  rewrite IH by (intros i Hi; apply H; now right).
  rewrite lookup_insert_ne; [reflexivity|].
  intros E. symmetry in E. revert E. apply H. left.
Qed.

End Reassembly.

(** C7.  Whatever the order in which the chunks completed and wrote
    their part files, and whatever file was at the output path before,
    the reassembly succeeds, the output file holds the contents of the
    part files concatenated in ascending chunk index, every part file
    is deleted, and no other file changes. *)
Theorem reassemble_in_order (tmp_dir filename : string) (split_count : Z)
    (content : nat -> pybytes) (order : list nat) (s0 : state) :
  order ≡ₚ seq 0 (length (ranges s0)) ->
  let part i := part_path tmp_dir filename split_count (Py.str (Z.of_nat i)) in
  let s :=
    set_files (write_parts tmp_dir filename split_count content order (files s0))
      s0 in
  exists s',
    reassemble tmp_dir filename split_count s = Ok s'
    /\ files s' !! filename
       = Some (concat (map content (seq 0 (length (ranges s0)))))
    /\ (forall i, (i < length (ranges s0))%nat -> files s' !! part i = None)
    /\ (forall p, p <> filename ->
          (forall i, (i < length (ranges s0))%nat -> p <> part i) ->
          files s' !! p = files s0 !! p).
Proof.
  intros Hperm part s. unfold reassemble.
  set (n := length (ranges s0)).
  change (length (ranges s)) with n.
  destruct (concat_parts_spec tmp_dir filename split_count content (seq 0 n)
              (<[filename := []]> (delete filename (files s))) [])
    as (fs' & Hr & Ht & Hgone & Hrest).
  - apply NoDup_seq.
  - apply lookup_insert_eq.
  - intros i Hi.
    rewrite lookup_insert_ne
      by (intros E; symmetry in E; now apply part_path_not_target in E).
    rewrite lookup_delete_ne
      by (intros E; symmetry in E; now apply part_path_not_target in E).
    apply write_parts_lookup. left. now rewrite Hperm.
  - rewrite Hr. cbn [mbind res_bind]. eexists. split; [reflexivity|].
    cbn [files set_files]. split; [exact Ht|]. split.
    + intros i Hi. apply Hgone. apply elem_of_seq. lia.
    + intros p Hp Hnot. rewrite Hrest; [|exact Hp|].
      * rewrite lookup_insert_ne, lookup_delete_ne by congruence.
        apply write_parts_other. intros i Hi. apply Hnot.
        rewrite Hperm in Hi. apply elem_of_seq in Hi. lia.
      * intros i Hi. apply Hnot. apply elem_of_seq in Hi. lia.
Qed.

Lemma reassemble_in_order_witness :
  exists s',
    reassemble "tmp" "movie.mp4" 2
      (set_files (write_parts "tmp" "movie.mp4" 2 sample_content [1; 0]%nat
                    (files two_chunks)) two_chunks)
    = Ok s'
    /\ files s' !! "movie.mp4"
       = Some (concat (map sample_content (seq 0 (length (ranges two_chunks)))))
    /\ (forall i, (i < length (ranges two_chunks))%nat ->
          files s' !! part_path "tmp" "movie.mp4" 2 (Py.str (Z.of_nat i)) = None)
    /\ (forall p, p <> "movie.mp4" ->
          (forall i, (i < length (ranges two_chunks))%nat ->
             p <> part_path "tmp" "movie.mp4" 2 (Py.str (Z.of_nat i))) ->
          files s' !! p = files two_chunks !! p).
Proof.
  apply (reassemble_in_order "tmp" "movie.mp4" 2 sample_content [1; 0]%nat
           two_chunks).
  apply perm_swap.
Defined.

(** ** The length check [math.isclose(..., abs_tol=1)] *)

Section Isclose.
Variable fl : Q -> Q.
Hypothesis Hfl : Py.Rounding fl.

#[local] Instance fl_Proper_isclose : Proper (Qeq ==> Qeq) fl.
Proof. intros x y. apply (fl_proper fl Hfl). Qed.

(** Lengths that differ by at most one pass the check. *)
Lemma isclose_near (a b : Z) :
  Z.abs a <= 2 ^ 53 -> Z.abs b <= 2 ^ 53 -> Z.abs (a - b) <= 1 ->
  isclose fl a b = true.
Proof.
  intros Ha Hb Hd. unfold isclose.
  destruct (Qeq_bool _ _); [reflexivity|].
  apply orb_true_iff. right. apply Qle_bool_iff.
  unfold Py.fsub, Py.of_int.
  rewrite (Py.fl_int fl Hfl a Ha), (Py.fl_int fl Hfl b Hb),
    (Py.fl_int fl Hfl 1) by (simpl; lia).
  assert (E : (inject_Z b - inject_Z a == inject_Z (b - a))%Q).
  { unfold Qminus, Z.sub. now rewrite inject_Z_plus, inject_Z_opp. }
  rewrite E, (Py.fl_int fl Hfl (b - a)) by lia.
  apply Qabs_Qle_condition. change (- inject_Z 1)%Q with (inject_Z (-1)).
  rewrite <- !Zle_Qle. lia.
Qed.

(** Up to 10^9 bytes the check is the test of one byte. *)
Lemma isclose_far (a b : Z) :
  0 <= a <= 10 ^ 9 -> 0 <= b <= 10 ^ 9 -> 2 <= Z.abs (a - b) ->
  isclose fl a b = false.
Proof.
  intros Ha Hb Hd. unfold isclose.
  unfold Py.fsub, Py.fmul, Py.of_int.
  assert (Ea : (fl (inject_Z a) == inject_Z a)%Q)
    by (apply (Py.fl_int fl Hfl); lia).
  assert (Eb : (fl (inject_Z b) == inject_Z b)%Q)
    by (apply (Py.fl_int fl Hfl); lia).
  assert (E1 : (fl (inject_Z 1) == 1)%Q)
    by (apply (Py.fl_int fl Hfl 1); simpl; lia).
  assert (E : (inject_Z b - inject_Z a == inject_Z (b - a))%Q).
  { unfold Qminus, Z.sub. now rewrite inject_Z_plus, inject_Z_opp. }
  assert (Ed : (fl (fl (inject_Z b) - fl (inject_Z a)) == inject_Z (b - a))%Q).
  { rewrite Ea, Eb, E. apply (Py.fl_int fl Hfl). lia. }
  assert (Hdiff : (2 <= Qabs (fl (fl (inject_Z b) - fl (inject_Z a))))%Q).
  { rewrite Ed. change (Qabs (inject_Z (b - a))) with (inject_Z (Z.abs (b - a))).
    change 2%Q with (inject_Z 2). rewrite <- Zle_Qle.
    replace (b - a) with (- (a - b)) by ring. now rewrite Z.abs_opp. }
  set (diff := Qabs (fl (fl (inject_Z b) - fl (inject_Z a)))) in *.
  set (r := fl (1 # 1000000000)) in *.
  destruct (fl_near_pos fl Hfl (1 # 1000000000) ltac:(discriminate))
    as [Hr1 Hr2]. fold r in Hr1, Hr2.
  assert (Hr0 : (0 <= r)%Q) by (apply (fl_nonneg fl Hfl); discriminate).
  assert (Hprod : forall z : Z, 0 <= z <= 10 ^ 9 ->
            (Qabs (fl (r * fl (inject_Z z))) < 2)%Q).
  { intros z Hz.
    assert (Ez : (fl (inject_Z z) == inject_Z z)%Q)
      by (apply (Py.fl_int fl Hfl); lia).
    rewrite Ez.
    assert (Hz0 : (0 <= inject_Z z)%Q)
      by (change 0%Q with (inject_Z 0); rewrite <- Zle_Qle; lia).
    assert (Hz1 : (inject_Z z <= 1000000000)%Q)
      by (change 1000000000%Q with (inject_Z (10 ^ 9)); rewrite <- Zle_Qle; lia).
    assert (Hp0 : (0 <= r * inject_Z z)%Q) by now apply Qmult_le_0_compat.
    assert (Hp1 : (r * inject_Z z <= r * 1000000000)%Q).
    { rewrite !(Qmult_comm r). now apply Qmult_le_compat_r. }
    destruct (fl_near_pos fl Hfl _ Hp0) as [Hf1 _].
    rewrite Qabs_pos by now apply (fl_nonneg fl Hfl).
    unfold Py.unit_roundoff in *. lra. }
  destruct (Qeq_bool (fl (inject_Z a)) (fl (inject_Z b))) eqn:Eq.
  { apply Qeq_bool_iff in Eq. rewrite Ea, Eb in Eq.
    apply (proj1 (inject_Z_injective _ _)) in Eq. exfalso. lia. }
  rewrite !orb_false_iff. repeat split;
    apply not_true_iff_false; rewrite Qle_bool_iff; intros Hle.
  - specialize (Hprod b Hb). lra.
  - specialize (Hprod a Ha). lra.
  - rewrite E1 in Hle. lra.
Qed.

End Isclose.

(** The float product [1e-09 * 4e9] is at least 4, so a length that is
    two bytes short of 4 000 000 000 passes the check. *)
Lemma isclose_two_bytes_short :
  isclose Py.b64 3999999998 4000000000 = true.
Proof. vm_compute. reflexivity. Qed.

(** ** A rejected chunk (C4) *)

Lemma report_progress_credit (delta : Z) (s : state) :
  _bytes_downloaded (report_progress delta s) = _bytes_downloaded s + delta
  /\ same_but_progress s (report_progress delta s).
Proof.
  unfold report_progress, same_but_progress.
  destruct (Z.eqb_spec delta 0) as [->|_]; cbn; repeat split; lia.
Qed.

Lemma len_app (a b : pybytes) : len (a ++ b)%list = len a + len b.
Proof. unfold len. rewrite length_app. lia. Qed.

(** The loop that receives the data credits the counter with exactly
    the bytes it puts in the buffer. *)
Lemma receive_credit (segs : list segment) :
  forall (buffer : pybytes) (s s1 : state) (buffer1 : pybytes),
    receive segs buffer s = (s1, buffer1) ->
    _bytes_downloaded s1 = _bytes_downloaded s + (len buffer1 - len buffer)
    /\ same_but_progress s s1.
Proof.
  induction segs as [|seg rest IH]; intros buffer s s1 buffer1 H.
  - injection H as <- <-. unfold same_but_progress. repeat split; lia.
  - destruct seg as [data late|]; cbn [receive] in H.
    + destruct (stop_event s).
      { injection H as <- <-. unfold same_but_progress. cbn.
        repeat split; lia. }
      destruct late.
      { injection H as <- <-. unfold same_but_progress. repeat split; lia. }
      apply IH in H as [Hc Hs].
      destruct (report_progress_credit (len data) s) as [Hc' Hs'].
      rewrite Hc' in Hc. rewrite len_app in Hc. split; [lia|].
      unfold same_but_progress in *. intuition congruence.
    + apply IH in H as [Hc Hs]. cbn in Hc. split; [exact Hc|].
      unfold same_but_progress in *. cbn in Hs. exact Hs.
Qed.

Lemma dict_get_alter {V} (f : V -> V) (d : list (string * V)) (k : string)
    (v : V) :
  dict_get d k = Ok v -> dict_get (dict_alter f d k) k = Ok (f v).
Proof.
  induction d as [|[k' v'] d IH]; cbn; [discriminate|].
  destruct (String.eqb_spec k' k) as [->|Hne]; cbn.
  - intros [= ->]. now rewrite String.eqb_refl.
  - intros H. apply String.eqb_neq in Hne. rewrite Hne. now apply IH.
Qed.

(** A worker whose buffer fails the length check writes no file, leaves
    the chunk not in use, releases its slot and its proxy, and leaves
    the two counters as they were before it started. *)
Lemma transfer_rejected (fl : Q -> Q) (tmp_dir filename : string)
    (split_count : Z) (index : string) (expected_bytes : Z)
    (thread_index proxy_idx : nat) (segs : list segment) (s : state) :
  isclose fl (len (snd (receive segs [] (take_proxy proxy_idx s))))
    expected_bytes = false ->
  let s' := transfer fl tmp_dir filename split_count index expected_bytes
              thread_index proxy_idx segs s in
  files s' = files s
  /\ _bytes_downloaded s' = _bytes_downloaded s
  /\ _done_count s' = _done_count s
  /\ (forall c, dict_get (ranges s) index = Ok c ->
        dict_get (ranges s') index = Ok (set_inUse false c))
  /\ url_locks s' !! thread_index <> Some true
  /\ proxy_locks s' !! proxy_idx <> Some true.
Proof.
  intros Hrej s'. subst s'. unfold transfer.
  destruct (receive segs [] (take_proxy proxy_idx s)) as [s1 buffer] eqn:Hrec.
  cbn [snd] in Hrej.
  apply receive_credit in Hrec as [Hc (Hf & Hr & Hd & Hu & Hp & _)].
  unfold settle. rewrite Hrej. cbn [negb].
  destruct (report_progress_credit (- len buffer) s1)
    as [Hc' (Hf' & Hr' & Hd' & Hu' & Hp' & _)].
  cbn in Hc, Hf, Hr, Hd, Hu, Hp |- *.
  rewrite Hf', Hf, Hc', Hc, Hd', Hd, Hr', Hr.
  unfold len at 2. cbn [length Z.of_nat].
  repeat split; try lia.
  - intros c Hc0. now apply dict_get_alter.
  - unfold release. intros H. apply list_lookup_insert_Some in H.
    destruct H as [(_ & ? & _)|(? & _)]; congruence.
  - unfold release. intros H. apply list_lookup_insert_Some in H.
    destruct H as [(_ & ? & _)|(? & _)]; congruence.
Qed.

(** C4.  The worker rejects a chunk through
    [math.isclose(chunk_bytes, expected_bytes, abs_tol=1)], whose
    default relative tolerance [1e-09] is more than one byte from
    2 * 10^9 bytes on: a buffer of 3 999 999 998 bytes for a chunk of
    4 000 000 000 bytes passes the check, is written to the part file
    and the chunk is counted as done. *)
Theorem settle_two_bytes_short (tmp_dir filename : string) (split_count : Z)
    (index : string) (thread_index proxy_idx : nat) (buffer : pybytes)
    (s : state) :
  len buffer = 3999999998 ->
  let s' := settle Py.b64 tmp_dir filename split_count index 4000000000
              thread_index proxy_idx buffer s in
  files s' !! part_path tmp_dir filename split_count index = Some buffer
  /\ _done_count s' = _done_count s + 1
  /\ _bytes_downloaded s' = _bytes_downloaded s.
Proof.
  intros Hlen s'. subst s'. unfold settle.
  rewrite Hlen, isclose_two_bytes_short. cbn [negb].
  destruct (bool_decide _); cbn; rewrite lookup_insert_eq; repeat split.
Qed.

Lemma settle_two_bytes_short_witness :
  let buffer := repeat Byte.x00 (Z.to_nat 3999999998) in
  let s' := settle Py.b64 "tmp" "movie.mp4" 1 "0" 4000000000 0 0 buffer
              idle_state in
  files s' !! part_path "tmp" "movie.mp4" 1 "0" = Some buffer
  /\ _done_count s' = _done_count idle_state + 1
  /\ _bytes_downloaded s' = _bytes_downloaded idle_state.
Proof.
  apply (settle_two_bytes_short "tmp" "movie.mp4" 1 "0" 0 0
           (repeat Byte.x00 (Z.to_nat 3999999998)) idle_state).
  unfold len. rewrite repeat_length. lia.
Defined.

(** ** Resuming from part files (C5) *)

(** A pending chunk whose part file passes the length check is marked
    done and credited with its expected byte count; no worker is spawned
    and no file changes. *)
Lemma dispatch_resumes (fl : Q -> Q) (tmp_dir filename : string)
    (split_count : Z) (idx : string) (meta : chunk) (existing : pybytes)
    (s : state) :
  stop_event s = false ->
  dict_get (ranges s) idx = Ok meta ->
  inUse meta = false -> downloaded meta = false ->
  files s !! part_path tmp_dir filename split_count idx = Some existing ->
  isclose fl (len existing) (bytes meta) = true ->
  exists s',
    dispatch_chunk fl tmp_dir filename split_count idx s = (s', Resumed)
    /\ files s' = files s
    /\ _bytes_downloaded s' = _bytes_downloaded s + bytes meta
    /\ _done_count s' = _done_count s + 1
    /\ dict_get (ranges s') idx = Ok (set_downloaded true meta)
    /\ url_locks s' = url_locks s.
Proof.
  intros Hstop Hget Hin Hdone Hfile Hclose.
  unfold dispatch_chunk, check_part.
  rewrite Hstop, Hget, Hin, Hdone, Hfile, Hclose. cbn [orb].
  eexists. split; [reflexivity|].
  destruct (report_progress_credit (bytes meta) s)
    as [Hc (Hf & Hr & Hd & Hu & _)].
  cbn. rewrite Hf, Hc, Hd, Hr, Hu. repeat split.
  now apply dict_get_alter.
Qed.

(** A pending chunk whose part file fails the length check loses that
    file, and a worker is spawned for it on the first free slot. *)
Lemma dispatch_refetches (fl : Q -> Q) (tmp_dir filename : string)
    (split_count : Z) (idx : string) (meta : chunk) (existing : pybytes)
    (s : state) :
  stop_event s = false ->
  dict_get (ranges s) idx = Ok meta ->
  inUse meta = false -> downloaded meta = false ->
  files s !! part_path tmp_dir filename split_count idx = Some existing ->
  isclose fl (len existing) (bytes meta) = false ->
  exists s' v,
    dispatch_chunk fl tmp_dir filename split_count idx s = (s', v)
    /\ files s' = delete (part_path tmp_dir filename split_count idx) (files s)
    /\ _bytes_downloaded s' = _bytes_downloaded s
    /\ _done_count s' = _done_count s
    /\ match find_free (url_locks s) with
       | Some thread_index =>
           v = Spawn thread_index
           /\ url_locks s' = acquire thread_index (url_locks s)
           /\ dict_get (ranges s') idx = Ok (set_inUse true meta)
       | None => v = NoSlot /\ ranges s' = ranges s
       end.
Proof.
  intros Hstop Hget Hin Hdone Hfile Hclose.
  unfold dispatch_chunk, check_part.
  rewrite Hstop, Hget, Hin, Hdone, Hfile, Hclose. cbn [orb url_locks set_files].
  destruct (find_free (url_locks s)) as [thread_index|]; do 2 eexists;
    (split; [reflexivity|]); cbn; repeat split.
  now apply dict_get_alter.
Qed.

(** C5.  The dispatch loop accepts a part file through
    [math.isclose(len(existing), meta["bytes"], abs_tol=1)], with the
    default relative tolerance [1e-09]: a part file of 3 999 999 998
    bytes for a chunk of 4 000 000 000 bytes is not deleted; the chunk
    is marked done and credited in full. *)
Theorem check_part_two_bytes_short (tmp_dir filename : string)
    (split_count : Z) (idx : string) (meta : chunk) (existing : pybytes)
    (s : state) :
  bytes meta = 4000000000 -> len existing = 3999999998 ->
  files s !! part_path tmp_dir filename split_count idx = Some existing ->
  exists s',
    check_part Py.b64 tmp_dir filename split_count idx meta s = (s', true)
    /\ files s' = files s
    /\ _bytes_downloaded s' = _bytes_downloaded s + 4000000000
    /\ _done_count s' = _done_count s + 1.
Proof.
  intros Hb Hl Hfile. unfold check_part.
  rewrite Hfile, Hl, Hb, isclose_two_bytes_short.
  eexists. split; [reflexivity|].
  cbn. repeat split.
Qed.

Lemma check_part_two_bytes_short_witness :
  exists s',
    check_part Py.b64 "tmp" "movie.mp4" 1 "0" big_chunk short_part_state
    = (s', true)
    /\ files s' = files short_part_state
    /\ _bytes_downloaded s' = _bytes_downloaded short_part_state + 4000000000
    /\ _done_count s' = _done_count short_part_state + 1.
Proof.
  apply (check_part_two_bytes_short "tmp" "movie.mp4" 1 "0" big_chunk
           (repeat Byte.x00 (Z.to_nat 3999999998)) short_part_state).
  - reflexivity.
  - unfold len. rewrite repeat_length. lia.
  - apply lookup_singleton_eq.
Defined.

(** ** Cancellation (C6) *)

Section LoopFacts.
Variable fl : Q -> Q.
Variables tmp_dir filename : string.
Variable split_count : Z.

Lemma keeps_refl (s : state) : keeps filename s s.
Proof. unfold keeps. auto. Qed.

Lemma keeps_trans (s1 s2 s3 : state) : keeps filename s1 s2 -> keeps filename s2 s3 -> keeps filename s1 s3.
Proof. unfold keeps. intros (? & ? & ?) (? & ? & ?). intuition congruence. Qed.

Lemma receive_keeps (segs : list segment) :
  forall (buffer : pybytes) (s : state),
    keeps filename s (fst (receive segs buffer s)).
Proof.
  induction segs as [|seg rest IH]; intros buffer s; [apply keeps_refl|].
  destruct seg as [data late|]; cbn [receive].
  - destruct (stop_event s) eqn:E; [unfold keeps; cbn; auto|].
    destruct late; [apply keeps_refl|].
    eapply keeps_trans; [|apply IH].
    unfold keeps, report_progress. destruct (len data =? 0); cbn; auto.
  - eapply keeps_trans; [|apply IH]. unfold keeps. cbn. auto.
Qed.

Lemma settle_keeps (index : string) (expected : Z) (ti p : nat)
    (buffer : pybytes) (s : state) :
  keeps filename s (settle fl tmp_dir filename split_count index expected ti p buffer s).
Proof.
  unfold keeps, settle, report_progress.
  destruct (isclose fl (len buffer) expected); cbn [negb].
  - destruct (bool_decide _); cbn;
      (rewrite lookup_insert_ne by apply part_path_not_target); auto.
  - destruct (- len buffer =? 0); cbn; auto.
Qed.

Lemma transfer_keeps (index : string) (expected : Z) (ti p : nat)
    (segs : list segment) (s : state) :
  keeps filename s (transfer fl tmp_dir filename split_count index expected ti p segs s).
Proof.
  unfold transfer.
  pose proof (receive_keeps segs [] (take_proxy p s)) as H.
  destruct (receive segs [] (take_proxy p s)) as [s1 buffer]. cbn [fst] in H.
  pose proof (settle_keeps index expected ti p buffer s1) as H'.
  unfold keeps in *. cbn in *. intuition congruence.
Qed.

Lemma download_chunk_keeps (index : string) (ti : nat) (rnd : list nat)
    (segs : list segment) (s s' : state) :
  download_chunk fl tmp_dir filename split_count index ti rnd segs s = Some s' ->
  keeps filename s s'.
Proof.
  unfold download_chunk. destruct (stop_event s) eqn:E.
  - intros [= <-]. unfold keeps. cbn. auto.
  - destruct (dict_get (ranges s) index); [|discriminate].
    destruct (select_proxy s rnd); [|discriminate].
    intros [= <-]. apply transfer_keeps.
Qed.

Lemma dispatch_chunk_keeps (idx : string) (s : state) :
  keeps filename s (fst (dispatch_chunk fl tmp_dir filename split_count idx s)).
Proof.
  unfold dispatch_chunk. destruct (stop_event s) eqn:E;
    [unfold keeps; cbn; auto|].
  destruct (dict_get (ranges s) idx) as [meta|]; [|apply keeps_refl].
  destruct (inUse meta || downloaded meta); [apply keeps_refl|].
  unfold check_part.
  destruct (files s !! part_path tmp_dir filename split_count idx) as [existing|].
  - destruct (isclose fl (len existing) (bytes meta)).
    + unfold keeps, report_progress. destruct (bytes meta =? 0); cbn; auto.
    + destruct (find_free _); unfold keeps; cbn;
        (rewrite lookup_delete_ne by apply part_path_not_target); auto.
  - destruct (find_free _); unfold keeps; cbn; auto.
Qed.

Lemma main_step_keeps (c : config) :
  keeps filename (shared c) (shared (main_step fl tmp_dir filename split_count c)).
Proof.
  unfold main_step. destruct (pos c) as [|[|idx rest]|].
  - destruct (_ && _); apply keeps_refl.
  - apply keeps_refl.
  - pose proof (dispatch_chunk_keeps idx (shared c)) as H.
    destruct (dispatch_chunk fl tmp_dir filename split_count idx (shared c))
      as [s' v]. cbn [fst] in H. destruct v; exact H.
  - apply keeps_refl.
Qed.

Lemma step_keeps (a : action) (c : config) :
  keeps filename (shared c) (shared (step fl tmp_dir filename split_count a c)).
Proof.
  unfold step. destruct (pos c) eqn:Ep; try apply keeps_refl;
    (destruct a as [|j rnd segs| |];
     [apply main_step_keeps| |unfold keeps; cbn; auto|unfold keeps; cbn; auto]);
    unfold work_step; destruct (jobs c !! j) as [jb|]; try apply keeps_refl;
    destruct (job_ran jb); try apply keeps_refl;
    destruct (download_chunk _ _ _ _ _ _ _ _ _) eqn:Ed; try apply keeps_refl;
    apply download_chunk_keeps in Ed; exact Ed.
Qed.

Lemma run_keeps (sched : list action) :
  forall c : config,
    keeps filename (shared c) (shared (fst (run fl tmp_dir filename split_count sched c))).
Proof.
  induction sched as [|a rest IH]; intros c.
  - cbn [run]. destruct (pos c); apply keeps_refl.
  - cbn [run]. destruct (pos c) eqn:Ep; try apply keeps_refl;
      (eapply keeps_trans; [apply step_keeps|apply IH]).
Qed.

Lemma release_all_unlocked (s : state) :
  unlocked (url_locks (release_all s)) /\ unlocked (proxy_locks (release_all s)).
Proof.
  unfold unlocked, release_all. cbn.
  split; apply Forall_forall; intros b Hb;
    apply list_elem_of_In, in_map_iff in Hb as (? & <- & _); reflexivity.
Qed.

Lemma concat_parts_raises (target : string) (idxs : list nat) :
  forall (fs : gmap string pybytes) (e : exn),
    concat_parts tmp_dir filename split_count target idxs fs = Raise e ->
    e = FileNotFoundError.
Proof.
  induction idxs as [|idx rest IH]; intros fs e; cbn [concat_parts];
    [discriminate|].
  cbv zeta. destruct (fs !! _); [apply IH|now intros [= <-]].
Qed.

Lemma reassemble_raises (s : state) (e : exn) :
  reassemble tmp_dir filename split_count s = Raise e -> e = FileNotFoundError.
Proof.
  unfold reassemble.
  destruct (concat_parts _ _ _ _ _ _) eqn:E; cbn; [discriminate|].
  intros [= <-]. now apply concat_parts_raises in E.
Qed.

(** An attempt that raises [DownloadCancelled] leaves every slot lock
    and every proxy lock unlocked and the output path as it was. *)
Lemma cancelled_attempt_clean (sched : list action) (c : config)
    (s' : state) (sched' : list action) :
  finish_from fl tmp_dir filename split_count sched c
  = Some (Raise DownloadCancelled, s', sched') ->
  unlocked (url_locks s') /\ unlocked (proxy_locks s')
  /\ files s' !! filename = files (shared c) !! filename.
Proof.
  unfold finish_from. intros H.
  pose proof (run_keeps sched c) as (Hk & _).
  destruct (run fl tmp_dir filename split_count sched c) as [c' rest].
  cbn [fst] in *. destruct (pos c'); try discriminate.
  destruct (stop (release_all (shared c'))).
  - injection H as <- _. destruct (release_all_unlocked (shared c')).
    repeat split; auto.
  - destruct (reassemble _ _ _ _) eqn:E; [discriminate|].
    injection H as -> _ _. apply reassemble_raises in E. discriminate.
Qed.

Lemma main_steps_cons (a : action) (rest : list action) :
  main_steps (a :: rest)
  = (if is_main a then S (main_steps rest) else main_steps rest).
Proof.
  unfold main_steps. rewrite filter_cons.
  destruct (is_main a); destruct (decide _); try reflexivity; congruence.
Qed.

Lemma dispatch_chunk_break (idx : string) (s : state) :
  stop_event s = true ->
  dispatch_chunk fl tmp_dir filename split_count idx s = (set_stop true s, Break).
Proof. intros H. unfold dispatch_chunk. now rewrite H. Qed.

Lemma work_step_pos (j : nat) (rnd : list nat) (segs : list segment)
    (c : config) :
  pos (work_step fl tmp_dir filename split_count j rnd segs c) = pos c.
Proof.
  unfold work_step. destruct (jobs c !! j) as [jb|]; [|reflexivity].
  destruct (job_ran jb); [reflexivity|].
  destruct (download_chunk _ _ _ _ _ _ _ _ _); reflexivity.
Qed.

(** Once the flag is seen, two steps of the coordinating thread end
    the loop with [stop] set. *)
Lemma run_leaves (sched : list action) :
  forall c : config,
    stop_event (shared c) = true ->
    stop (shared c) = true \/ (exists k rest, pos c = InFor (k :: rest)) ->
    (need c <= main_steps sched)%nat ->
    let c' := fst (run fl tmp_dir filename split_count sched c) in
    pos c' = Left /\ stop (shared c') = true.
Proof.
  induction sched as [|a rest IH]; intros c Hev Hor Hneed c'; subst c'.
  - cbn [run]. unfold need, main_steps in Hneed. cbn in Hneed.
    destruct (pos c) eqn:Ep; try lia. cbn. split; [exact Ep|].
    destruct Hor as [H|(k & r & H)]; [exact H|discriminate].
  - cbn [run]. rewrite main_steps_cons in Hneed. unfold need in Hneed.
    pose proof (step_keeps a c) as (_ & Hk1 & Hk2).
    destruct (pos c) eqn:Ep.
    + (* at the while test *)
      destruct Hor as [Hst|(k & r & H)]; [|discriminate].
      apply IH; [auto|left; auto|].
      unfold step, need. rewrite Ep. destruct a as [|j rnd segs| |].
      * unfold main_step. rewrite Ep, Hst, andb_false_r. cbn. lia.
      * rewrite work_step_pos, Ep. cbn in Hneed. exact Hneed.
      * cbn in *. exact Hneed.
      * cbn. lia.
    + (* inside the for loop *)
      apply IH; [auto| |].
      * destruct Hor as [H|(k & r & H)]; [left; apply Hk1; exact H|].
        injection H as ->.
        unfold step. rewrite Ep. destruct a as [|j rnd segs| |].
        -- unfold main_step. rewrite Ep.
           rewrite dispatch_chunk_break by exact Hev. left. reflexivity.
        -- right. exists k, r. now rewrite work_step_pos.
        -- right. exists k, r. reflexivity.
        -- left. reflexivity.
      * unfold step, need. rewrite Ep. destruct a as [|j rnd segs| |].
        -- unfold main_step. rewrite Ep. cbn in Hneed. destruct keys as [|k r].
           ++ cbn. lia.
           ++ rewrite dispatch_chunk_break by exact Hev. cbn. lia.
        -- rewrite work_step_pos, Ep. cbn in Hneed. exact Hneed.
        -- cbn in *. exact Hneed.
        -- cbn. lia.
    + cbn. split; [exact Ep|].
      destruct Hor as [H|(k & r & H)]; [exact H|discriminate].
Qed.

End LoopFacts.

Lemma attempts_returns_unflagged (fl : Q -> Q) (w : world) (emc : bool)
    (urls : list string) (name : string) (threads : Z) (path : string)
    (d' : downloader) (log' : list event) (fuel : nat) :
  forall (n : nat) (redownloaded : bool) (split : Z) (sched : list action)
         (d : downloader) (log : list event),
    attempts fl w fuel n redownloaded emc urls name threads split sched d log
    = Some (Ok path, d', log') ->
    stop_event (attempt d') = false.
Proof.
  induction fuel as [|fuel IH]; intros n redownloaded split sched d log H;
    cbn [attempts] in H; [discriminate|].
  destruct (_download_once _ _ _ _ _ _ _ _ _) as [[[r s'] sched']|];
    [|discriminate].
  destruct r as [result|e]; [|discriminate].
  destruct (stop_event s') eqn:Es; [discriminate|].
  destruct (emc && should_check_media w name && which_ffmpeg w).
  - destruct (_check_media w n); [now injection H as _ <- _|].
    destruct redownloaded; [now injection H as _ <- _|].
    now apply IH in H.
  - now injection H as _ <- _.
Qed.

(** [download] returns a path only with the flag not set. *)
Lemma download_returns_unflagged (fl : Q -> Q) (w : world) (url : string)
    (filename : option string) (threads split_size : Z) (emc : bool)
    (sched : list action) (d d' : downloader) (path : string)
    (log : list event) :
  download fl w url filename threads split_size emc sched d
  = Some (Ok path, d', log) ->
  stop_event (attempt d') = false.
Proof.
  unfold download.
  destruct (download_setup w url filename threads split_size d)
    as [[[[urls name]|e] d1] log1]; [|discriminate].
  apply attempts_returns_unflagged.
Qed.

(** With the sample world and the schedule [late_cancel], [cancel()]
    is called during the run, [download] raises [DownloadCancelled], and
    the output file has been written. *)
Lemma late_cancel_output :
  exists d' log,
    download Py.b64 sample_world "https://k2s.cc/file/abc123" None 20
      (20 * 1024 * 1024) true late_cancel sample_downloader
    = Some (Raise DownloadCancelled, d', log)
    /\ stop_event (attempt d') = true
    /\ files (attempt sample_downloader) !! "movie.mp4" = None
    /\ files (attempt d') !! "movie.mp4" = Some hundred_bytes.
Proof.
  do 2 eexists. split; [vm_compute; reflexivity|].
  split; [reflexivity|]. split; [reflexivity|]. vm_compute. reflexivity.
Qed.

(** Two failures of a clean cancellation.  (1) With the sample world
    and the schedule [late_cancel], [cancel()] is called during the run,
    [download] raises [DownloadCancelled], and the output file has been
    written.  (2) A worker passes the test of the flag, [cancel()] is
    called, the loop ends and its [finally] clause releases every proxy
    lock; the worker then acquires its proxy: the flag is set, the
    coordinating thread is past the loop, and the lock is locked. *)
Lemma cancel_not_clean :
  (exists d' log,
     download Py.b64 sample_world "https://k2s.cc/file/abc123" None 20
       (20 * 1024 * 1024) true late_cancel sample_downloader
     = Some (Raise DownloadCancelled, d', log)
     /\ stop_event (attempt d') = true
     /\ files (attempt sample_downloader) !! "movie.mp4" = None
     /\ files (attempt d') !! "movie.mp4" = Some hundred_bytes)
  /\ (exists c,
        rtc tstep (t_init [false] []) c
        /\ t_stop_event c = true
        /\ t_in_loop c = false
        /\ t_locks c = [true]).
Proof.
  split; [exact late_cancel_output|].
  eexists. split; [|split; [|split]].
  - thread_step t_spawn.
    thread_step (t_enter _ 0%nat).
    thread_step t_cancel.
    thread_step t_leave.
    thread_step (t_choose _ 0%nat [] [] 0%nat 0%nat).
    thread_step (t_acquire _ 0%nat 0%nat).
    apply rtc_refl.
  - reflexivity.
  - reflexivity.
  - reflexivity.
Qed.

(** C6, amended.  From any moment of an attempt at which the flag is
    set and either [stop] is already set or the coordinating thread
    still has a chunk to look at in its current pass: once the
    coordinating thread has made two more steps it is past the loop with
    [stop] set, and the file at the output path is the one that was
    there at that moment.  When every worker that was started has
    returned by then, the attempt raises [DownloadCancelled] with every
    slot lock and every proxy lock unlocked. *)
Theorem cancel_observed (fl : Q -> Q) (tmp_dir filename : string)
    (split_count : Z) (sched : list action) (c : config) :
  stop_event (shared c) = true ->
  stop (shared c) = true \/ (exists k rest, pos c = InFor (k :: rest)) ->
  (2 <= main_steps sched)%nat ->
  let c' := fst (run fl tmp_dir filename split_count sched c) in
  pos c' = Left
  /\ stop (shared c') = true
  /\ files (shared c') !! filename = files (shared c) !! filename
  /\ (Forall (fun jb => job_ran jb = true) (jobs c') ->
      exists s' sched',
        finish_from fl tmp_dir filename split_count sched c
        = Some (Raise DownloadCancelled, s', sched')
        /\ unlocked (url_locks s') /\ unlocked (proxy_locks s')
        /\ files s' !! filename = files (shared c) !! filename).
Proof.
  intros Hev Hor Hsteps c'.
  assert (Hneed : (need c <= main_steps sched)%nat).
  { unfold need. destruct (pos c); lia. }
  pose proof (run_leaves fl tmp_dir filename split_count sched c Hev Hor Hneed)
    as [Hpos Hstop].
  pose proof (run_keeps fl tmp_dir filename split_count sched c) as (Hk & _).
  fold c' in Hpos, Hstop, Hk.
  split; [exact Hpos|]. split; [exact Hstop|]. split; [exact Hk|].
  intros _.
  assert (Hfin : exists s' sched',
    finish_from fl tmp_dir filename split_count sched c
    = Some (Raise DownloadCancelled, s', sched')).
  { unfold finish_from. subst c'.
    destruct (run fl tmp_dir filename split_count sched c) as [c1 rest].
    cbn [fst] in Hpos, Hstop. rewrite Hpos.
    change (stop (release_all (shared c1))) with (stop (shared c1)).
    rewrite Hstop. eauto. }
  destruct Hfin as (s' & sched' & Hfin). exists s', sched'.
  split; [exact Hfin|].
  now apply cancelled_attempt_clean in Hfin.
Qed.

Lemma cancel_observed_witness :
  let c' := fst (run Py.b64 "tmp" "movie.mp4" 2 [MainStep; MainStep]
                   seen_in_pass) in
  pos c' = Left
  /\ stop (shared c') = true
  /\ files (shared c') !! "movie.mp4" = files (shared seen_in_pass) !! "movie.mp4"
  /\ Forall (fun jb => job_ran jb = true) (jobs c')
  /\ exists s' sched',
       finish_from Py.b64 "tmp" "movie.mp4" 2 [MainStep; MainStep]
         seen_in_pass
       = Some (Raise DownloadCancelled, s', sched')
       /\ unlocked (url_locks s') /\ unlocked (proxy_locks s')
       /\ files s' !! "movie.mp4"
          = files (shared seen_in_pass) !! "movie.mp4".
Proof.
  intros c'.
  assert (Hev : stop_event (shared seen_in_pass) = true)
    by (vm_compute; reflexivity).
  assert (Hpass : stop (shared seen_in_pass) = true
                  \/ (exists k rest, pos seen_in_pass = InFor (k :: rest)))
    by (right; exists "1", []; vm_compute; reflexivity).
  assert (Hsteps : (2 <= main_steps [MainStep; MainStep])%nat)
    by (vm_compute; lia).
  assert (Hran : Forall (fun jb => job_ran jb = true) (jobs c'))
    by (vm_compute; repeat constructor).
  destruct (cancel_observed Py.b64 "tmp" "movie.mp4" 2 [MainStep; MainStep]
              seen_in_pass Hev Hpass Hsteps) as (A & B & C & D).
  split; [exact A|]. split; [exact B|]. split; [exact C|].
  split; [exact Hran|exact (D Hran)].
Defined.

(** ** The proxy locks under interleaving (C9) *)

Lemma loop_step_invariant (c c' : threads) :
  loop_step c c' -> t_in_loop c = true -> exclusive c /\ held_locked c ->
  exclusive c' /\ held_locked c'.
Proof.
  intros [Hstep Hloop] Hin [Hex Hheld].
  destruct Hstep as [c Hl|c i Hi|c i rnd rnd' p0 p Hi Hs1 Hs2|c i p Hi Hp
                    |c i p accepted Hi|c|c Hl|c Hl];
    unfold exclusive, held_locked in *; cbn in *;
    try discriminate; try congruence.
  - (* spawn *)
    assert (Hlk : forall k q, (t_workers c ++ [Entry])%list !! k = Some (Holding q)
                              -> t_workers c !! k = Some (Holding q)).
    { intros k q H. apply lookup_app_Some in H as [H|[_ H]]; [exact H|].
      apply list_lookup_singleton_Some in H as [_ H]. discriminate. }
    split.
    + intros a b q Hab Ha Hb. eapply (Hex a b q); eauto.
    + intros a q Ha. eauto.
  - (* enter *)
    assert (Hlk : forall k q,
      <[i := if t_stop_event c then Returned else Choosing]> (t_workers c) !! k
      = Some (Holding q) -> t_workers c !! k = Some (Holding q)).
    { intros k q H. apply list_lookup_insert_Some in H as [(_ & H & _)|(_ & H)];
        [destruct (t_stop_event c); discriminate|exact H]. }
    split.
    + intros a b q Hab Ha Hb. eapply (Hex a b q); eauto.
    + intros a q Ha. eauto.
  - (* choose *)
    assert (Hlk : forall k q,
      <[i := Waiting p]> (t_workers c) !! k = Some (Holding q)
      -> t_workers c !! k = Some (Holding q)).
    { intros k q H. apply list_lookup_insert_Some in H as [(_ & H & _)|(_ & H)];
        [discriminate|exact H]. }
    split.
    + intros a b q Hab Ha Hb. eapply (Hex a b q); eauto.
    + intros a q Ha. eauto.
  - (* acquire *)
    assert (Hlk : forall k q,
      <[i := Holding p]> (t_workers c) !! k = Some (Holding q)
      -> (k = i /\ q = p) \/ (k <> i /\ t_workers c !! k = Some (Holding q))).
    { intros k q H.
      apply list_lookup_insert_Some in H as [(Hk & Hq & _)|(? & H)];
        [left|right]; auto. injection Hq as Hq. auto. }
    assert (Hfree : forall k, t_workers c !! k = Some (Holding p) -> False).
    { intros k H. apply Hheld in H. congruence. }
    split.
    + intros a b q Hab Ha Hb.
      apply Hlk in Ha as [[Ea Eq]|[Hai Ha]]; apply Hlk in Hb as [[Eb Eq']|[Hbi Hb]];
        subst.
      * congruence.
      * eapply Hfree; eauto.
      * eapply Hfree; eauto.
      * eapply (Hex a b q); eauto.
    + intros a q Ha. apply Hlk in Ha as [[-> ->]|[Hai Ha]].
      * apply list_lookup_insert_eq. now apply lookup_lt_Some in Hp.
      * destruct (decide (p = q)) as [->|Hne]; [exfalso; eapply Hfree; eauto|].
        rewrite list_lookup_insert_ne by exact Hne. eauto.
  - (* finish *)
    assert (Hlk : forall k q,
      <[i := Returned]> (t_workers c) !! k = Some (Holding q)
      -> k <> i /\ t_workers c !! k = Some (Holding q)).
    { intros k q H. apply list_lookup_insert_Some in H as [(_ & H & _)|(? & H)];
        [discriminate|auto]. }
    split.
    + intros a b q Hab Ha Hb. apply Hlk in Ha as [_ Ha]. apply Hlk in Hb as [_ Hb].
      eapply (Hex a b q); eauto.
    + intros a q Ha. apply Hlk in Ha as [Hai Ha].
      destruct (decide (p = q)) as [->|Hne]; [exfalso; eapply (Hex a i q); eauto|].
      rewrite list_lookup_insert_ne by exact Hne. eauto.
  - (* cancel *)
    split; eauto.
Qed.

Lemma loop_steps_invariant (c0 c : threads) :
  rtc loop_step c0 c -> t_in_loop c0 = true ->
  exclusive c0 /\ held_locked c0 -> exclusive c /\ held_locked c.
Proof.
  induction 1 as [|c1 c2 c3 Hstep _ IH]; [auto|].
  intros Hin Hinv. apply IH; [exact (proj2 Hstep)|].
  eapply loop_step_invariant; eauto.
Qed.

(** Two failures of the exclusion, with one proxy.  (1) The first
    worker holds the proxy, the second has passed the test of the flag
    when [cancel()] is called; the loop ends and its [finally] clause
    releases the lock; the second worker then acquires the proxy that
    the first one still uses.  (2) The first worker holds the proxy when
    [cancel()] ends the loop; [download] is called again and its loop
    starts a worker, which acquires the proxy that the first one still
    uses, with the coordinating thread inside its loop. *)
Lemma two_holders_after_cancel :
  (exists c,
     rtc tstep (t_init [false] []) c
     /\ t_workers c = [Holding 0; Holding 0]
     /\ ~ exclusive c)
  /\ (exists c,
        rtc tstep (t_init [false] []) c
        /\ t_in_loop c = true
        /\ ~ exclusive c).
Proof.
  split; eexists; (split; [|split]).
  - thread_step t_spawn. thread_step t_spawn.
    thread_step (t_enter _ 0%nat).
    thread_step (t_choose _ 0%nat [] [] 0%nat 0%nat).
    thread_step (t_acquire _ 0%nat 0%nat).
    thread_step (t_enter _ 1%nat).
    thread_step t_cancel.
    thread_step t_leave.
    thread_step (t_choose _ 1%nat [] [] 0%nat 0%nat).
    thread_step (t_acquire _ 1%nat 0%nat).
    apply rtc_refl.
  - reflexivity.
  - intros H. apply (H 0%nat 1%nat 0%nat); [lia|reflexivity|reflexivity].
  - thread_step t_spawn.
    thread_step (t_enter _ 0%nat).
    thread_step (t_choose _ 0%nat [] [] 0%nat 0%nat).
    thread_step (t_acquire _ 0%nat 0%nat).
    thread_step t_cancel.
    thread_step t_leave.
    thread_step t_again.
    thread_step t_spawn.
    thread_step (t_enter _ 1%nat).
    thread_step (t_choose _ 1%nat [] [] 0%nat 0%nat).
    thread_step (t_acquire _ 1%nat 0%nat).
    apply rtc_refl.
  - reflexivity.
  - intros H. apply (H 0%nat 1%nat 0%nat); [lia|reflexivity|reflexivity].
Qed.

(** C9, amended.  In a dispatch loop that starts while no worker is
    between [acquire()] and its [finally] clause, as the first loop of a
    downloader does, and as long as the coordinating thread stays in
    this loop: no two workers are between [acquire()] and their
    [finally] clause with the same proxy, and the lock of a proxy in use
    is locked. *)
Theorem exclusive_in_loop (c0 c : threads) :
  t_in_loop c0 = true -> quiet c0 ->
  rtc loop_step c0 c ->
  exclusive c /\ held_locked c.
Proof.
  intros Hin Hquiet Hsteps.
  apply (loop_steps_invariant c0 c Hsteps Hin).
  split.
  - intros i j p _ Hi _. exact (Hquiet i p Hi).
  - intros i p Hi. destruct (Hquiet i p Hi).
Qed.

Lemma exclusive_in_loop_witness : exclusive one_holder /\ held_locked one_holder.
Proof.
  apply (exclusive_in_loop (t_init [false; false] []) one_holder).
  - reflexivity.
  - intros i p Hi. destruct i; discriminate.
  - loop_thread_step t_spawn. loop_thread_step t_spawn.
    loop_thread_step (t_enter _ 0%nat).
    loop_thread_step (t_choose _ 0%nat [] [] 0%nat 0%nat).
    loop_thread_step (t_acquire _ 0%nat 0%nat).
    loop_thread_step (t_enter _ 1%nat).
    apply rtc_refl.
Defined.

(** * Further properties of the code *)

(** ** Text of numbers *)

Lemma chars_app (a b : string) :
  list_ascii_of_string (a ++ b)
  = (list_ascii_of_string a ++ list_ascii_of_string b)%list.
Proof.
  induction a as [|c a IH]; [reflexivity|].
  rewrite append_cons. cbn [list_ascii_of_string]. now rewrite IH.
Qed.

Lemma span_app (p : ascii -> bool) (l rest : list ascii) :
  Forall (fun c => p c = true) l ->
  match rest with [] => True | c :: _ => p c = false end ->
  Py.span p (l ++ rest) = (l, rest).
Proof.
  intros Hl Hr. induction Hl as [|c l Hc _ IH]; cbn.
  - destruct rest as [|c r]; [reflexivity|]. cbn. now rewrite Hr.
  - now rewrite Hc, IH.
Qed.

Lemma span_all (p : ascii -> bool) (l : list ascii) :
  Forall (fun c => p c = true) (fst (Py.span p l)).
Proof.
  induction l as [|c l IH]; cbn; [constructor|].
  destruct (p c) eqn:E; [|constructor].
  destruct (Py.span p l). cbn in *. now constructor.
Qed.

Lemma uint_chars_digits (d : Decimal.uint) :
  Forall (fun c => Py.is_digit c = true)
    (list_ascii_of_string (NilEmpty.string_of_uint d)).
Proof. induction d; cbn; constructor; auto. Qed.

Lemma uint_chars_val (d : Decimal.uint) :
  forall d' : Decimal.uint,
    fold_left (fun acc c => 10 * acc + Py.digit_val c)
      (list_ascii_of_string (NilEmpty.string_of_uint d))
      (Z.of_N (Unsigned.of_lu d'))
    = Z.of_N (Unsigned.of_lu (Decimal.revapp d d')).
Proof.
  induction d; intros d'; cbn [NilEmpty.string_of_uint list_ascii_of_string
                              fold_left Decimal.revapp];
    try reflexivity; rewrite <- IHd; f_equal;
    cbn [Unsigned.of_lu]; rewrite ?N2Z.inj_add, ?N2Z.inj_mul;
    unfold Py.digit_val; vm_compute nat_of_ascii; lia.
Qed.

Lemma str_chars (n : Z) :
  0 <= n ->
  let l := list_ascii_of_string (Py.str n) in
  Forall (fun c => Py.is_digit c = true) l
  /\ l <> []
  /\ Py.digits_val l = n.
Proof.
  intros Hn. destruct n as [|p|p]; [| |lia].
  - cbn. repeat split; [repeat constructor|discriminate].
  - unfold Py.str. cbn [Z.to_int NilZero.string_of_int].
    pose proof (Unsigned.to_uint_nonnil p) as Hnil.
    unfold NilZero.string_of_uint.
    destruct (Pos.to_uint p) as [|d|d|d|d|d|d|d|d|d|d] eqn:E;
      try contradiction; rewrite <- E; (split; [apply uint_chars_digits|]);
      (split; [rewrite E; discriminate|]);
      unfold Py.digits_val;
      pose proof (uint_chars_val (Pos.to_uint p) Decimal.Nil) as H;
      change (Decimal.revapp (Pos.to_uint p) Decimal.Nil)
        with (Decimal.rev (Pos.to_uint p)) in H;
      rewrite <- Unsigned.of_uint_alt, Unsigned.of_to in H; exact H.
Qed.

Lemma digit_not_space (c : ascii) :
  Py.is_digit c = true -> Py.is_space c = false.
Proof.
  destruct c as [[] [] [] [] [] [] [] []]; vm_compute; congruence.
Qed.

Lemma alpha_not_space (c : ascii) :
  Py.is_alpha c = true -> Py.is_space c = false.
Proof.
  destruct c as [[] [] [] [] [] [] [] []]; vm_compute; congruence.
Qed.

Lemma alpha_not_number (c : ascii) :
  Py.is_alpha c = true -> Py.is_digit c || Ascii.eqb c "." = false.
Proof.
  destruct c as [[] [] [] [] [] [] [] []]; vm_compute; congruence.
Qed.

Lemma upper_alpha (c : ascii) :
  Py.is_alpha (Py.upper_char c) = true -> Py.is_alpha c = true.
Proof.
  destruct c as [[] [] [] [] [] [] [] []]; vm_compute; congruence.
Qed.

Lemma lstrip_id (l : list ascii) :
  match l with [] => True | c :: _ => Py.is_space c = false end ->
  Py.lstrip l = l.
Proof.
  destruct l as [|c r]; [reflexivity|]. intros H.
  unfold Py.lstrip. cbn. now rewrite H.
Qed.

Lemma strip_id (s : string) :
  Forall (fun c => Py.is_space c = false) (list_ascii_of_string s) ->
  Py.strip s = s.
Proof.
  intros H. unfold Py.strip.
  rewrite (lstrip_id (list_ascii_of_string s)).
  - rewrite lstrip_id.
    + now rewrite rev_involutive, string_of_list_ascii_of_string.
    + apply Forall_rev in H. destruct H; [exact I|assumption].
  - destruct H; [exact I|assumption].
Qed.

Lemma trunc_int (x : Q) (z : Z) : (x == inject_Z z)%Q -> Py.trunc x = z.
Proof.
  unfold Py.trunc, Qeq, inject_Z. cbn [Qnum Qden]. intros H.
  rewrite Z.mul_1_r in H. rewrite H. apply Z.quot_mul. lia.
Qed.

Lemma chars_length (s : string) :
  length (list_ascii_of_string s) = String.length s.
Proof. induction s as [|c s IH]; cbn; congruence. Qed.

(** What the pattern of [parse_size] makes of a decimal number followed
    by at most three letters. *)
Lemma size_regex_number_unit (n : Z) (u : string) :
  0 <= n ->
  Forall (fun c => Py.is_alpha c = true) (list_ascii_of_string u) ->
  (String.length u <= 3)%nat ->
  size_regex (Py.strip (Py.str n ++ u))
  = Some (list_ascii_of_string (Py.str n), u).
Proof.
  intros Hn Hu Hlen.
  destruct (str_chars n Hn) as (Hd & Hne & _).
  rewrite strip_id.
  2:{ rewrite chars_app. apply Forall_app. split.
      - eapply Forall_impl; [exact Hd|]. apply digit_not_space.
      - eapply Forall_impl; [exact Hu|]. apply alpha_not_space. }
  unfold size_regex. rewrite chars_app.
  rewrite (span_app _ (list_ascii_of_string (Py.str n))).
  2:{ eapply Forall_impl; [exact Hd|]. intros c Hc. cbn in Hc. now rewrite Hc. }
  2:{ destruct Hu as [|c r Hc _]; [exact I|]. now apply alpha_not_number. }
  rewrite (span_app _ [] (list_ascii_of_string u)); [|constructor|].
  2:{ destruct Hu as [|c r Hc _]; [exact I|]. now apply alpha_not_space. }
  destruct (list_ascii_of_string (Py.str n)) as [|c r] eqn:E; [contradiction|].
  assert (Hall : forallb Py.is_alpha (list_ascii_of_string u) = true).
  { apply forallb_forall. intros x Hx. rewrite Forall_forall in Hu.
    apply Hu. now apply list_elem_of_In. }
  rewrite Hall.
  assert (Hl : (length (list_ascii_of_string u) <=? 3)%nat = true).
  { apply Nat.leb_le. now rewrite chars_length. }
  rewrite Hl. cbn. now rewrite string_of_list_ascii_of_string.
Qed.

Lemma float_of_digits (fl : Q -> Q) (n : Z) :
  0 <= n ->
  Py.float_of_string fl (list_ascii_of_string (Py.str n))
  = Ok (fl (inject_Z n)).
Proof.
  intros Hn. destruct (str_chars n Hn) as (Hd & Hne & Hv).
  unfold Py.float_of_string.
  rewrite <- (app_nil_r (list_ascii_of_string (Py.str n))) at 1.
  rewrite span_app; [|exact Hd|exact I].
  destruct (list_ascii_of_string (Py.str n)); [contradiction|].
  now rewrite Hv.
Qed.

(** The keys of the unit table are letters, three at most. *)
Lemma unit_key_letters (u : string) (mult : Z) :
  dict_get size_units (Py.upper u) = Ok mult ->
  Forall (fun c => Py.is_alpha c = true) (list_ascii_of_string u)
  /\ (String.length u <= 3)%nat
  /\ 1 <= mult <= 2 ^ 40.
Proof.
  unfold size_units. cbn [dict_get].
  assert (Hk : forall k : string,
    forallb Py.is_alpha (list_ascii_of_string k) = true ->
    (String.length k <= 3)%nat ->
    String.eqb k (Py.upper u) = true ->
    Forall (fun c => Py.is_alpha c = true) (list_ascii_of_string u)
    /\ (String.length u <= 3)%nat).
  { intros k Hk Hl E. apply String.eqb_eq in E. subst k.
    unfold Py.upper in *.
    rewrite list_ascii_of_string_of_list_ascii in Hk.
    rewrite <- chars_length, list_ascii_of_string_of_list_ascii, length_map,
      chars_length in Hl.
    split; [|exact Hl].
    rewrite forallb_forall in Hk. apply Forall_forall. intros c Hc.
    apply upper_alpha. apply Hk. apply in_map. now apply list_elem_of_In. }
  repeat match goal with
  | |- context [String.eqb ?k (Py.upper u)] =>
      destruct (String.eqb k (Py.upper u)) eqn:?;
        [intros [= <-];
         split; [eapply Hk; [| |eassumption]; [reflexivity|cbn; lia]|];
         split; [eapply Hk; [| |eassumption]; [reflexivity|cbn; lia]|lia]|]
  end.
  discriminate.
Qed.

Section ParseSize.
Variable fl : Q -> Q.
Hypothesis Hfl : Py.Rounding fl.

Lemma fmul_ints (a b : Z) :
  Z.abs a <= 2 ^ 53 -> Z.abs b <= 2 ^ 53 -> Z.abs (a * b) <= 2 ^ 53 ->
  (Py.fmul fl (fl (inject_Z a)) (Py.of_int fl b) == inject_Z (a * b))%Q.
Proof.
  intros Ha Hb Hab. unfold Py.fmul, Py.of_int.
  rewrite <- (Py.fl_int fl Hfl (a * b) Hab).
  apply (fl_proper fl Hfl).
  rewrite (Py.fl_int fl Hfl a Ha), (Py.fl_int fl Hfl b Hb).
  now rewrite inject_Z_mult.
Qed.

(** A whole number followed by letters goes to the unit lookup with the
    letters in upper case. *)
Lemma parse_size_number_unit (n : Z) (u : string) :
  0 <= n ->
  Forall (fun c => Py.is_alpha c = true) (list_ascii_of_string u) ->
  (String.length u <= 3)%nat ->
  parse_size fl (Py.str n ++ u)
  = mult ← dict_get size_units (Py.upper u);
    Ok (Py.trunc (Py.fmul fl (fl (inject_Z n)) (Py.of_int fl mult))).
Proof.
  intros Hn Ha Hl.
  unfold parse_size. rewrite (size_regex_number_unit n u Hn Ha Hl).
  now rewrite (float_of_digits fl n Hn).
Qed.

(** X1. [parse_size] reads a whole number [n] written in decimal and
    followed directly by a unit of the table, in any letter case, as [n]
    times the unit's multiplier, as long as the product does not exceed
    2^53. *)
Theorem parse_size_unit (n : Z) (u : string) (mult : Z) :
  0 <= n -> dict_get size_units (Py.upper u) = Ok mult ->
  n * mult <= 2 ^ 53 ->
  parse_size fl (Py.str n ++ u) = Ok (n * mult).
Proof.
  intros Hn Hu Hb.
  destruct (unit_key_letters u mult Hu) as (Ha & Hl & Hm).
  rewrite (parse_size_number_unit n u Hn Ha Hl), Hu. cbn [mbind res_bind].
  f_equal. apply trunc_int, fmul_ints; nia.
Qed.

(** X2. A whole number followed by one to three letters that are not a
    unit of the table makes [parse_size] raise [KeyError], not the
    [ValueError] of a text that does not match. *)
Theorem parse_size_unknown_unit (n : Z) (u : string) :
  0 <= n ->
  Forall (fun c => Py.is_alpha c = true) (list_ascii_of_string u) ->
  (String.length u <= 3)%nat ->
  dict_get size_units (Py.upper u) = Raise KeyError ->
  parse_size fl (Py.str n ++ u) = Raise KeyError.
Proof.
  intros Hn Ha Hl Hu.
  now rewrite (parse_size_number_unit n u Hn Ha Hl), Hu.
Qed.

End ParseSize.

Lemma parse_size_unit_witness :
  parse_size Py.b64 (Py.str 20 ++ "mb") = Ok (20 * 1024 ^ 2).
Proof.
  apply (parse_size_unit Py.b64 b64_Rounding 20 "mb" (1024 ^ 2)).
  - lia.
  - reflexivity.
  - vm_compute. discriminate.
Defined.

Lemma parse_size_unknown_unit_witness :
  parse_size Py.b64 (Py.str 5 ++ "XB") = Raise KeyError.
Proof.
  apply (parse_size_unknown_unit Py.b64 5 "XB").
  - lia.
  - repeat constructor.
  - cbn. lia.
  - reflexivity.
Defined.

Lemma digit_val_nonneg (c : ascii) :
  Py.is_digit c = true -> 0 <= Py.digit_val c.
Proof.
  unfold Py.is_digit, Py.digit_val. intros H.
  apply andb_true_iff in H as [H _]. apply Nat.leb_le in H. lia.
Qed.

Lemma digits_val_nonneg (l : list ascii) :
  Forall (fun c => Py.is_digit c = true) l -> 0 <= Py.digits_val l.
Proof.
  unfold Py.digits_val. intros H.
  assert (G : forall acc, 0 <= acc ->
    0 <= fold_left (fun acc c => 10 * acc + Py.digit_val c) l acc).
  { induction H as [|c l Hc _ IH]; intros acc Hacc; cbn; [exact Hacc|].
    apply IH. pose proof (digit_val_nonneg c Hc). lia. }
  apply G. lia.
Qed.

Lemma float_of_string_nonneg (fl : Q -> Q) (l : list ascii) (q : Q) :
  Py.Rounding fl -> Py.float_of_string fl l = Ok q -> (0 <= q)%Q.
Proof.
  intros Hfl. unfold Py.float_of_string.
  pose proof (span_all Py.is_digit l) as Hip.
  destruct (Py.span Py.is_digit l) as [ip rest]. cbn [fst] in Hip.
  destruct rest as [|c r].
  - destruct ip; [discriminate|]. intros [= <-].
    apply (fl_nonneg fl Hfl). change 0%Q with (inject_Z 0).
    rewrite <- Zle_Qle. now apply digits_val_nonneg.
  - pose proof (span_all Py.is_digit r) as Hfp.
    destruct (Py.span Py.is_digit r) as [fp rest']. cbn [fst] in Hfp.
    destruct (_ && _); [|discriminate]. intros [= <-].
    apply (fl_nonneg fl Hfl). unfold Qle. cbn [Qnum Qden].
    rewrite Z.mul_0_l, Z.mul_1_r.
    apply digits_val_nonneg. apply Forall_app. now split.
Qed.

Lemma size_units_pos (k : string) (u : Z) :
  dict_get size_units k = Ok u -> 1 <= u.
Proof.
  unfold size_units. cbn [dict_get].
  repeat match goal with
  | |- context [String.eqb ?a k] =>
      destruct (String.eqb a k); [intros [= <-]; lia|]
  end.
  discriminate.
Qed.

(** X3. Whatever text [parse_size] accepts, the number of bytes it
    returns is not negative: the pattern has no sign, and the units are
    positive. *)
Theorem parse_size_nonneg (fl : Q -> Q) (size : string) (v : Z) :
  Py.Rounding fl -> parse_size fl size = Ok v -> 0 <= v.
Proof.
  intros Hfl. unfold parse_size.
  destruct (size_regex (Py.strip size)) as [[g1 g2]|]; [|discriminate].
  destruct (Py.float_of_string fl g1) as [number|] eqn:En; [|discriminate].
  cbn [mbind res_bind].
  destruct (dict_get size_units (Py.upper g2)) as [u|] eqn:Eu; [|discriminate].
  cbn [mbind res_bind]. intros [= <-].
  apply float_of_string_nonneg in En; [|exact Hfl].
  apply size_units_pos in Eu.
  assert (H : (0 <= Py.fmul fl number (Py.of_int fl u))%Q).
  { unfold Py.fmul, Py.of_int. apply (fl_nonneg fl Hfl).
    apply Qmult_le_0_compat; [exact En|].
    apply (fl_nonneg fl Hfl). change 0%Q with (inject_Z 0).
    rewrite <- Zle_Qle. lia. }
  unfold Py.trunc. apply Z.quot_pos; [|lia].
  unfold Qle in H. cbn in H. lia.
Qed.

Lemma parse_size_nonneg_witness :
  parse_size Py.b64 " 1.5 kb " = Ok 1536 /\ 0 <= 1536.
Proof.
  assert (E : parse_size Py.b64 " 1.5 kb " = Ok 1536)
    by (vm_compute; reflexivity).
  split; [exact E|].
  exact (parse_size_nonneg Py.b64 " 1.5 kb " 1536 b64_Rounding E).
Defined.

(** ** [human_readable_bytes] *)

Lemma append_assoc (a b c : string) : ((a ++ b) ++ c = a ++ (b ++ c))%string.
Proof.
  induction a as [|x a IH]; [reflexivity|].
  rewrite !append_cons. now rewrite IH.
Qed.

Lemma rhe_div_eq (n1 d1 n2 d2 : Z) :
  0 < d1 -> 0 < d2 -> n1 * d2 = n2 * d1 ->
  Py.rhe_div n1 d1 = Py.rhe_div n2 d2.
Proof.
  intros H1 H2 E. apply Z.le_antisymm; apply rhe_div_mono; lia.
Qed.

Lemma format_3f_int (x : Q) (k : Z) :
  (x == inject_Z k)%Q -> 0 <= k ->
  Py.format_3f x = Py.str k ++ ".000".
Proof.
  intros E Hk. unfold Qeq, inject_Z in E. cbn [Qnum Qden] in E.
  rewrite Z.mul_1_r in E.
  unfold Py.format_3f.
  rewrite (rhe_div_eq _ _ (k * 1000) 1) by nia.
  change (Py.rhe_div (k * 1000) 1) with (Py.round_half_even (inject_Z (k * 1000))).
  rewrite round_half_even_int.
  assert (Hs : (Qnum x <? 0) = false) by (apply Z.ltb_ge; nia).
  rewrite Hs, Z.abs_eq by lia.
  rewrite Z.div_mul, Z.mod_mul by lia. reflexivity.
Qed.

Section HumanReadable.
Variable fl : Q -> Q.
Hypothesis Hfl : Py.Rounding fl.

Lemma human_readable_loop_multiple (k : Z) :
  0 <= k < 1024 ->
  forall (j : nat) (units : list string) (value : Q),
    (j < length units)%nat -> ((0 < j)%nat -> 1 <= k) ->
    k * 1024 ^ Z.of_nat j <= 2 ^ 53 ->
    (value == inject_Z (k * 1024 ^ Z.of_nat j))%Q ->
    human_readable_loop fl units value
    = Py.str k ++ ".000 " ++ nth j units "PB".
Proof.
  intros Hk. induction j as [|j IH]; intros units value Hj Hpos Hb Hv;
    destruct units as [|unit r]; cbn [length] in Hj; try lia;
    cbn [human_readable_loop nth].
  - rewrite Z.mul_1_r in Hv.
    destruct (Qlt_le_dec value 1024) as [_|Hge].
    + rewrite (format_3f_int value k Hv) by lia.
      now rewrite append_assoc.
    + exfalso. rewrite Hv in Hge. change 1024%Q with (inject_Z 1024) in Hge.
      rewrite <- Zle_Qle in Hge. lia.
  - assert (Hk1 : 1 <= k) by (apply Hpos; lia).
    assert (Hpow : 0 < 1024 ^ Z.of_nat j) by (apply Z.pow_pos_nonneg; lia).
    assert (E : 1024 ^ Z.of_nat (S j) = 1024 * 1024 ^ Z.of_nat j).
    { rewrite Nat2Z.inj_succ, Z.pow_succ_r by lia. reflexivity. }
    rewrite E in Hv, Hb.
    destruct (Qlt_le_dec value 1024) as [Hlt|_].
    + exfalso. rewrite Hv in Hlt. change 1024%Q with (inject_Z 1024) in Hlt.
      rewrite <- Zlt_Qlt in Hlt. nia.
    + apply IH; try lia.
      unfold Py.fdiv.
      rewrite <- (Py.fl_int fl Hfl (k * 1024 ^ Z.of_nat j)) by (rewrite Z.abs_eq; nia).
      apply (fl_proper fl Hfl). rewrite Hv.
      replace (k * (1024 * 1024 ^ Z.of_nat j))
        with (k * 1024 ^ Z.of_nat j * 1024) by ring.
      rewrite inject_Z_mult. change (inject_Z 1024) with 1024%Q. field.
Qed.

Lemma multiple_bound (j : nat) (k : Z) :
  (j <= 4)%nat -> 0 <= k < 1024 ->
  0 <= k * 1024 ^ Z.of_nat j <= 2 ^ 53.
Proof.
  intros Hj Hk.
  assert (1024 ^ Z.of_nat j <= 1024 ^ 4) by (apply Z.pow_le_mono_r; lia).
  assert (0 < 1024 ^ Z.of_nat j) by (apply Z.pow_pos_nonneg; lia).
  change (1024 ^ 4) with 1099511627776 in *.
  change (2 ^ 53) with 9007199254740992. nia.
Qed.

(** The float that [human_readable_bytes] starts from. *)
Lemma float_of_multiple (j : nat) (k : Z) :
  (j <= 4)%nat -> 0 <= k < 1024 ->
  (Py.of_int fl (k * 1024 ^ Z.of_nat j)
   == inject_Z (k * 1024 ^ Z.of_nat j))%Q.
Proof.
  intros Hj Hk. apply (Py.fl_int fl Hfl).
  pose proof (multiple_bound j k Hj Hk). rewrite Z.abs_eq; lia.
Qed.

(** X4. For a size of [k] times the [j]-th power of 1024, with [k]
    below 1024 (and positive unless [j] is 0) and [j] at most 4,
    [human_readable_bytes] prints [k] with three zero decimals and the
    [j]-th unit: bytes, KB, MB, GB, TB. *)
Theorem human_readable_bytes_multiple (j : nat) (k : Z) :
  (j <= 4)%nat -> 0 <= k < 1024 -> ((0 < j)%nat -> 1 <= k) ->
  human_readable_bytes fl (k * 1024 ^ Z.of_nat j)
  = Py.str k ++ ".000 " ++ unit_name j.
Proof.
  intros Hj Hk Hpos. unfold human_readable_bytes, unit_name.
  pose proof (multiple_bound j k Hj Hk) as Hb.
  apply human_readable_loop_multiple; try assumption.
  - cbn. lia.
  - lia.
  - now apply float_of_multiple.
Qed.

End HumanReadable.

Lemma human_readable_bytes_multiple_witness :
  human_readable_bytes Py.b64 (20 * 1024 ^ Z.of_nat 2) = "20.000 MB".
Proof.
  apply (human_readable_bytes_multiple Py.b64 b64_Rounding 2 20); lia.
Defined.

(** ** Reading back what [human_readable_bytes] prints *)

Lemma strip_ends (s : string) :
  match list_ascii_of_string s with
  | [] => True | c :: _ => Py.is_space c = false end ->
  match rev (list_ascii_of_string s) with
  | [] => True | c :: _ => Py.is_space c = false end ->
  Py.strip s = s.
Proof.
  intros H1 H2. unfold Py.strip.
  rewrite (lstrip_id (list_ascii_of_string s) H1), (lstrip_id _ H2).
  now rewrite rev_involutive, string_of_list_ascii_of_string.
Qed.

Lemma digits_val_app000 (l : list ascii) :
  Py.digits_val (l ++ list_ascii_of_string "000") = Py.digits_val l * 1000.
Proof.
  unfold Py.digits_val. rewrite fold_left_app.
  cbn [list_ascii_of_string fold_left]. unfold Py.digit_val.
  change (Z.of_nat (nat_of_ascii "0")) with 48. lia.
Qed.

Lemma float_of_decimal (fl : Q -> Q) (ip fp : list ascii) :
  Forall (fun c => Py.is_digit c = true) ip ->
  Forall (fun c => Py.is_digit c = true) fp ->
  ip <> [] ->
  Py.float_of_string fl (ip ++ "."%char :: fp)
  = Ok (fl (Qmake (Py.digits_val (ip ++ fp))
                  (Z.to_pos (10 ^ Z.of_nat (length fp))))).
Proof.
  intros Hi Hf Hne. unfold Py.float_of_string.
  rewrite (span_app _ ip); [|exact Hi|reflexivity].
  rewrite <- (app_nil_r fp) at 1.
  rewrite (span_app _ fp); [|exact Hf|exact I].
  destruct ip; [contradiction|]. reflexivity.
Qed.

Section ReadBack.
Variable fl : Q -> Q.
Hypothesis Hfl : Py.Rounding fl.

Lemma fmul_whole (x : Q) (a b : Z) :
  (x == inject_Z a)%Q ->
  Z.abs b <= 2 ^ 53 -> Z.abs (a * b) <= 2 ^ 53 ->
  (Py.fmul fl x (Py.of_int fl b) == inject_Z (a * b))%Q.
Proof.
  intros Hx Hb Hab. unfold Py.fmul, Py.of_int.
  rewrite <- (Py.fl_int fl Hfl (a * b) Hab).
  apply (fl_proper fl Hfl).
  rewrite Hx, (Py.fl_int fl Hfl b Hb). now rewrite inject_Z_mult.
Qed.

Lemma parse_size_three_decimals (k : Z) (u : string) (mult : Z) :
  0 <= k <= 2 ^ 53 -> u <> EmptyString ->
  dict_get size_units (Py.upper u) = Ok mult ->
  k * mult <= 2 ^ 53 ->
  parse_size fl (Py.str k ++ ".000 " ++ u) = Ok (k * mult).
Proof.
  intros Hk Hne Hu Hb.
  destruct (unit_key_letters u mult Hu) as (Ha & Hl & Hm).
  destruct (str_chars k ltac:(lia)) as (Hd & Hnil & Hv).
  set (ds := list_ascii_of_string (Py.str k)) in *.
  set (lu := list_ascii_of_string u) in *.
  assert (Hlu : lu <> []).
  { intros E. apply Hne. rewrite <- (string_of_list_ascii_of_string u).
    fold lu. now rewrite E. }
  assert (Hchars : list_ascii_of_string (Py.str k ++ ".000 " ++ u)
                   = ((ds ++ list_ascii_of_string ".000") ++ [" "%char] ++ lu)%list).
  { rewrite !chars_app. fold ds lu. cbn. now rewrite <- !app_assoc. }
  unfold parse_size. rewrite strip_ends.
  2:{ rewrite Hchars. destruct ds as [|c r]; [contradiction|].
      cbn. apply digit_not_space. now inversion Hd. }
  2:{ rewrite Hchars, !rev_app_distr.
      destruct (rev lu) as [|c r] eqn:E.
      - apply (f_equal (@rev ascii)) in E. rewrite rev_involutive in E.
        contradiction.
      - cbn. apply alpha_not_space.
        assert (Hin : In c (rev lu)) by (rewrite E; now left).
        apply in_rev in Hin. rewrite Forall_forall in Ha. apply Ha.
        now apply list_elem_of_In. }
  unfold size_regex. rewrite Hchars.
  rewrite (span_app _ (ds ++ list_ascii_of_string ".000")).
  2:{ apply Forall_app. split.
      - eapply Forall_impl; [exact Hd|]. intros c Hc. cbn in Hc. now rewrite Hc.
      - repeat constructor. }
  2:{ reflexivity. }
  rewrite (span_app _ [" "%char] lu); [|repeat constructor|].
  2:{ destruct lu as [|c r]; [exact I|]. apply alpha_not_space. now inversion Ha. }
  destruct (ds ++ list_ascii_of_string ".000")%list as [|c0 r0] eqn:E0.
  { destruct ds; discriminate. }
  rewrite <- E0.
  assert (Hall : forallb Py.is_alpha lu = true).
  { apply forallb_forall. intros x Hx. rewrite Forall_forall in Ha.
    apply Ha. now apply list_elem_of_In. }
  assert (Hlen : (length lu <=? 3)%nat = true).
  { apply Nat.leb_le. unfold lu. now rewrite chars_length. }
  rewrite Hall, Hlen. cbn [andb].
  unfold lu at 1. rewrite string_of_list_ascii_of_string.
  (* the number *)
  assert (Hnum : Py.float_of_string fl (ds ++ list_ascii_of_string ".000")
                 = Ok (fl (Qmake (k * 1000) 1000))).
  { change (list_ascii_of_string ".000")
      with ("."%char :: list_ascii_of_string "000").
    rewrite float_of_decimal; [|exact Hd|repeat constructor|exact Hnil].
    rewrite digits_val_app000, Hv. reflexivity. }
  rewrite Hnum. cbn [mbind res_bind]. rewrite Hu. cbn [mbind res_bind].
  f_equal. apply trunc_int. apply fmul_whole; try (rewrite Z.abs_eq; nia).
  rewrite <- (Py.fl_int fl Hfl k) by (rewrite Z.abs_eq; lia).
  apply (fl_proper fl Hfl). unfold Qeq, inject_Z. cbn. lia.
Qed.

(** The word that [human_readable_bytes] prints for sizes below 1024
    is no unit of [parse_size]: it has five letters. *)
Lemma parse_size_bytes_word (k : Z) :
  0 <= k -> parse_size fl (Py.str k ++ ".000 " ++ "bytes") = Raise ValueError.
Proof.
  intros Hk.
  destruct (str_chars k Hk) as (Hd & Hnil & _).
  set (ds := list_ascii_of_string (Py.str k)) in *.
  assert (Hchars : list_ascii_of_string (Py.str k ++ ".000 " ++ "bytes")
                   = ((ds ++ list_ascii_of_string ".000")
                      ++ [" "%char] ++ list_ascii_of_string "bytes")%list).
  { rewrite !chars_app. fold ds. cbn. now rewrite <- !app_assoc. }
  unfold parse_size. rewrite strip_ends.
  2:{ rewrite Hchars. destruct ds as [|c r]; [contradiction|].
      cbn. apply digit_not_space. now inversion Hd. }
  2:{ rewrite Hchars, !rev_app_distr. reflexivity. }
  unfold size_regex. rewrite Hchars.
  rewrite (span_app _ (ds ++ list_ascii_of_string ".000")).
  2:{ apply Forall_app. split.
      - eapply Forall_impl; [exact Hd|]. intros c Hc. cbn in Hc. now rewrite Hc.
      - repeat constructor. }
  2:{ reflexivity. }
  rewrite (span_app _ [" "%char] (list_ascii_of_string "bytes"));
    [|repeat constructor|reflexivity].
  destruct (ds ++ list_ascii_of_string ".000")%list; reflexivity.
Qed.

(** X5. For the sizes of X4, [parse_size] reads the text that
    [human_readable_bytes] prints back as the same number of bytes when
    the unit is KB, MB, GB or TB; below 1024 bytes the printed text is
    rejected with [ValueError]. *)
Theorem parse_size_reads_back (j : nat) (k : Z) :
  (j <= 4)%nat -> 0 <= k < 1024 -> ((0 < j)%nat -> 1 <= k) ->
  parse_size fl (human_readable_bytes fl (k * 1024 ^ Z.of_nat j))
  = match j with
    | O => Raise ValueError
    | _ => Ok (k * 1024 ^ Z.of_nat j)
    end.
Proof.
  intros Hj Hk Hpos. unfold human_readable_bytes.
  pose proof (multiple_bound j k Hj Hk) as Hb.
  rewrite (human_readable_loop_multiple fl Hfl k Hk j);
    [|cbn; lia|exact Hpos|lia|now apply float_of_multiple].
  destruct j as [|[|[|[|[|j]]]]]; try lia; cbn [nth].
  - apply parse_size_bytes_word. lia.
  - apply parse_size_three_decimals; try discriminate; try reflexivity;
      cbn; lia.
  - apply parse_size_three_decimals; try discriminate; try reflexivity;
      cbn; lia.
  - apply parse_size_three_decimals; try discriminate; try reflexivity;
      cbn; lia.
  - apply parse_size_three_decimals; try discriminate; try reflexivity;
      cbn; lia.
Qed.

End ReadBack.

Lemma parse_size_reads_back_witness :
  parse_size Py.b64 (human_readable_bytes Py.b64 (20 * 1024 ^ Z.of_nat 2))
  = Ok (20 * 1024 ^ Z.of_nat 2)
  /\ parse_size Py.b64 (human_readable_bytes Py.b64 (512 * 1024 ^ Z.of_nat 0))
     = Raise ValueError.
Proof.
  split.
  - apply (parse_size_reads_back Py.b64 b64_Rounding 2 20); lia.
  - apply (parse_size_reads_back Py.b64 b64_Rounding 0 512); lia.
Defined.

(** ** The URL cache *)

(** X6. After [_cache_urls] has stored the URLs of a file identifier,
    [_load_cached_urls] returns them for that identifier, and returns
    for every other identifier what it returned before. *)
Theorem cache_urls_then_load (cache cache' : option cache_file)
    (file_id : string) (urls : list string) :
  _cache_urls cache file_id urls = Ok cache' ->
  _load_cached_urls cache' file_id = urls
  /\ (forall other, other <> file_id ->
        _load_cached_urls cache' other = _load_cached_urls cache other).
Proof.
  unfold _cache_urls, _load_cached_urls.
  destruct cache as [[m| |]|]; cbn; try discriminate; intros [= <-];
    (split; [now rewrite lookup_insert_eq|]); intros other Hne;
    rewrite lookup_insert_ne by congruence; try reflexivity.
Qed.

Lemma cache_urls_then_load_witness :
  let cache' := Some (JsonDict (<["abc" := ["u1"; "u2"]]> ∅)) in
  _load_cached_urls cache' "abc" = ["u1"; "u2"]
  /\ (forall other, other <> "abc" ->
        _load_cached_urls cache' other = _load_cached_urls (Some NotJson) other).
Proof.
  apply (cache_urls_then_load (Some NotJson) _ "abc" ["u1"; "u2"]).
  reflexivity.
Defined.

(** ** [extract_file_id] *)

Lemma lazy_id_app (id tail : list ascii) :
  Forall (fun c => id_char c = true) id ->
  match tail with [] => True | c :: _ => c = "?"%char \/ c = "/"%char end ->
  lazy_id (id ++ tail) = Some id.
Proof.
  intros Hid Ht. induction Hid as [|c id Hc _ IH]; cbn.
  - destruct tail as [|c r]; [reflexivity|]. cbn.
    destruct Ht as [->| ->]; reflexivity.
  - unfold id_char in Hc. apply negb_true_iff in Hc.
    apply orb_false_iff in Hc as [Hc Hn]. rewrite Hc, Hn, IH. reflexivity.
Qed.

Lemma lazy_id_clean (l id : list ascii) :
  lazy_id l = Some id -> Forall (fun c => id_char c = true) id.
Proof.
  revert id. induction l as [|c l IH]; intros id; cbn.
  - intros [= <-]. constructor.
  - destruct (Ascii.eqb c "?" || Ascii.eqb c "/") eqn:E1.
    { intros [= <-]. constructor. }
    destruct (Ascii.eqb c "010") eqn:E2.
    { destruct l; [|discriminate]. intros [= <-]. constructor. }
    destruct (lazy_id l) as [id'|]; [|discriminate].
    cbn. intros [= <-]. constructor; [|now apply IH].
    unfold id_char. now rewrite E1, E2.
Qed.

Lemma match_file_url_clean (l id : list ascii) :
  match_file_url l = Some id -> Forall (fun c => id_char c = true) id.
Proof.
  unfold match_file_url.
  destruct (starts_with _ l) as [l1|]; cbn [mbind option_bind]; [|discriminate].
  destruct (starts_with _ _) as [l3|]; cbn [mbind option_bind]; [|discriminate].
  destruct (_ ≫= lazy_id) as [id1|] eqn:E1.
  - intros [= <-]. apply bind_Some in E1 as (x & _ & E1).
    now apply lazy_id_clean in E1.
  - intros E2. apply bind_Some in E2 as (x & _ & E2).
    now apply lazy_id_clean in E2.
Qed.

(** X8. An identifier that [extract_file_id] returns holds no question
    mark, no slash and no line feed; it can be empty. *)
Theorem extract_file_id_clean (url id : string) :
  extract_file_id url = Ok id ->
  Forall (fun c => id_char c = true) (list_ascii_of_string id).
Proof.
  unfold extract_file_id.
  destruct (search_file_url (list_ascii_of_string url)) as [l|] eqn:E;
    [|discriminate].
  intros [= <-]. rewrite list_ascii_of_string_of_list_ascii.
  revert E. generalize (list_ascii_of_string url) as u.
  induction u as [|c u IH]; cbn [search_file_url].
  - destruct (match_file_url []) eqn:E; [|discriminate].
    intros [= <-]. now apply match_file_url_clean in E.
  - destruct (match_file_url (c :: u)) eqn:E.
    + intros [= <-]. now apply match_file_url_clean in E.
    + exact IH.
Qed.

Lemma extract_file_id_clean_witness :
  Forall (fun c => id_char c = true) (list_ascii_of_string "abc123")
  /\ extract_file_id "http://k2s.cc/file/?x" = Ok EmptyString.
Proof.
  split; [|reflexivity].
  apply (extract_file_id_clean "http://keep2share.cc/file/abc123/name.mp4").
  reflexivity.
Defined.

(** X7. From a URL made of the scheme http or https, the host k2s or
    keep2share, any character but a line feed where the dot stands, the
    path cc/file/, an identifier and a tail that is empty or begins with
    a question mark or a slash, [extract_file_id] returns the
    identifier. *)
Theorem extract_file_id_of_url (secure : bool) (host : string) (dot : ascii)
    (id tail : string) :
  host = "k2s" \/ host = "keep2share" ->
  dot <> "010"%char ->
  Forall (fun c => id_char c = true) (list_ascii_of_string id) ->
  match list_ascii_of_string tail with
  | [] => True
  | c :: _ => c = "?"%char \/ c = "/"%char
  end ->
  extract_file_id
    ((if secure then "https" else "http") ++ "://" ++ host
     ++ String dot "cc/file/" ++ id ++ tail)
  = Ok id.
Proof.
  intros Hhost Hdot Hid Htail. unfold extract_file_id.
  assert (Hd : Ascii.eqb dot "010" = false) by now apply Ascii.eqb_neq.
  assert (E : search_file_url
                (list_ascii_of_string
                   ((if secure then "https" else "http") ++ "://" ++ host
                    ++ String dot "cc/file/" ++ id ++ tail))
              = Some (list_ascii_of_string id)).
  { destruct secure, Hhost as [-> | ->];
      rewrite !chars_app; cbn [list_ascii_of_string app];
      unfold search_file_url, match_file_url;
      cbn [starts_with list_ascii_of_string Ascii.eqb Bool.eqb mbind option_bind
           any_char];
      rewrite ?Hd; cbn [starts_with list_ascii_of_string Ascii.eqb Bool.eqb
                        mbind option_bind any_char];
      rewrite (lazy_id_app _ _ Hid Htail); reflexivity. }
  rewrite E. now rewrite string_of_list_ascii_of_string.
Qed.

Lemma extract_file_id_of_url_witness :
  extract_file_id "https://k2s.cc/file/abc123?site=x" = Ok "abc123".
Proof.
  apply (extract_file_id_of_url true "k2s" "." "abc123" "?site=x").
  - now left.
  - discriminate.
  - repeat constructor.
  - now left.
Defined.

(** ** The range planner: sizes *)

Section PlannerSizes.
Variable fl : Q -> Q.
Hypothesis Hfl : Py.Rounding fl.
Variable total_value : Z.
Variable count : positive.
Hypothesis Htotal : 0 <= total_value.
Hypothesis Hsize : (total_value + 3) * Zpos count <= 2 ^ 49.

(** The rounded boundary [i * total_value / count]. *)
Let mark (i : Z) : Z := Py.rhe_div (i * total_value) (Zpos count).

Hypothesis Hties :
  forall i, 1 <= i < Zpos count -> ~ tie total_value (Zpos count) i.

Lemma no_tie_ends (i : Z) :
  i = 0 \/ i = Zpos count ->
  (2 * (i * total_value) + Zpos count) mod (2 * Zpos count) <> 0.
Proof.
  intros [-> | ->].
  - rewrite Z.mul_0_l, Z.mul_0_r, Z.add_0_l, Z.mod_small; lia.
  - replace (2 * (Zpos count * total_value) + Zpos count)
      with (Zpos count + total_value * (2 * Zpos count)) by ring.
    rewrite Z.mod_add, Z.mod_small; lia.
Qed.

Lemma no_tie (i : Z) :
  0 <= i <= Zpos count ->
  (2 * (i * total_value) + Zpos count) mod (2 * Zpos count) <> 0.
Proof.
  intros Hi.
  destruct (Z.eq_dec i 0) as [E|E]; [apply no_tie_ends; now left|].
  destruct (Z.eq_dec i (Zpos count)) as [E'|E']; [apply no_tie_ends; now right|].
  apply Hties. lia.
Qed.

Lemma planned_range (i : nat) :
  (i < Pos.to_nat count)%nat ->
  let c := snd (planned fl total_value (Zpos count) i) in
  chunk_start c = match i with O => 0 | _ => mark (Z.of_nat i) + 1 end
  /\ chunk_end c = mark (Z.of_nat i + 1)
  /\ bytes c = mark (Z.of_nat i + 1) - mark (Z.of_nat i)
               + match i with O => 1 | _ => 0 end.
Proof.
  intros Hi. unfold planned, chunk_start, chunk_end. cbn [snd fst range bytes].
  rewrite (range_start_value fl Hfl total_value count Htotal Hsize)
    by (try apply no_tie; lia).
  rewrite (range_end_value fl Hfl total_value count Htotal Hsize)
    by (try apply no_tie; lia).
  fold (mark (Z.of_nat i)) (mark (Z.of_nat i + 1)).
  repeat split. lia.
Qed.

Lemma mark_0 : mark 0 = 0.
Proof.
  unfold mark. rewrite Z.mul_0_l, <- (Z.mul_0_r (Zpos count)).
  apply (rhe_div_whole count).
Qed.

Lemma mark_count : mark (Zpos count) = total_value.
Proof. apply (rhe_div_whole count). Qed.

Lemma planned_bytes_prefix (m : nat) :
  (m <= Pos.to_nat count)%nat ->
  planned_bytes (map (planned fl total_value (Zpos count)) (seq 0 m))
  = match m with O => 0 | _ => mark (Z.of_nat m) + 1 end.
Proof.
  induction m as [|m IH]; intros Hm; [reflexivity|].
  rewrite seq_S, map_app. unfold planned_bytes in *.
  rewrite map_app, foldr_app. cbn [map foldr Nat.add].
  destruct (planned_range m ltac:(lia)) as (_ & _ & Hb). cbn zeta in Hb.
  rewrite Hb.
  assert (G : forall l a, foldr Z.add a l = foldr Z.add 0 l + a).
  { induction l as [|x l IHl]; intros a; cbn; [lia|]. rewrite IHl. lia. }
  rewrite G, IH by lia.
  replace (Z.of_nat m + 1) with (Z.of_nat (S m)) by lia.
  destruct m as [|m]; [change (Z.of_nat 0) with 0; rewrite mark_0|]; lia.
Qed.

Lemma planned_bytes_total :
  planned_bytes
    (map (planned fl total_value (Zpos count)) (seq 0 (Pos.to_nat count)))
  = total_value + 1.
Proof.
  rewrite planned_bytes_prefix by lia.
  destruct (Pos.to_nat count) eqn:E; [lia|]. rewrite <- E.
  rewrite positive_nat_Z. now rewrite mark_count.
Qed.

Lemma planned_balanced (i : nat) :
  (i < Pos.to_nat count)%nat ->
  let b := bytes (snd (planned fl total_value (Zpos count) i))
           - match i with O => 1 | _ => 0 end in
  total_value - Zpos count <= Zpos count * b <= total_value + Zpos count.
Proof.
  intros Hi. destruct (planned_range i Hi) as (_ & _ & Hb). cbn zeta in *.
  rewrite Hb. unfold mark.
  destruct (rhe_div_spec (Z.of_nat i * total_value) (Zpos count) ltac:(lia))
    as ([H1 H2] & _).
  destruct (rhe_div_spec ((Z.of_nat i + 1) * total_value) (Zpos count) ltac:(lia))
    as ([H3 H4] & _).
  cbn zeta in *. destruct i; nia.
Qed.

End PlannerSizes.

(** X10. When no inner boundary is a tie, the byte counts of the table
    that [_build_ranges] plans add up to one more than the total size:
    the last chunk ends at offset [total_size], one past the last byte of
    the file. *)
Theorem build_ranges_total_bytes (fl : Q -> Q) (total_size chunk_count : Z) :
  Py.Rounding fl -> 0 <= total_size -> 1 <= chunk_count ->
  (total_size + 3) * chunk_count <= 2 ^ 49 ->
  (forall i, 1 <= i < chunk_count -> ~ tie total_size chunk_count i) ->
  exists table,
    _build_ranges fl total_size chunk_count = Ok table
    /\ planned_bytes table = total_size + 1.
Proof.
  intros Hfl Ht Hn Hsize Hties.
  destruct chunk_count as [|count|count]; try lia.
  eexists. split; [now apply build_ranges_small|].
  now apply planned_bytes_total.
Qed.

Lemma no_tie_100_4 (i : Z) : 1 <= i < 4 -> ~ tie 100 4 i.
Proof.
  intros Hi E. unfold tie in E.
  assert (H : i = 1 \/ i = 2 \/ i = 3) by lia.
  destruct H as [-> | [-> | ->]]; vm_compute in E; discriminate.
Qed.

Lemma build_ranges_total_bytes_witness :
  exists table,
    _build_ranges Py.b64 100 4 = Ok table /\ planned_bytes table = 100 + 1.
Proof.
  apply (build_ranges_total_bytes Py.b64 100 4);
    [apply b64_Rounding|lia|lia|lia|apply no_tie_100_4].
Defined.

(** X11. When no inner boundary is a tie, the chunks are balanced: the
    byte count of each chunk (less the extra byte of chunk 0), times the
    chunk count, differs from the total size by at most the chunk count,
    so that each chunk is within one byte of the exact share. *)
Theorem build_ranges_balanced (fl : Q -> Q) (total_size chunk_count : Z) :
  Py.Rounding fl -> 0 <= total_size -> 1 <= chunk_count ->
  (total_size + 3) * chunk_count <= 2 ^ 49 ->
  (forall i, 1 <= i < chunk_count -> ~ tie total_size chunk_count i) ->
  exists table,
    _build_ranges fl total_size chunk_count = Ok table
    /\ forall i c, table !! i = Some c ->
         let b := bytes (snd c) - match i with O => 1 | _ => 0 end in
         total_size - chunk_count <= chunk_count * b
         <= total_size + chunk_count.
Proof.
  intros Hfl Ht Hn Hsize Hties.
  destruct chunk_count as [|count|count]; try lia.
  eexists. split; [now apply build_ranges_small|].
  intros i c H. rewrite list_lookup_fmap in H.
  destruct (seq 0 (Z.to_nat (Zpos count)) !! i) as [k|] eqn:E; [|discriminate].
  apply lookup_seq in E as [-> E]. injection H as <-.
  apply planned_balanced; assumption.
Qed.

Lemma build_ranges_balanced_witness :
  exists table,
    _build_ranges Py.b64 100 4 = Ok table
    /\ forall i c, table !! i = Some c ->
         let b := bytes (snd c) - match i with O => 1 | _ => 0 end in
         100 - 4 <= 4 * b <= 100 + 4.
Proof.
  apply (build_ranges_balanced Py.b64 100 4);
    [apply b64_Rounding|lia|lia|lia|apply no_tie_100_4].
Defined.

(** X9. When the chunk count divides the total size with quotient [q],
    [_build_ranges] gives chunk 0 the range from 0 to [q] with [q + 1]
    bytes, and chunk [i > 0] the range from [i * q + 1] to
    [(i + 1) * q] with [q] bytes. *)
Theorem build_ranges_even (fl : Q -> Q) (q chunk_count : Z) :
  Py.Rounding fl -> 0 <= q -> 1 <= chunk_count ->
  (chunk_count * q + 3) * chunk_count <= 2 ^ 49 ->
  _build_ranges fl (chunk_count * q) chunk_count
  = Ok (map (even_chunk q) (seq 0 (Z.to_nat chunk_count))).
Proof.
  intros Hfl Hq Hn Hsize.
  destruct chunk_count as [|count|count]; try lia.
  rewrite build_ranges_small by (assumption || nia).
  f_equal. apply map_ext_in. intros i Hi. apply in_seq in Hi.
  assert (Hties : forall j, 1 <= j < Zpos count ->
            ~ tie (Zpos count * q) (Zpos count) j).
  { intros j Hj. unfold tie.
    replace (2 * (j * (Zpos count * q)) + Zpos count)
      with (Zpos count + j * q * (2 * Zpos count)) by ring.
    rewrite Z.mod_add, Z.mod_small; lia. }
  destruct (planned_range fl Hfl (Zpos count * q) count ltac:(nia) Hsize
              Hties i ltac:(lia)) as (Hs & He & Hb).
  cbn zeta in *.
  assert (Hm : forall j, Py.rhe_div (j * (Zpos count * q)) (Zpos count) = j * q).
  { intros j. replace (j * (Zpos count * q)) with (Zpos count * (j * q)) by ring.
    apply (rhe_div_whole count). }
  rewrite !Hm in Hs, He, Hb.
  unfold chunk_start, chunk_end in Hs, He.
  unfold even_chunk.
  destruct (planned fl (Zpos count * q) (Zpos count) i) as [k [u d [s e] b]] eqn:Ep.
  assert (Hk : k = Py.str (Z.of_nat i) /\ u = false /\ d = false).
  { unfold planned in Ep. injection Ep as <- <- <- _ _ _. auto. }
  destruct Hk as (-> & -> & ->). cbn in Hs, He, Hb. subst s e b.
  do 2 f_equal. rewrite Hm. destruct i; lia.
Qed.

Lemma build_ranges_even_witness :
  _build_ranges Py.b64 (4 * 25) 4
  = Ok (map (even_chunk 25) (seq 0 (Z.to_nat 4))).
Proof.
  apply (build_ranges_even Py.b64 25 4); [apply b64_Rounding|lia|lia|lia].
Defined.

(** ** The length check on sizes up to 10^9 *)

(** X12. For two lengths up to 10^9 bytes, the check
    [math.isclose(a, b, abs_tol=1)] of the code passes exactly when the
    two differ by at most one byte: the relative tolerance never
    widens it. *)
Theorem isclose_one_byte (fl : Q -> Q) (a b : Z) :
  Py.Rounding fl -> 0 <= a <= 10 ^ 9 -> 0 <= b <= 10 ^ 9 ->
  (isclose fl a b = true <-> Z.abs (a - b) <= 1).
Proof.
  intros Hfl Ha Hb. split.
  - intros H. destruct (Z_le_gt_dec (Z.abs (a - b)) 1) as [|Hgt]; [assumption|].
    rewrite (isclose_far fl Hfl a b Ha Hb) in H by lia. discriminate.
  - intros H. apply (isclose_near fl Hfl); lia.
Qed.

Lemma isclose_one_byte_witness :
  isclose Py.b64 1000000 1000002 = true <-> Z.abs (1000000 - 1000002) <= 1.
Proof.
  apply (isclose_one_byte Py.b64 1000000 1000002 b64_Rounding); lia.
Defined.

(** ** The choice of a proxy *)

Lemma spin_free (locks : list bool) (rnd : list nat) :
  forall p0 p, spin locks rnd p0 = Some p -> locks !! p = Some false.
Proof.
  induction rnd as [|r rnd IH]; intros p0 p; cbn.
  - destruct (locks !! p0) as [[]|] eqn:E; try discriminate.
    now intros [= <-].
  - destruct (locks !! p0) as [[]|] eqn:E; try discriminate.
    + apply IH.
    + now intros [= <-].
Qed.

Lemma select_proxy_free (s : state) (rnd : list nat) (p : nat) :
  select_proxy s rnd = Some p -> proxy_locks s !! p = Some false.
Proof.
  unfold select_proxy.
  destruct (scan_known _ _ _ _) as [[p0 rnd']|]; [|discriminate].
  apply spin_free.
Qed.

Lemma spin_now (locks : list bool) (rnd : list nat) (p : nat) :
  locks !! p = Some false -> spin locks rnd p = Some p.
Proof. intros H. destruct rnd; cbn; now rewrite H. Qed.

Lemma scan_known_first_free (locks : list bool) (busy : list nat) (k : nat)
    (rest : list nat) :
  Forall (fun i => locks !! i = Some true) busy ->
  locks !! k = Some false ->
  forall (rnd : list nat) (p0 : nat),
    (length busy <= length rnd)%nat ->
    scan_known locks (busy ++ k :: rest) rnd p0
    = Some (k, skipn (length busy) rnd).
Proof.
  intros Hb Hk. induction Hb as [|i busy Hi _ IH]; intros rnd p0 Hlen; cbn.
  - now rewrite Hk.
  - rewrite Hi. destruct rnd as [|r rnd]; cbn in Hlen; [lia|].
    apply IH. lia.
Qed.

(** X13. When the known working proxies are visited in order and the
    first one whose lock is free is [k] (the ones before it being
    held, one random draw being made for each), the worker takes [k]. *)
Theorem select_proxy_first_free (s : state) (busy : list nat) (k : nat)
    (rest rnd : list nat) :
  working_proxy_indexes s = (busy ++ k :: rest)%list ->
  Forall (fun i => proxy_locks s !! i = Some true) busy ->
  proxy_locks s !! k = Some false ->
  (length busy <= length rnd)%nat ->
  select_proxy s rnd = Some k.
Proof.
  intros Hw Hb Hk Hlen. unfold select_proxy. rewrite Hw.
  rewrite (scan_known_first_free _ busy k rest Hb Hk) by exact Hlen.
  now apply spin_now.
Qed.

Lemma select_proxy_first_free_witness :
  select_proxy first_busy [5%nat] = Some 1%nat.
Proof.
  apply (select_proxy_first_free first_busy [0%nat] 1%nat [] [5%nat]).
  - reflexivity.
  - repeat constructor.
  - reflexivity.
  - simpl. lia.
Defined.

(** X14. The proxy that a worker selects is one whose lock is free at
    that moment; with no known working proxy and proxy 0 free, it is
    proxy 0. *)
Theorem select_proxy_unlocked (s : state) (rnd : list nat) (p : nat) :
  select_proxy s rnd = Some p ->
  proxy_locks s !! p = Some false
  /\ (working_proxy_indexes s = [] ->
      proxy_locks s !! 0%nat = Some false -> p = 0%nat).
Proof.
  intros H. split; [now apply select_proxy_free in H|].
  intros Hw H0. unfold select_proxy in H. rewrite Hw in H. cbn in H.
  rewrite (spin_now _ _ _ H0) in H. congruence.
Qed.

Lemma select_proxy_unlocked_witness :
  proxy_locks worker_state !! 0%nat = Some false
  /\ (working_proxy_indexes worker_state = [] ->
      proxy_locks worker_state !! 0%nat = Some false -> 0%nat = 0%nat).
Proof.
  apply (select_proxy_unlocked worker_state [] 0%nat). reflexivity.
Defined.

(** ** The dispatch of a chunk to a slot *)

(** X15. The slot that the dispatch loop takes is the lowest one whose
    lock is free; it takes none exactly when every lock is held. *)
Theorem find_free_lowest (locks : list bool) :
  match find_free locks with
  | Some i => locks !! i = Some false
              /\ forall j, (j < i)%nat -> locks !! j = Some true
  | None => Forall (fun b => b = true) locks
  end.
Proof.
  induction locks as [|[] locks IH]; cbn.
  - constructor.
  - destruct (find_free locks) as [i|]; cbn.
    + destruct IH as [Hi Hj]. split; [exact Hi|].
      intros [|j] Hlt; [reflexivity|]. apply Hj. lia.
    + now constructor.
  - split; [reflexivity|]. intros j Hj. lia.
Qed.

(** ** One worker episode *)

Lemma receive_on_time (blocks : list pybytes) :
  forall (buffer : pybytes) (s s1 : state) (buffer1 : pybytes),
    stop_event s = false ->
    receive (on_time blocks) buffer s = (s1, buffer1) ->
    buffer1 = (buffer ++ concat blocks)%list
    /\ stop_event s1 = false /\ stop s1 = stop s.
Proof.
  induction blocks as [|data blocks IH]; intros buffer s s1 buffer1 Hs H;
    cbn in H.
  - injection H as <- <-. now rewrite app_nil_r.
  - rewrite Hs in H. apply IH in H as (-> & H1 & H2).
    + cbn [concat]. rewrite app_assoc. repeat split; [exact H1|].
      rewrite H2. unfold report_progress. now destruct (_ =? 0).
    + unfold report_progress. now destruct (_ =? 0).
Qed.

Lemma release_acquire (p : nat) (locks : list bool) :
  locks !! p = Some false -> release p (acquire p locks) = locks.
Proof.
  intros H. unfold release, acquire.
  rewrite list_insert_insert_eq. now apply list_insert_id.
Qed.

Lemma release_twice (i : nat) (locks : list bool) :
  release i (release i locks) = release i locks.
Proof. unfold release. apply list_insert_insert_eq. Qed.

Section Worker.
Variable fl : Q -> Q.
Hypothesis Hfl : Py.Rounding fl.
Variables tmp_dir filename : string.
Variable split_count : Z.

(** X16. A worker that is not cancelled, finds a free proxy and
    receives all blocks in time, their total length within one byte of
    the planned length, writes the concatenated blocks to the part file,
    marks the chunk downloaded and not in use, counts it as done, credits
    the received bytes, gives back its slot and its proxy, and records
    the proxy as working. *)
Theorem download_chunk_stores (index : string) (thread_index : nat)
    (rnd : list nat) (blocks : list pybytes) (s : state) (meta : chunk)
    (p : nat) :
  stop_event s = false ->
  dict_get (ranges s) index = Ok meta ->
  select_proxy s rnd = Some p ->
  0 <= bytes meta <= 2 ^ 53 -> len (concat blocks) <= 2 ^ 53 ->
  Z.abs (len (concat blocks) - bytes meta) <= 1 ->
  exists s',
    download_chunk fl tmp_dir filename split_count index thread_index rnd
      (on_time blocks) s = Some s'
    /\ files s'
       = <[part_path tmp_dir filename split_count index := concat blocks]>
           (files s)
    /\ dict_get (ranges s') index
       = Ok (set_downloaded true (set_inUse false meta))
    /\ _done_count s' = _done_count s + 1
    /\ _bytes_downloaded s' = _bytes_downloaded s + len (concat blocks)
    /\ url_locks s' = release thread_index (url_locks s)
    /\ proxy_locks s' = proxy_locks s
    /\ p ∈ working_proxy_indexes s'
    /\ stop_event s' = false /\ stop s' = stop s.
Proof.
  intros Hs Hget Hsel Hm Hl Hclose.
  pose proof (select_proxy_free s rnd p Hsel) as Hfree.
  unfold download_chunk. rewrite Hs, Hget, Hsel. eexists. split; [reflexivity|].
  unfold transfer.
  destruct (receive (on_time blocks) [] (take_proxy p s)) as [s1 buffer] eqn:Hrec.
  pose proof (receive_on_time blocks [] (take_proxy p s) s1 buffer Hs Hrec)
    as (Hbuf & Hse & Hst).
  cbn [app] in Hbuf. subst buffer.
  apply receive_credit in Hrec as [Hc (Hf & Hr & Hd & Hu & Hp & Hw & _)].
  cbn in Hc, Hf, Hr, Hd, Hu, Hp, Hw, Hst.
  assert (Hok : isclose fl (len (concat blocks)) (bytes meta) = true).
  { apply (isclose_near fl Hfl); unfold len in *; lia. }
  change (len []) with 0 in Hc. rewrite Z.sub_0_r in Hc.
  unfold settle. rewrite Hok. cbn [negb].
  cbn -[part_path]. rewrite ?Hf, ?Hr, ?Hd, ?Hc, ?Hu, ?Hp, ?Hw.
  destruct (bool_decide (p ∈ working_proxy_indexes s)) eqn:E;
    cbn -[part_path]; rewrite ?Hf, ?Hr, ?Hd, ?Hc, ?Hu, ?Hp, ?Hw;
    (split; [reflexivity|]);
    (split;
       [now apply (dict_get_alter
                     (fun c => set_downloaded true (set_inUse false c)))|]);
    (split; [reflexivity|]);
    (split; [reflexivity|]);
    (split; [reflexivity|]);
    (split; [now apply release_acquire|]);
    (split; [|auto]).
  - now apply bool_decide_eq_true in E.
  - apply elem_of_app. right. constructor.
Qed.

(** X17. A worker that is not cancelled at its start, finds a free
    proxy and ends with a buffer whose length is at least two bytes off
    the planned length (sizes up to 10^9), writes no file and leaves the
    counters as they were: it only gives the chunk back as not in use,
    with its slot and proxy free again. *)
Theorem download_chunk_rejects (index : string) (thread_index : nat)
    (rnd : list nat) (segs : list segment) (s : state) (meta : chunk)
    (p : nat) :
  stop_event s = false ->
  dict_get (ranges s) index = Ok meta ->
  select_proxy s rnd = Some p ->
  let buffer := snd (receive segs [] (take_proxy p s)) in
  0 <= bytes meta <= 10 ^ 9 -> len buffer <= 10 ^ 9 ->
  2 <= Z.abs (len buffer - bytes meta) ->
  exists s',
    download_chunk fl tmp_dir filename split_count index thread_index rnd
      segs s = Some s'
    /\ files s' = files s
    /\ dict_get (ranges s') index = Ok (set_inUse false meta)
    /\ _done_count s' = _done_count s
    /\ _bytes_downloaded s' = _bytes_downloaded s
    /\ url_locks s' = release thread_index (url_locks s)
    /\ proxy_locks s' = proxy_locks s
    /\ working_proxy_indexes s' = working_proxy_indexes s.
Proof.
  intros Hs Hget Hsel buffer Hm Hl Hfar.
  pose proof (select_proxy_free s rnd p Hsel) as Hfree.
  unfold download_chunk. rewrite Hs, Hget, Hsel. eexists. split; [reflexivity|].
  unfold transfer. subst buffer.
  destruct (receive segs [] (take_proxy p s)) as [s1 buffer] eqn:Hrec.
  cbn [snd] in Hl, Hfar.
  apply receive_credit in Hrec as [Hc (Hf & Hr & Hd & Hu & Hp & Hw & _)].
  cbn in Hc, Hf, Hr, Hd, Hu, Hp, Hw.
  assert (Hno : isclose fl (len buffer) (bytes meta) = false).
  { apply (isclose_far fl Hfl); unfold len in *; lia. }
  unfold settle. rewrite Hno. cbn [negb].
  destruct (report_progress_credit (- len buffer) s1)
    as [Hc' (Hf' & Hr' & Hd' & Hu' & Hp' & Hw' & _)].
  change (len []) with 0 in Hc.
  cbn. rewrite ?Hf', ?Hf, ?Hr', ?Hr, ?Hd', ?Hd, ?Hc', ?Hc, ?Hu', ?Hu, ?Hp',
    ?Hp, ?Hw', ?Hw.
  split; [reflexivity|].
  split; [now apply dict_get_alter|].
  split; [reflexivity|].
  split; [lia|].
  split; [apply release_twice|].
  split; [now apply release_acquire|reflexivity].
Qed.

End Worker.

Lemma download_chunk_stores_witness :
  let block := [Byte.x2a; Byte.x2a] in
  exists s',
    download_chunk Py.b64 "tmp" "movie.mp4" 1 "0" 0 [] (on_time [block; block])
      worker_state = Some s'
    /\ files s'
       = <[part_path "tmp" "movie.mp4" 1 "0" := concat [block; block]]>
           (files worker_state)
    /\ dict_get (ranges s') "0"
       = Ok (set_downloaded true (set_inUse false (set_inUse true three_bytes)))
    /\ _done_count s' = _done_count worker_state + 1
    /\ _bytes_downloaded s'
       = _bytes_downloaded worker_state + len (concat [block; block])
    /\ url_locks s' = release 0 (url_locks worker_state)
    /\ proxy_locks s' = proxy_locks worker_state
    /\ 0%nat ∈ working_proxy_indexes s'
    /\ stop_event s' = false /\ stop s' = stop worker_state.
Proof.
  apply (download_chunk_stores Py.b64 b64_Rounding "tmp" "movie.mp4" 1 "0"
           0 [] [[Byte.x2a; Byte.x2a]; [Byte.x2a; Byte.x2a]] worker_state
           (set_inUse true three_bytes) 0%nat).
  - reflexivity.
  - reflexivity.
  - reflexivity.
  - simpl. lia.
  - vm_compute. discriminate.
  - vm_compute. discriminate.
Defined.

Lemma download_chunk_rejects_witness :
  exists s',
    download_chunk Py.b64 "tmp" "movie.mp4" 1 "0" 0 []
      [Block [Byte.x2a] false] worker_state = Some s'
    /\ files s' = files worker_state
    /\ dict_get (ranges s') "0" = Ok (set_inUse false (set_inUse true three_bytes))
    /\ _done_count s' = _done_count worker_state
    /\ _bytes_downloaded s' = _bytes_downloaded worker_state
    /\ url_locks s' = release 0 (url_locks worker_state)
    /\ proxy_locks s' = proxy_locks worker_state
    /\ working_proxy_indexes s' = working_proxy_indexes worker_state.
Proof.
  apply (download_chunk_rejects Py.b64 b64_Rounding "tmp" "movie.mp4" 1 "0"
           0 [] [Block [Byte.x2a] false] worker_state
           (set_inUse true three_bytes) 0%nat).
  - reflexivity.
  - reflexivity.
  - reflexivity.
  - simpl. lia.
  - vm_compute. discriminate.
  - vm_compute. discriminate.
Defined.

(** ** Part files found by the dispatch loop *)

Section PartFiles.
Variable fl : Q -> Q.
Hypothesis Hfl : Py.Rounding fl.
Variables tmp_dir filename : string.
Variable split_count : Z.

(** X18. When the dispatch loop visits a pending chunk whose part file
    exists with a length within one byte of the planned length, it keeps
    the file, marks the chunk downloaded, counts it as done, credits the
    planned bytes and starts no worker. *)
Theorem dispatch_accepts_part (idx : string) (meta : chunk)
    (existing : pybytes) (s : state) :
  stop_event s = false ->
  dict_get (ranges s) idx = Ok meta ->
  inUse meta = false -> downloaded meta = false ->
  files s !! part_path tmp_dir filename split_count idx = Some existing ->
  0 <= bytes meta <= 2 ^ 53 -> len existing <= 2 ^ 53 ->
  Z.abs (len existing - bytes meta) <= 1 ->
  exists s',
    dispatch_chunk fl tmp_dir filename split_count idx s = (s', Resumed)
    /\ files s' = files s
    /\ _bytes_downloaded s' = _bytes_downloaded s + bytes meta
    /\ _done_count s' = _done_count s + 1
    /\ dict_get (ranges s') idx = Ok (set_downloaded true meta)
    /\ url_locks s' = url_locks s.
Proof.
  intros Hs Hget Hu Hd Hfile Hm Hl Hclose.
  apply (dispatch_resumes fl tmp_dir filename split_count idx meta existing s);
    try assumption.
  apply (isclose_near fl Hfl); unfold len in *; lia.
Qed.

(** X19. When the dispatch loop visits a pending chunk whose part file
    is at least two bytes off the planned length (sizes up to 10^9), it
    deletes the file and credits nothing; it then starts a worker on the
    lowest free slot, or leaves the chunk pending when no slot is
    free. *)
Theorem dispatch_deletes_part (idx : string) (meta : chunk)
    (existing : pybytes) (s : state) :
  stop_event s = false ->
  dict_get (ranges s) idx = Ok meta ->
  inUse meta = false -> downloaded meta = false ->
  files s !! part_path tmp_dir filename split_count idx = Some existing ->
  0 <= bytes meta <= 10 ^ 9 -> len existing <= 10 ^ 9 ->
  2 <= Z.abs (len existing - bytes meta) ->
  exists s' v,
    dispatch_chunk fl tmp_dir filename split_count idx s = (s', v)
    /\ files s' = delete (part_path tmp_dir filename split_count idx) (files s)
    /\ _bytes_downloaded s' = _bytes_downloaded s
    /\ _done_count s' = _done_count s
    /\ match find_free (url_locks s) with
       | Some thread_index =>
           v = Spawn thread_index
           /\ url_locks s' = acquire thread_index (url_locks s)
           /\ dict_get (ranges s') idx = Ok (set_inUse true meta)
       | None => v = NoSlot /\ ranges s' = ranges s
       end.
Proof.
  intros Hs Hget Hu Hd Hfile Hm Hl Hfar.
  apply (dispatch_refetches fl tmp_dir filename split_count idx meta existing s);
    try assumption.
  apply (isclose_far fl Hfl); unfold len in *; lia.
Qed.

End PartFiles.

Lemma dispatch_accepts_part_witness :
  let s := part_state [Byte.x2a; Byte.x2a] in
  exists s',
    dispatch_chunk Py.b64 "tmp" "movie.mp4" 1 "0" s = (s', Resumed)
    /\ files s' = files s
    /\ _bytes_downloaded s' = _bytes_downloaded s + bytes three_bytes
    /\ _done_count s' = _done_count s + 1
    /\ dict_get (ranges s') "0" = Ok (set_downloaded true three_bytes)
    /\ url_locks s' = url_locks s.
Proof.
  apply (dispatch_accepts_part Py.b64 b64_Rounding "tmp" "movie.mp4" 1 "0"
           three_bytes [Byte.x2a; Byte.x2a] (part_state [Byte.x2a; Byte.x2a])).
  - reflexivity.
  - reflexivity.
  - reflexivity.
  - reflexivity.
  - apply lookup_singleton_eq.
  - simpl. lia.
  - vm_compute. discriminate.
  - vm_compute. discriminate.
Defined.

Lemma dispatch_deletes_part_witness :
  let s := part_state [Byte.x2a] in
  exists s' v,
    dispatch_chunk Py.b64 "tmp" "movie.mp4" 1 "0" s = (s', v)
    /\ files s' = delete (part_path "tmp" "movie.mp4" 1 "0") (files s)
    /\ _bytes_downloaded s' = _bytes_downloaded s
    /\ _done_count s' = _done_count s
    /\ match find_free (url_locks s) with
       | Some thread_index =>
           v = Spawn thread_index
           /\ url_locks s' = acquire thread_index (url_locks s)
           /\ dict_get (ranges s') "0" = Ok (set_inUse true three_bytes)
       | None => v = NoSlot /\ ranges s' = ranges s
       end.
Proof.
  apply (dispatch_deletes_part Py.b64 b64_Rounding "tmp" "movie.mp4" 1 "0"
           three_bytes [Byte.x2a] (part_state [Byte.x2a])).
  - reflexivity.
  - reflexivity.
  - reflexivity.
  - reflexivity.
  - apply lookup_singleton_eq.
  - simpl. lia.
  - vm_compute. discriminate.
  - vm_compute. discriminate.
Defined.

(** ** The coordinating loop: what every step keeps *)

Lemma dict_alter_keys {V} (f : V -> V) (d : list (string * V)) (k : string) :
  map fst (dict_alter f d k) = map fst d.
Proof.
  induction d as [|[k' v] d IH]; [reflexivity|]. cbn.
  destruct (String.eqb k' k); cbn; [reflexivity|now rewrite IH].
Qed.

Lemma dict_get_alter_ne {V} (f : V -> V) (d : list (string * V))
    (k k' : string) :
  k' <> k -> dict_get (dict_alter f d k) k' = dict_get d k'.
Proof.
  intros Hne. induction d as [|[k0 v] d IH]; [reflexivity|]. cbn.
  destruct (String.eqb_spec k0 k) as [->|Hk]; cbn.
  - destruct (String.eqb_spec k k') as [->|_]; [contradiction|reflexivity].
  - now rewrite IH.
Qed.

Lemma dict_get_key {V} (d : list (string * V)) (k : string) (v : V) :
  dict_get d k = Ok v -> k ∈ map fst d.
Proof.
  induction d as [|[k0 v0] d IH]; cbn; [discriminate|].
  destruct (String.eqb_spec k0 k) as [->|Hk].
  - intros _. left.
  - intros H. right. now apply IH.
Qed.

Lemma plan_of_alter (f : chunk -> chunk) (d : list (string * chunk))
    (k : string) :
  (forall c, bytes (f c) = bytes c) ->
  plan_of (dict_alter f d k) = plan_of d.
Proof.
  intros Hf. unfold plan_of.
  induction d as [|[k0 v] d IH]; [reflexivity|]. cbn.
  destruct (String.eqb k0 k); cbn; [now rewrite Hf|now rewrite IH].
Qed.

Lemma downloaded_count_alter (f : chunk -> chunk) (d : list (string * chunk))
    (k : string) (v : chunk) :
  dict_get d k = Ok v ->
  downloaded_count (dict_alter f d k)
  = downloaded_count d
    + (if downloaded (f v) then 1 else 0) - (if downloaded v then 1 else 0).
Proof.
  unfold downloaded_count.
  induction d as [|[k0 v0] d IH]; cbn; [discriminate|].
  destruct (String.eqb_spec k0 k) as [->|Hk]; cbn.
  - intros [= ->]. destruct (downloaded (f v)), (downloaded v); cbn; lia.
  - intros H. specialize (IH H). destruct (downloaded v0); cbn; lia.
Qed.

Lemma downloaded_count_le (d : list (string * chunk)) :
  downloaded_count d <= Z.of_nat (length d).
Proof.
  unfold downloaded_count.
  pose proof (filter_length_le
                (fun kv : string * chunk => downloaded (snd kv)) d).
  lia.
Qed.

Lemma downloaded_count_all (d : list (string * chunk)) :
  Z.of_nat (length d) <= downloaded_count d ->
  Forall (fun kv => downloaded (snd kv) = true) d.
Proof.
  unfold downloaded_count. induction d as [|kv d IH]; cbn; [constructor|].
  pose proof (List.filter_length_le
                (fun kv : string * chunk => downloaded (snd kv)) d) as Hle.
  destruct (downloaded (snd kv)) eqn:E; cbn; intros H.
  - constructor; [exact E|]. apply IH. lia.
  - lia.
Qed.

Lemma length_plan_of (d : list (string * chunk)) :
  length (plan_of d) = length d.
Proof. unfold plan_of. apply length_map. Qed.

Lemma keys_plan_of (d : list (string * chunk)) :
  map fst (plan_of d) = map fst d.
Proof. unfold plan_of. rewrite map_map. reflexivity. Qed.

Section Effects.
Variable fl : Q -> Q.
Variables tmp_dir filename : string.
Variable split_count : Z.

(** What a worker that gets past the flag leaves behind. *)
Lemma download_chunk_effect (index : string) (thread_index : nat)
    (rnd : list nat) (segs : list segment) (s s' : state) :
  stop_event s = false ->
  download_chunk fl tmp_dir filename split_count index thread_index rnd segs s
  = Some s' ->
  exists meta,
    dict_get (ranges s) index = Ok meta
    /\ url_locks s' = release thread_index (url_locks s)
    /\ ((files s' = files s
         /\ ranges s' = dict_alter (set_inUse false) (ranges s) index
         /\ _done_count s' = _done_count s)
        \/ (exists buffer,
              isclose fl (len buffer) (bytes meta) = true
              /\ files s'
                 = <[part_path tmp_dir filename split_count index := buffer]>
                     (files s)
              /\ ranges s'
                 = dict_alter (fun c => set_downloaded true (set_inUse false c))
                     (ranges s) index
              /\ _done_count s' = _done_count s + 1)).
Proof.
  intros Hs. unfold download_chunk. rewrite Hs.
  destruct (dict_get (ranges s) index) as [meta|] eqn:Hget; [|discriminate].
  destruct (select_proxy s rnd) as [p|]; [|discriminate].
  intros [= <-]. exists meta. split; [reflexivity|].
  unfold transfer.
  destruct (receive segs [] (take_proxy p s)) as [s1 buffer] eqn:Hrec.
  apply receive_credit in Hrec as [_ (Hf & Hr & Hd & Hu & _)].
  cbn in Hf, Hr, Hd, Hu. unfold settle.
  destruct (isclose fl (len buffer) (bytes meta)) eqn:Hc; cbn [negb].
  - split.
    + destruct (bool_decide _); cbn; now rewrite Hu.
    + right. exists buffer. split; [exact Hc|].
      destruct (bool_decide _); cbn -[part_path]; rewrite Hf, Hr, Hd; auto.
  - destruct (report_progress_credit (- len buffer) s1)
      as [_ (Hf' & Hr' & Hd' & Hu' & _)].
    split.
    + cbn. rewrite Hu', Hu. apply release_twice.
    + left. cbn. rewrite Hf', Hf, Hr', Hr, Hd', Hd. auto.
Qed.

Lemma find_free_Some (locks : list bool) (i : nat) :
  find_free locks = Some i -> locks !! i = Some false.
Proof.
  revert i. induction locks as [|[] locks IH]; intros i; cbn; try discriminate.
  - destruct (find_free locks) as [j|]; cbn; [|discriminate].
    intros [= <-]. now apply IH.
  - now intros [= <-].
Qed.

Lemma dispatch_chunk_effect (idx : string) (s : state) :
  dispatch_effect fl tmp_dir filename split_count idx s
    (fst (dispatch_chunk fl tmp_dir filename split_count idx s))
    (snd (dispatch_chunk fl tmp_dir filename split_count idx s)).
Proof.
  unfold dispatch_chunk.
  destruct (stop_event s); [now constructor|].
  destruct (dict_get (ranges s) idx) as [meta|] eqn:Hget; [|now constructor].
  destruct (inUse meta) eqn:Hu; [now constructor|].
  destruct (downloaded meta) eqn:Hd; [now constructor|]. cbn [orb].
  unfold check_part.
  destruct (files s !! part_path tmp_dir filename split_count idx)
    as [existing|] eqn:Hfile.
  - destruct (isclose fl (len existing) (bytes meta)) eqn:Hc.
    + cbn [fst snd].
      destruct (report_progress_credit (bytes meta) s)
        as [_ (Hf & Hr & Hdn & Hl & _)].
      eapply effect_resumed; eauto; cbn; try congruence.
      unfold report_progress. now destruct (_ =? 0).
    + cbn [url_locks set_files].
      destruct (find_free (url_locks s)) as [ti|] eqn:Hfree; cbn [fst snd].
      * eapply effect_spawn; eauto; cbn; auto using find_free_Some.
      * eapply effect_no_slot; eauto; cbn; auto.
  - destruct (find_free (url_locks s)) as [ti|] eqn:Hfree; cbn [fst snd].
    + eapply effect_spawn; eauto; cbn; auto using find_free_Some.
    + eapply effect_no_slot; eauto; cbn; auto.
Qed.

End Effects.

Section LoopInvariant.
Variable fl : Q -> Q.
Variables tmp_dir filename : string.
Variable split_count : Z.
Variable plan : list (string * Z).

Local Abbreviation Inv := (loop_invariant fl tmp_dir filename split_count plan).
Local Abbreviation part := (part_path tmp_dir filename split_count).

Lemma key_is_number (keys : list string) (n : nat) (k : string) :
  keys = map (fun i => Py.str (Z.of_nat i)) (seq 0 n) ->
  k ∈ keys -> exists i : nat, k = Py.str (Z.of_nat i).
Proof.
  intros -> Hk. apply list_elem_of_fmap in Hk as (i & -> & _). now exists i.
Qed.

Lemma inv_key_number (c : config) (idx : string) (meta : chunk) :
  Inv c -> dict_get (ranges (shared c)) idx = Ok meta ->
  exists i : nat, idx = Py.str (Z.of_nat i).
Proof.
  intros [Hplan Hkeys _ _ _ _ _] Hget.
  apply dict_get_key in Hget. rewrite <- keys_plan_of, Hplan in Hget.
  eapply key_is_number; eauto.
Qed.

Lemma part_of_keys_inj (i j : nat) :
  Py.str (Z.of_nat i) <> Py.str (Z.of_nat j) ->
  part (Py.str (Z.of_nat i)) <> part (Py.str (Z.of_nat j)).
Proof. intros Hne E. apply part_path_inj in E. congruence. Qed.

(** The coordinating thread's step. *)
Lemma main_step_invariant (c : config) :
  Inv c -> pos c <> Left ->
  Inv (main_step fl tmp_dir filename split_count c).
Proof.
  intros Hinv Hpos.
  pose proof Hinv as [Hplan Hkeys Hpend Hdist Hcount Hfiles Hleft].
  unfold main_step. destruct (pos c) as [|[|idx rest]|] eqn:Ep;
    [| | |contradiction].
  - (* the while test *)
    destruct (_ && _) eqn:E; constructor; cbn; auto; try discriminate.
    intros _. apply andb_false_iff in E as [E|E].
    + right. apply Z.ltb_ge in E. exact E.
    + left. now apply negb_false_iff in E.
  - constructor; cbn; auto; discriminate.
  - pose proof (dispatch_chunk_effect fl tmp_dir filename split_count idx
                  (shared c)) as Heff.
    destruct (dispatch_chunk fl tmp_dir filename split_count idx (shared c))
      as [s' v]. cbn [fst snd] in Heff.
    destruct Heff as [->| ->
      |meta existing Hget Hu Hd Hfile Hc Hf Hr Hdn Hl Hst
      |meta ti Hget Hu Hd Hf Hr Hdn Hfree Hl Hst
      |meta Hget Hu Hd Hf Hr Hdn Hl Hst].
    + constructor; cbn; auto; discriminate.
    + constructor; cbn; auto; discriminate.
    + (* an existing part file is accepted *)
      assert (Hother : forall j jb, pending c j jb -> job_index jb <> idx).
      { intros j jb Hp E. destruct (Hpend j jb Hp) as (m & Hm & Hmu & _).
        rewrite E, Hget in Hm. injection Hm as <-. congruence. }
      constructor; cbn [shared pos jobs].
      * rewrite Hr. rewrite plan_of_alter; auto.
      * exact Hkeys.
      * intros j jb Hp. destruct (Hpend j jb Hp) as (m & Hm & Hmu & Hmd & Hml).
        exists m. rewrite Hr, Hl, dict_get_alter_ne by (eapply Hother; eauto).
        auto.
      * exact Hdist.
      * rewrite Hr, Hdn, (downloaded_count_alter _ _ _ _ Hget), Hcount.
        cbn. rewrite Hd. lia.
      * intros idx' meta' Hget' Hd'. rewrite Hr in Hget'. rewrite Hf.
        destruct (String.eqb_spec idx' idx) as [->|Hne].
        -- rewrite (dict_get_alter _ _ _ _ Hget) in Hget'.
           injection Hget' as <-. exists existing. now split.
        -- rewrite dict_get_alter_ne in Hget' by exact Hne. now apply Hfiles.
      * discriminate.
    + (* a worker is started *)
      assert (Hother : forall j jb, pending c j jb -> job_index jb <> idx).
      { intros j jb Hp E. destruct (Hpend j jb Hp) as (m & Hm & Hmu & _).
        rewrite E, Hget in Hm. injection Hm as <-. congruence. }
      assert (Hold : forall j jb,
        pending {| shared := s'; pos := InFor rest;
                   jobs := (jobs c ++ [{| job_index := idx; job_thread := ti;
                                          job_ran := false |}])%list |} j jb ->
        pending c j jb
        \/ (j = length (jobs c)
            /\ jb = {| job_index := idx; job_thread := ti; job_ran := false |})).
      { intros j jb [Hj Hran]. cbn in Hj.
        apply lookup_app_Some in Hj as [Hj|[Hlen Hj]].
        - left. now split.
        - right. apply list_lookup_singleton_Some in Hj as [Hj <-].
          split; [lia|reflexivity]. }
      constructor; cbn [shared pos jobs].
      * rewrite Hr. rewrite plan_of_alter; auto.
      * exact Hkeys.
      * intros j jb Hp. apply Hold in Hp as [Hp|[_ ->]].
        -- destruct (Hpend j jb Hp) as (m & Hm & Hmu & Hmd & Hml).
           exists m. rewrite Hr, Hl, dict_get_alter_ne by (eapply Hother; eauto).
           repeat split; auto. unfold acquire.
           destruct (decide (job_thread jb = ti)) as [E|E].
           ++ rewrite E in Hml. congruence.
           ++ now rewrite list_lookup_insert_ne by congruence.
        -- exists (set_inUse true meta). cbn [job_index job_thread].
           rewrite Hr, Hl, (dict_get_alter _ _ _ _ Hget).
           repeat split; auto. unfold acquire.
           apply list_lookup_insert_eq. now apply lookup_lt_Some in Hfree.
      * intros j1 j2 jb1 jb2 Hp1 Hp2 Hne.
        apply Hold in Hp1 as [Hp1|[E1 ->]]; apply Hold in Hp2 as [Hp2|[E2 ->]].
        -- eapply Hdist; eauto.
        -- cbn [job_index job_thread]. split; [eapply Hother; eauto|].
           destruct (Hpend j1 jb1 Hp1) as (_ & _ & _ & _ & Hml). congruence.
        -- cbn [job_index job_thread]. split.
           ++ intros E. symmetry in E. revert E. eapply Hother; eauto.
           ++ destruct (Hpend j2 jb2 Hp2) as (_ & _ & _ & _ & Hml). congruence.
        -- congruence.
      * rewrite Hr, Hdn, (downloaded_count_alter _ _ _ _ Hget), Hcount.
        cbn. lia.
      * intros idx' meta' Hget' Hd'. rewrite Hr in Hget'.
        destruct (String.eqb_spec idx' idx) as [->|Hne].
        -- rewrite (dict_get_alter _ _ _ _ Hget) in Hget'.
           injection Hget' as <-. cbn in Hd'. congruence.
        -- rewrite dict_get_alter_ne in Hget' by exact Hne.
           destruct (Hfiles idx' meta' Hget' Hd') as (data & Hdata & Hcl).
           exists data. split; [|exact Hcl].
           destruct Hf as [-> | ->]; [exact Hdata|].
           rewrite lookup_delete_ne; [exact Hdata|].
           destruct (inv_key_number c idx meta Hinv Hget) as (i & ->).
           destruct (inv_key_number c idx' meta' Hinv Hget') as (i' & ->).
           now apply part_of_keys_inj.
      * discriminate.
    + (* no slot is free *)
      constructor; cbn [shared pos jobs].
      * now rewrite Hr.
      * exact Hkeys.
      * intros j jb Hp. destruct (Hpend j jb Hp) as (m & Hm & Hmu & Hmd & Hml).
        exists m. rewrite Hr, Hl. auto.
      * exact Hdist.
      * now rewrite Hr, Hdn.
      * intros idx' meta' Hget' Hd'. rewrite Hr in Hget'.
        destruct (Hfiles idx' meta' Hget' Hd') as (data & Hdata & Hcl).
        exists data. split; [|exact Hcl].
        destruct Hf as [-> | ->]; [exact Hdata|].
        rewrite lookup_delete_ne; [exact Hdata|].
        assert (Hne : idx <> idx').
        { intros <-. rewrite Hget in Hget'. injection Hget' as <-. congruence. }
        destruct (inv_key_number c idx meta Hinv Hget) as (i & ->).
        destruct (inv_key_number c idx' meta' Hinv Hget') as (i' & ->).
        now apply part_of_keys_inj.
      * discriminate.
Qed.

(** A worker's step. *)
Lemma work_step_invariant (j : nat) (rnd : list nat) (segs : list segment)
    (c : config) :
  Inv c -> pos c <> Left ->
  Inv (work_step fl tmp_dir filename split_count j rnd segs c).
Proof.
  intros Hinv Hpos.
  pose proof Hinv as [Hplan Hkeys Hpend Hdist Hcount Hfiles Hleft].
  unfold work_step.
  destruct (jobs c !! j) as [jb|] eqn:Hj; [|exact Hinv].
  destruct (job_ran jb) eqn:Hran; [exact Hinv|].
  destruct (download_chunk fl tmp_dir filename split_count (job_index jb)
              (job_thread jb) rnd segs (shared c)) as [s'|] eqn:Hrun;
    [|exact Hinv].
  assert (Hme : pending c j jb) by now split.
  assert (Hold : forall j' jb',
    pending {| shared := s'; pos := pos c;
               jobs := <[j := mark_ran jb]> (jobs c) |} j' jb' ->
    pending c j' jb' /\ j' <> j).
  { intros j' jb' [Hj' Hran']. cbn in Hj'.
    destruct (decide (j' = j)) as [->|Hne].
    - apply list_lookup_insert_Some in Hj' as [(_ & <- & _)|(? & _)];
        [discriminate|congruence].
    - rewrite list_lookup_insert_ne in Hj' by congruence. now repeat split. }
  destruct (stop_event (shared c)) eqn:Hs.
  { (* the flag was set before the worker started *)
    unfold download_chunk in Hrun. rewrite Hs in Hrun. injection Hrun as <-.
    constructor; cbn [shared pos jobs set_stop ranges url_locks _done_count
                      files stop].
    - exact Hplan.
    - exact Hkeys.
    - intros j' jb' Hp. apply Hold in Hp as [Hp _].
      destruct (Hpend j' jb' Hp) as (m & Hm). now exists m.
    - intros j1 j2 jb1 jb2 Hp1 Hp2. apply Hold in Hp1 as [Hp1 _].
      apply Hold in Hp2 as [Hp2 _]. eapply Hdist; eauto.
    - exact Hcount.
    - exact Hfiles.
    - intros E. contradiction. }
  destruct (download_chunk_effect fl tmp_dir filename split_count _ _ _ _ _ _
              Hs Hrun) as (meta & Hget & Hl & Heff).
  destruct (Hpend j jb Hme) as (m & Hm & Hmu & Hmd & Hml).
  rewrite Hget in Hm. injection Hm as <-.
  assert (Hothers : forall j' jb', pending c j' jb' -> j' <> j ->
            job_index jb' <> job_index jb /\ job_thread jb' <> job_thread jb).
  { intros j' jb' Hp Hne. eapply Hdist; eauto. }
  assert (Hpending : forall (f : chunk -> chunk) j' jb',
    ranges s' = dict_alter f (ranges (shared c)) (job_index jb) ->
    pending {| shared := s'; pos := pos c;
               jobs := <[j := mark_ran jb]> (jobs c) |} j' jb' ->
    exists meta',
      dict_get (ranges s') (job_index jb') = Ok meta'
      /\ inUse meta' = true /\ downloaded meta' = false
      /\ url_locks s' !! job_thread jb' = Some true).
  { intros f j' jb' Hr Hp. apply Hold in Hp as [Hp Hne].
    destruct (Hothers j' jb' Hp Hne) as [Hi Ht].
    destruct (Hpend j' jb' Hp) as (m & Hm & Hu & Hd & Hlk).
    exists m. rewrite Hr, Hl, dict_get_alter_ne by exact Hi.
    unfold release. rewrite list_lookup_insert_ne by congruence. auto. }
  assert (Hdistinct : forall j1 j2 jb1 jb2,
    pending {| shared := s'; pos := pos c;
               jobs := <[j := mark_ran jb]> (jobs c) |} j1 jb1 ->
    pending {| shared := s'; pos := pos c;
               jobs := <[j := mark_ran jb]> (jobs c) |} j2 jb2 ->
    j1 <> j2 ->
    job_index jb1 <> job_index jb2 /\ job_thread jb1 <> job_thread jb2).
  { intros j1 j2 jb1 jb2 Hp1 Hp2. apply Hold in Hp1 as [Hp1 _].
    apply Hold in Hp2 as [Hp2 _]. eapply Hdist; eauto. }
  destruct Heff as [(Hf & Hr & Hdn)|(buffer & Hc & Hf & Hr & Hdn)].
  - (* the chunk is rejected *)
    constructor; cbn [shared pos jobs].
    + rewrite Hr. rewrite plan_of_alter; auto.
    + exact Hkeys.
    + intros j' jb'. now apply (Hpending (set_inUse false)).
    + exact Hdistinct.
    + rewrite Hr, Hdn, (downloaded_count_alter _ _ _ _ Hget), Hcount.
      cbn. lia.
    + intros idx' meta' Hget' Hd'. rewrite Hr in Hget'. rewrite Hf.
      destruct (String.eqb_spec idx' (job_index jb)) as [->|Hne].
      * rewrite (dict_get_alter _ _ _ _ Hget) in Hget'.
        injection Hget' as <-. cbn in Hd'. congruence.
      * rewrite dict_get_alter_ne in Hget' by exact Hne. now apply Hfiles.
    + intros E. contradiction.
  - (* the chunk is accepted *)
    constructor; cbn [shared pos jobs].
    + rewrite Hr. rewrite plan_of_alter; auto.
    + exact Hkeys.
    + intros j' jb'.
      now apply (Hpending (fun c => set_downloaded true (set_inUse false c))).
    + exact Hdistinct.
    + rewrite Hr, Hdn, (downloaded_count_alter _ _ _ _ Hget), Hcount.
      cbn. rewrite Hmd. lia.
    + intros idx' meta' Hget' Hd'. rewrite Hr in Hget'. rewrite Hf.
      destruct (String.eqb_spec idx' (job_index jb)) as [->|Hne].
      * rewrite (dict_get_alter
                   (fun c => set_downloaded true (set_inUse false c))
                   _ _ _ Hget) in Hget'.
        injection Hget' as <-. exists buffer.
        split; [apply lookup_insert_eq|exact Hc].
      * rewrite dict_get_alter_ne in Hget' by exact Hne.
        destruct (Hfiles idx' meta' Hget' Hd') as (data & Hdata & Hcl).
        exists data. split; [|exact Hcl].
        rewrite lookup_insert_ne; [exact Hdata|].
        destruct (inv_key_number c _ meta Hinv Hget) as (i & Ei).
        destruct (inv_key_number c idx' meta' Hinv Hget') as (i' & ->).
        rewrite Ei in *. now apply part_of_keys_inj.
    + intros E. contradiction.
Qed.

Lemma step_invariant (a : action) (c : config) :
  Inv c -> Inv (step fl tmp_dir filename split_count a c).
Proof.
  intros Hinv. unfold step.
  destruct (pos c) eqn:Ep; [| |exact Hinv];
    (destruct a as [|j rnd segs| |];
     [apply main_step_invariant; [exact Hinv|congruence]
     |apply work_step_invariant; [exact Hinv|congruence]
     |destruct Hinv; constructor; cbn; auto; discriminate
     |destruct Hinv; constructor; cbn; auto]).
Qed.

Lemma run_invariant (sched : list action) :
  forall c : config,
    Inv c -> Inv (fst (run fl tmp_dir filename split_count sched c)).
Proof.
  induction sched as [|a rest IH]; intros c Hinv; cbn [run].
  - destruct (pos c); exact Hinv.
  - destruct (pos c) eqn:Ep; [| |exact Hinv];
      apply IH, step_invariant, Hinv.
Qed.

End LoopInvariant.

Lemma dict_get_In {V} (d : list (string * V)) (k : string) (v : V) :
  dict_get d k = Ok v -> (k, v) ∈ d.
Proof.
  induction d as [|[k0 v0] d IH]; cbn; [discriminate|].
  destruct (String.eqb_spec k0 k) as [->|Hk].
  - intros [= ->]. left.
  - intros H. right. now apply IH.
Qed.

Lemma dict_get_lookup {V} (d : list (string * V)) (i : nat) (k : string)
    (v : V) :
  NoDup (map fst d) -> d !! i = Some (k, v) -> dict_get d k = Ok v.
Proof.
  revert i. induction d as [|[k0 v0] d IH]; intros i Hnd Hi; [discriminate|].
  cbn in Hnd. apply NoDup_cons in Hnd as [Hk0 Hnd].
  destruct i as [|i]; cbn in Hi |- *.
  - injection Hi as -> ->. now rewrite String.eqb_refl.
  - destruct (String.eqb_spec k0 k) as [->|Hne]; [|eapply IH; eauto].
    exfalso. apply Hk0. apply list_elem_of_fmap. exists (k, v).
    split; [reflexivity|]. eapply list_elem_of_lookup_2; eauto.
Qed.

Lemma number_keys_NoDup (n : nat) :
  NoDup (map (fun i => Py.str (Z.of_nat i)) (seq 0 n)).
Proof.
  apply NoDup_fmap_2; [|apply NoDup_seq].
  intros i j E. apply str_inj in E. lia.
Qed.

Lemma fresh_invariant (fl : Q -> Q) (tmp_dir filename : string)
    (split_count : Z) (s : state) :
  fresh s ->
  loop_invariant fl tmp_dir filename split_count (plan_of (ranges s))
    {| shared := s; pos := AtWhile; jobs := [] |}.
Proof.
  intros (Hkeys & Hall & Hdone). constructor; cbn [shared pos jobs].
  - reflexivity.
  - now rewrite keys_plan_of, length_plan_of.
  - intros j jb [Hj _]. discriminate.
  - intros j1 j2 jb1 jb2 [Hj _]. discriminate.
  - rewrite Hdone. unfold downloaded_count.
    assert (E : List.filter (fun kv : string * chunk => downloaded (snd kv))
                  (ranges s) = []).
    { clear Hkeys. induction Hall as [|kv d [_ Hd] _ IH]; [reflexivity|].
      cbn [List.filter]. rewrite Hd. exact IH. }
    now rewrite E.
  - intros idx meta Hget Hd. apply dict_get_In in Hget.
    rewrite Forall_forall in Hall. destruct (Hall _ Hget) as [_ H].
    cbn in H. congruence.
  - discriminate.
Qed.

(** X20. A worker whose buffer fails the length check releases its
    slot lock at once (lines 352-353) and again in its [finally] clause
    (lines 376-377).  When the dispatch loop hands this slot to a new
    worker between the two, the second release frees the slot of the new
    worker: its chunk is in use, and its slot lock is unlocked. *)
Theorem slot_released_twice (fl : Q -> Q) (tmp_dir filename : string)
    (split_count : Z) (index : string) (expected_bytes : Z)
    (thread_index proxy_idx : nat) (buffer : pybytes) (idx : string)
    (s s2 : state) :
  url_locks s !! thread_index = Some true ->
  isclose fl (len buffer) expected_bytes = false ->
  let s1 := settle fl tmp_dir filename split_count index expected_bytes
              thread_index proxy_idx buffer s in
  dispatch_chunk fl tmp_dir filename split_count idx s1
  = (s2, Spawn thread_index) ->
  let s3 := worker_finally thread_index proxy_idx s2 in
  url_locks s1 !! thread_index = Some false
  /\ url_locks s2 !! thread_index = Some true
  /\ url_locks s3 !! thread_index = Some false
  /\ exists meta,
       dict_get (ranges s3) idx = Ok meta
       /\ inUse meta = true /\ downloaded meta = false.
Proof.
  intros Hheld Hclose s1 Hdispatch s3.
  assert (Hlt : (thread_index < length (url_locks s))%nat)
    by (eapply lookup_lt_Some; eauto).
  assert (H1 : url_locks s1 !! thread_index = Some false).
  { subst s1. unfold settle. rewrite Hclose. cbn [negb].
    cbn [url_locks set_url_locks]. unfold release.
    apply list_lookup_insert_eq.
    unfold update_chunk, report_progress.
    destruct (- len buffer =? 0); cbn; exact Hlt. }
  pose proof (dispatch_chunk_effect fl tmp_dir filename split_count idx s1)
    as Heff.
  rewrite Hdispatch in Heff. cbn [fst snd] in Heff.
  inversion Heff as [| | |meta ti Hget Hu Hd Hf Hr Hdn Hfree Hl Hst|];
    subst ti.
  assert (H2 : url_locks s2 !! thread_index = Some true).
  { rewrite Hl. unfold acquire. apply list_lookup_insert_eq.
    eapply lookup_lt_Some; eauto. }
  split; [exact H1|]. split; [exact H2|]. split.
  - subst s3. cbn. unfold release. apply list_lookup_insert_eq.
    eapply lookup_lt_Some; eauto.
  - exists (set_inUse true meta). subst s3. cbn [worker_finally ranges
      set_proxy_locks set_url_locks set_active].
    rewrite Hr. split; [now apply dict_get_alter|]. now split.
Qed.

Lemma slot_released_twice_witness :
  let s1 := settle Py.b64 "tmp" "movie.mp4" 2 "0" 3 0 0 [Byte.x2a]
              short_read in
  let s2 := fst (dispatch_chunk Py.b64 "tmp" "movie.mp4" 2 "1" s1) in
  let s3 := worker_finally 0 0 s2 in
  url_locks s1 !! 0%nat = Some false
  /\ url_locks s2 !! 0%nat = Some true
  /\ url_locks s3 !! 0%nat = Some false
  /\ exists meta,
       dict_get (ranges s3) "1" = Ok meta
       /\ inUse meta = true /\ downloaded meta = false.
Proof.
  apply (slot_released_twice Py.b64 "tmp" "movie.mp4" 2 "0" 3 0 0
           [Byte.x2a] "1" short_read).
  - vm_compute. reflexivity.
  - vm_compute. reflexivity.
  - vm_compute. reflexivity.
Defined.

(** An attempt that returns: every part file passed the length check
    of its chunk, and the output is their concatenation. *)
Lemma finish_attempt_output (fl : Q -> Q) (tmp_dir filename : string)
    (split_count : Z) (sched : list action) (s0 : state)
    (name : string) (s' : state) (sched' : list action) :
  fresh s0 ->
  finish_attempt fl tmp_dir filename split_count sched s0
  = Some (Ok name, s', sched') ->
  name = filename
  /\ exists parts : list pybytes,
       length parts = length (ranges s0)
       /\ files s' !! filename = Some (concat parts)
       /\ (forall i data kv,
             parts !! i = Some data -> ranges s0 !! i = Some kv ->
             isclose fl (len data) (bytes (snd kv)) = true)
       /\ (forall i, (i < length (ranges s0))%nat ->
             files s' !! part_path tmp_dir filename split_count
                           (Py.str (Z.of_nat i)) = None).
Proof.
  intros Hfresh. unfold finish_attempt, finish_from.
  pose proof (run_invariant fl tmp_dir filename split_count _ sched _
                (fresh_invariant fl tmp_dir filename split_count s0 Hfresh))
    as Hinv.
  destruct (run fl tmp_dir filename split_count sched _) as [c' sched1].
  cbn [fst] in Hinv.
  destruct Hinv as [Hplan Hkeys _ _ Hcount Hfiles Hleft].
  destruct (pos c') eqn:Ep; try discriminate.
  destruct (stop (release_all (shared c'))) eqn:Hstop; [discriminate|].
  cbn in Hstop.
  destruct (reassemble tmp_dir filename split_count (release_all (shared c')))
    as [s2|e] eqn:Hre; [|discriminate].
  intros [= <- <- <-]. split; [reflexivity|].
  destruct (Hleft eq_refl) as [H|Hall]; [congruence|].
  rewrite Hcount in Hall. apply downloaded_count_all in Hall.
  set (table := ranges (shared c')) in *.
  set (n := length table).
  assert (Hn : length (ranges s0) = n).
  { rewrite <- (length_plan_of (ranges s0)), <- Hplan. apply length_plan_of. }
  assert (Htk : map fst table = map (fun i => Py.str (Z.of_nat i)) (seq 0 n)).
  { rewrite <- keys_plan_of, Hplan, Hkeys.
    now rewrite <- Hplan, length_plan_of. }
  set (content := fun i : nat =>
         default [] (files (shared c')
                     !! part_path tmp_dir filename split_count
                          (Py.str (Z.of_nat i)))).
  assert (Hpart : forall i, (i < n)%nat ->
            exists meta data,
              table !! i = Some (Py.str (Z.of_nat i), meta)
              /\ files (shared c')
                 !! part_path tmp_dir filename split_count (Py.str (Z.of_nat i))
                 = Some data
              /\ isclose fl (len data) (bytes meta) = true).
  { intros i Hi.
    destruct (lookup_lt_is_Some_2 table i Hi) as [[k meta] Hkv].
    assert (Hk : k = Py.str (Z.of_nat i)).
    { assert (H : map fst table !! i = Some k)
        by (rewrite list_lookup_fmap, Hkv; reflexivity).
      rewrite Htk, list_lookup_fmap, lookup_seq_lt in H by exact Hi.
      cbn in H. congruence. }
    subst k.
    assert (Hd : downloaded meta = true).
    { rewrite Forall_forall in Hall.
      apply (Hall (Py.str (Z.of_nat i), meta)).
      eapply list_elem_of_lookup_2; eauto. }
    destruct (Hfiles (Py.str (Z.of_nat i)) meta) as (data & Hdata & Hc);
      [|exact Hd|now exists meta, data].
    eapply dict_get_lookup; [|exact Hkv]. rewrite Htk. apply number_keys_NoDup. }
  unfold reassemble in Hre.
  change (length (ranges (release_all (shared c')))) with n in Hre.
  change (files (release_all (shared c'))) with (files (shared c')) in Hre.
  destruct (concat_parts_spec tmp_dir filename split_count content (seq 0 n)
              (<[filename := []]> (delete filename (files (shared c')))) [])
    as (fs' & Hr & Ht & Hgone & _).
  { apply NoDup_seq. }
  { apply lookup_insert_eq. }
  { intros i Hi. apply elem_of_seq in Hi.
    rewrite lookup_insert_ne
      by (intros E; symmetry in E; now apply part_path_not_target in E).
    rewrite lookup_delete_ne
      by (intros E; symmetry in E; now apply part_path_not_target in E).
    destruct (Hpart i ltac:(lia)) as (meta & data & _ & Hdata & _).
    unfold content. now rewrite Hdata. }
  rewrite Hr in Hre. cbn [mbind res_bind] in Hre. injection Hre as <-.
  cbn [files set_files].
  exists (map content (seq 0 n)). split; [|split; [|split]].
  - now rewrite length_map, length_seq.
  - exact Ht.
  - intros i data kv Hdata Hkv.
    rewrite list_lookup_fmap in Hdata.
    destruct (seq 0 n !! i) as [i'|] eqn:Ei; [|discriminate].
    apply lookup_seq in Ei as [-> Hi]. cbn in Hdata. injection Hdata as <-.
    destruct (Hpart i Hi) as (meta & data & Hti & Hdata & Hc).
    unfold content. rewrite Hdata. cbn [default].
    assert (Hb : plan_of (ranges s0) !! i = Some (fst kv, bytes (snd kv))).
    { unfold plan_of. now rewrite list_lookup_fmap, Hkv. }
    rewrite <- Hplan in Hb. unfold plan_of in Hb.
    fold table in Hb. rewrite list_lookup_fmap, Hti in Hb. cbn in Hb.
    injection Hb as _ <-. exact Hc.
  - intros i Hi. apply Hgone. apply elem_of_seq. lia.
Qed.

Lemma planned_table_fresh (fl : Q -> Q) (total_value split_count : Z)
    (s : state) :
  ranges s = map (planned fl total_value split_count)
               (seq 0 (Z.to_nat split_count)) ->
  _done_count s = 0 -> fresh s.
Proof.
  intros Hr Hd. unfold fresh. rewrite Hr. split; [|split; [|exact Hd]].
  - rewrite map_map, length_map, length_seq. reflexivity.
  - apply Forall_forall. intros kv Hkv.
    apply list_elem_of_fmap in Hkv as (i & -> & _). now split.
Qed.



(** ** [Downloader.download]: attempts, bad URLs, the flag *)

Lemma attempt_sizes_app (l1 l2 : list event) :
  attempt_sizes (l1 ++ l2) = (attempt_sizes l1 ++ attempt_sizes l2)%list.
Proof. unfold attempt_sizes. apply omap_app. Qed.

Lemma download_setup_no_attempt (w : world) (url : string)
    (filename : option string) (threads split_size : Z) (d : downloader) :
  attempt_sizes (snd (download_setup w url filename threads split_size d)) = [].
Proof.
  unfold download_setup. repeat case_match; simplify_eq; reflexivity.
Qed.

(** Two rounds of fuel are all that the loop ever uses. *)
Lemma attempts_fuel (fl : Q -> Q) (w : world) (emc : bool)
    (urls : list string) (name : string) (threads : Z) (fuel n : nat)
    (split : Z) (sched : list action) (d : downloader) (log : list event) :
  (2 <= fuel)%nat ->
  attempts fl w fuel n false emc urls name threads split sched d log
  = attempts fl w 2 n false emc urls name threads split sched d log.
Proof.
  intros Hfuel. destruct fuel as [|[|fuel]]; try lia.
  cbn [attempts]. repeat case_match; reflexivity.
Qed.

(** X22. The [while True] loop of [download] makes at most two
    attempts: with more than two rounds of fuel it does what it does
    with two, and whatever [download] ends with, it has run
    [_download_once] not at all, once with the split size it was given,
    or twice, the second time with twice that split size. *)
Theorem download_attempts (fl : Q -> Q) (w : world) (url : string)
    (filename : option string) (threads split_size : Z)
    (ensure_media_check : bool) (sched : list action) (d : downloader) :
  (forall fuel urls name d0 log0, (2 <= fuel)%nat ->
     attempts fl w fuel 0 false ensure_media_check urls name threads
       split_size sched d0 log0
     = attempts fl w 2 0 false ensure_media_check urls name threads
         split_size sched d0 log0)
  /\ (forall r d' log,
        download fl w url filename threads split_size ensure_media_check
          sched d
        = Some (r, d', log) ->
        attempt_sizes log = []
        \/ attempt_sizes log = [split_size]
        \/ attempt_sizes log = [split_size; split_size * 2]).
Proof.
  split.
  { intros fuel urls name d0 log0 Hfuel. now apply attempts_fuel. }
  intros r d' log. unfold download.
  pose proof (download_setup_no_attempt w url filename threads split_size d)
    as Hsetup.
  destruct (download_setup w url filename threads split_size d)
    as [[[[urls name]|e] d0] log0]; cbn [snd] in Hsetup.
  2:{ intros [= <- <- <-]. now left. }
  cbn [attempts]. intros H.
  repeat case_match; simplify_eq;
    rewrite ?attempt_sizes_app, Hsetup; cbn; auto.
Qed.

Lemma download_attempts_witness :
  exists r d' log,
    download Py.b64 corrupt_world "https://k2s.cc/file/abc123" None 1
      (5 * 1024 * 1024) true (plain_run ++ plain_run) sample_downloader
    = Some (r, d', log)
    /\ attempt_sizes log = [5 * 1024 * 1024; 5 * 1024 * 1024 * 2]
    /\ (attempt_sizes log = []
        \/ attempt_sizes log = [5 * 1024 * 1024]
        \/ attempt_sizes log = [5 * 1024 * 1024; 5 * 1024 * 1024 * 2]).
Proof.
  assert (E : exists r d' log,
    download Py.b64 corrupt_world "https://k2s.cc/file/abc123" None 1
      (5 * 1024 * 1024) true (plain_run ++ plain_run) sample_downloader
    = Some (r, d', log)
    /\ attempt_sizes log = [5 * 1024 * 1024; 5 * 1024 * 1024 * 2]).
  { do 3 eexists. split; vm_compute; reflexivity. }
  destruct E as (r & d' & log & E & Hsizes). exists r, d', log.
  split; [exact E|]. split; [exact Hsizes|].
  exact (proj2 (download_attempts Py.b64 corrupt_world
                  "https://k2s.cc/file/abc123" None 1 (5 * 1024 * 1024) true
                  (plain_run ++ plain_run) sample_downloader) r d' log E).
Defined.

(** X23. With a split size of at least 5 MiB and a proxy list already
    loaded, a URL in which [extract_file_id] finds no file link makes
    [download] raise [ValueError] before it contacts anything: the
    downloader is as before and the log is empty. *)
Theorem download_invalid_url (fl : Q -> Q) (w : world) (url : string)
    (filename : option string) (threads split_size : Z)
    (ensure_media_check : bool) (sched : list action) (d : downloader) :
  5 * 1024 * 1024 <= split_size ->
  proxies d <> [] ->
  extract_file_id url = Raise ValueError ->
  download fl w url filename threads split_size ensure_media_check sched d
  = Some (Raise ValueError, d, []).
Proof.
  intros Hsize Hproxies Hurl. unfold download, download_setup.
  assert (E : (split_size <? 5 * 1024 * 1024) = false) by (apply Z.ltb_ge; lia).
  rewrite E, Hurl. destruct (proxies d); [contradiction|reflexivity].
Qed.

Lemma download_invalid_url_witness :
  download Py.b64 sample_world "ftp://k2s.cc/abc123" None 20
    (20 * 1024 * 1024) true [] ready_downloader
  = Some (Raise ValueError, ready_downloader, []).
Proof.
  apply (download_invalid_url Py.b64 sample_world "ftp://k2s.cc/abc123" None
           20 (20 * 1024 * 1024) true [] ready_downloader).
  - lia.
  - discriminate.
  - reflexivity.
Defined.

(** X24. A cancellation that was requested before [download] is called
    is forgotten: once the URLs are obtained and cached the flag is
    cleared, so that [download] behaves as if the flag had not been
    set. *)
Theorem download_clears_flag (fl : Q -> Q) (w : world) (url : string)
    (filename : option string) (threads split_size : Z)
    (ensure_media_check : bool) (sched : list action) (d : downloader)
    (x : list string * string) (d1 : downloader) (log : list event) :
  download_setup w url filename threads split_size (flagged true d)
  = (Ok x, d1, log) ->
  download fl w url filename threads split_size ensure_media_check sched
    (flagged true d)
  = download fl w url filename threads split_size ensure_media_check sched
      (flagged false d).
Proof.
  unfold download, download_setup, flagged.
  destruct (split_size <? _); [discriminate|].
  cbn [proxies with_attempt].
  destruct (proxies d); cbn [fst snd];
    (destruct (extract_file_id url) as [file_id|]; [|discriminate]);
    (destruct (get_name w file_id); [|discriminate]);
    cbn [url_cache refresh_proxies with_attempt proxies];
    (destruct (url_cache d); cbn [fst snd url_cache with_cache proxies];
     (destruct (generate_download_urls w file_id threads _); [|discriminate]);
     (destruct (_cache_urls _ file_id _); [|discriminate]);
     intros _; reflexivity).
Qed.

Lemma download_clears_flag_witness :
  download Py.b64 sample_world "https://k2s.cc/file/abc123" None 1
    (20 * 1024 * 1024) true plain_run (flagged true sample_downloader)
  = download Py.b64 sample_world "https://k2s.cc/file/abc123" None 1
      (20 * 1024 * 1024) true plain_run (flagged false sample_downloader).
Proof.
  eapply (download_clears_flag Py.b64 sample_world
            "https://k2s.cc/file/abc123" None 1 (20 * 1024 * 1024) true
            plain_run sample_downloader).
  vm_compute. reflexivity.
Defined.

(** ** [get_working_proxies] *)

Lemma lines_from_good (l : list ascii) :
  forall cur : list ascii,
    Forall (fun c => Proxy.is_break c = false) cur ->
    Forall proxy_line (Proxy.lines_from cur l).
Proof.
  assert (Hgood : forall cur : list ascii,
    cur <> [] -> Forall (fun c => Proxy.is_break c = false) cur ->
    proxy_line (string_of_list_ascii cur)).
  { intros cur Hne Hc. split.
    - intros E. apply (f_equal list_ascii_of_string) in E.
      rewrite list_ascii_of_string_of_list_ascii in E. contradiction.
    - now rewrite list_ascii_of_string_of_list_ascii. }
  induction l as [|c l IH]; intros cur Hcur; cbn [Proxy.lines_from].
  - destruct cur; [constructor|]. constructor; [|constructor].
    now apply Hgood.
  - destruct (Proxy.is_break c) eqn:Ec.
    + destruct cur; [apply IH; constructor|].
      constructor; [now apply Hgood|apply IH; constructor].
    + apply IH. apply Forall_app. split; [exact Hcur|]. now constructor.
Qed.

Lemma nonempty_lines_good (text : string) :
  Forall proxy_line (Proxy.nonempty_lines text).
Proof. apply lines_from_good. constructor. Qed.

Lemma lines_from_line (s rest : list ascii) :
  Forall (fun c => Proxy.is_break c = false) s ->
  forall cur, Proxy.lines_from cur (s ++ rest)
              = Proxy.lines_from (cur ++ s) rest.
Proof.
  induction 1 as [|c s Hc _ IH]; intros cur; cbn [app Proxy.lines_from].
  - now rewrite app_nil_r.
  - rewrite Hc, IH. now rewrite <- app_assoc.
Qed.

Lemma nonempty_lines_join (l : list string) :
  Forall proxy_line l ->
  Proxy.nonempty_lines (String.concat (String "010" EmptyString) l) = l.
Proof.
  unfold Proxy.nonempty_lines.
  induction 1 as [|x l [Hne Hx] Hl IH]; [reflexivity|].
  assert (Hcur : list_ascii_of_string x <> []).
  { intros E. apply Hne. rewrite <- (string_of_list_ascii_of_string x).
    now rewrite E. }
  destruct l as [|y l].
  - cbn [String.concat].
    rewrite <- (app_nil_r (list_ascii_of_string x)).
    rewrite (lines_from_line _ [] Hx). cbn [app Proxy.lines_from].
    destruct (list_ascii_of_string x) eqn:E; [contradiction|].
    rewrite <- E. now rewrite string_of_list_ascii_of_string.
  - change (String.concat (String "010" EmptyString) (x :: y :: l))
      with (x ++ String "010" EmptyString
            ++ String.concat (String "010" EmptyString) (y :: l))%string.
    rewrite !chars_app. cbn [list_ascii_of_string app].
    rewrite (lines_from_line _ _ Hx). cbn [app Proxy.lines_from].
    change (Proxy.is_break "010") with true. cbv iota.
    destruct (list_ascii_of_string x) eqn:E; [contradiction|].
    rewrite <- E. rewrite string_of_list_ascii_of_string. now rewrite IH.
Qed.

Lemma dedupe_spec (l : list string) :
  forall seen : gset string,
    NoDup (Proxy.dedupe seen l)
    /\ (forall p, p ∈ Proxy.dedupe seen l -> p ∈ l /\ p ∉ seen).
Proof.
  induction l as [|x l IH]; intros seen; cbn [Proxy.dedupe].
  - split; [constructor|]. intros p Hp. inversion Hp.
  - destruct (negb (String.eqb x EmptyString)
              && negb (bool_decide (x ∈ seen))) eqn:E.
    + destruct (IH ({[x]} ∪ seen)) as [Hnd Hin].
      apply andb_true_iff in E as [_ E]. apply negb_true_iff in E.
      apply bool_decide_eq_false in E.
      split.
      * constructor; [|exact Hnd]. intros Hx. apply Hin in Hx as [_ Hx].
        apply Hx. apply elem_of_union. left. now apply elem_of_singleton.
      * intros p Hp. apply elem_of_cons in Hp as [->|Hp].
        -- split; [left|exact E].
        -- apply Hin in Hp as [Hp Hs]. split; [now right|].
           intros Hseen. apply Hs. apply elem_of_union. now right.
    + destruct (IH seen) as [Hnd Hin]. split; [exact Hnd|].
      intros p Hp. apply Hin in Hp as [Hp Hs]. split; [now right|exact Hs].
Qed.

Lemma dedupe_head (x : string) (l : list string) :
  x <> EmptyString -> Proxy.dedupe ∅ (x :: l) <> [].
Proof.
  intros Hx. cbn [Proxy.dedupe].
  apply String.eqb_neq in Hx. rewrite Hx.
  rewrite bool_decide_eq_false_2 by apply not_elem_of_empty. discriminate.
Qed.

Lemma slice_to_sub {A} (k : Z) (l : list A) (x : A) :
  x ∈ slice_to k l -> x ∈ l.
Proof.
  unfold slice_to. destruct (0 <=? k); intros H;
    apply list_elem_of_lookup in H as [i H];
    apply lookup_take_Some in H as [H _];
    eapply list_elem_of_lookup_2; eauto.
Qed.

Lemma slice_to_NoDup {A} (k : Z) (l : list A) :
  NoDup l -> NoDup (slice_to k l).
Proof.
  unfold slice_to. intros H.
  destruct (0 <=? k); (eapply sublist_NoDup; [exact H|apply sublist_take]).
Qed.

Lemma slice_to_length {A} (k : Z) (l : list A) :
  0 < k -> Z.of_nat (length (slice_to k l)) <= k.
Proof.
  intros Hk. unfold slice_to. rewrite (proj2 (Z.leb_le 0 k)) by lia.
  rewrite length_take. lia.
Qed.

Section ProxyList.
Variable n : Proxy.net.
Hypothesis Horder : forall l, Proxy.set_order n l ≡ₚ l.

(** The candidates that are validated come from lines. *)
Lemma validated_lines (k : option Z) (l : list string) :
  Forall proxy_line l ->
  let proxies :=
    match k with
    | Some k => if k =? 0 then Proxy.dedupe ∅ l
                else slice_to k (Proxy.dedupe ∅ l)
    | None => Proxy.dedupe ∅ l
    end in
  let working := Proxy.set_order n (List.filter (Proxy.passes n) proxies) in
  NoDup working
  /\ (forall p, p ∈ working ->
        Proxy.passes n p = true /\ p ∈ l /\ proxy_line p)
  /\ (forall z, k = Some z -> 0 < z -> Z.of_nat (length working) <= z).
Proof.
  intros Hl proxies working.
  destruct (dedupe_spec l ∅) as [Hnd Hin].
  assert (Hp : NoDup proxies
               /\ (forall p, p ∈ proxies -> p ∈ l)
               /\ (forall z, k = Some z -> 0 < z ->
                     Z.of_nat (length proxies) <= z)).
  { subst proxies.
    assert (Hall : NoDup (Proxy.dedupe ∅ l)
                   /\ (forall p, p ∈ Proxy.dedupe ∅ l -> p ∈ l)).
    { split; [exact Hnd|]. intros p Hp. now apply Hin in Hp. }
    destruct Hall as [Ha Hb].
    destruct k as [z|]; [destruct (Z.eqb_spec z 0) as [->|Hz]|].
    - split; [exact Ha|]. split; [exact Hb|]. intros z [= <-]. lia.
    - split; [now apply slice_to_NoDup|]. split.
      + intros p Hp. apply slice_to_sub in Hp. now apply Hb.
      + intros z' [= <-]. apply slice_to_length.
    - split; [exact Ha|]. split; [exact Hb|]. discriminate. }
  destruct Hp as (Hpn & Hpl & Hpk).
  assert (Hf : NoDup (List.filter (Proxy.passes n) proxies)).
  { apply NoDup_ListNoDup, List.NoDup_filter, NoDup_ListNoDup, Hpn. }
  subst working. split; [|split].
  - now rewrite (Horder _).
  - intros p Hp. rewrite (Horder _) in Hp.
    apply list_elem_of_In, filter_In in Hp as [Hp Hpass].
    apply list_elem_of_In, Hpl in Hp.
    split; [exact Hpass|]. split; [exact Hp|].
    rewrite Forall_forall in Hl. now apply Hl.
  - intros z Hk Hz. rewrite (Horder _).
    pose proof (List.filter_length_le (Proxy.passes n) proxies).
    specialize (Hpk z Hk Hz). lia.
Qed.

(** X25. With [recheck_cached] and a cache file that holds at least
    one proxy, [get_working_proxies] asks for no remote list: it returns
    the direct connection followed by proxies of the cache file that
    passed the check, each once, and at most [max_candidates] of them
    when that limit is positive.  The order of a Python set is taken to
    be some permutation. *)
Theorem recheck_uses_cache_only (text : string) (refresh : bool)
    (max_candidates : option Z) :
  Proxy.proxies_txt n = Some text ->
  Proxy.nonempty_lines text <> [] ->
  exists (working : list string) (file : option string),
    Proxy.get_working_proxies n refresh max_candidates true
    = Ok (None :: map Some working, file)
    /\ NoDup working
    /\ (forall p, p ∈ working ->
          Proxy.passes n p = true /\ p ∈ Proxy.nonempty_lines text)
    /\ (forall k, max_candidates = Some k -> 0 < k ->
          Z.of_nat (length working) <= k).
Proof.
  intros Hfile Hne. unfold Proxy.get_working_proxies. rewrite Hfile.
  rewrite andb_false_r, andb_false_l.
  pose proof (nonempty_lines_good text) as Hgood.
  destruct (Proxy.nonempty_lines text) as [|x cached] eqn:Ec; [contradiction|].
  cbn [Proxy.nonempty andb negb mbind res_bind]. rewrite app_nil_r.
  destruct (validated_lines max_candidates (x :: cached) Hgood)
    as (Hnd & Hin & Hlen). cbv zeta in Hnd, Hin, Hlen.
  destruct (Proxy.dedupe ∅ (x :: cached)) as [|d ds] eqn:Ed.
  { exfalso. revert Ed. apply dedupe_head. inversion Hgood as [|? ? [H _]]; auto. }
  set (proxies := match max_candidates with
                  | Some k => if k =? 0 then d :: ds else slice_to k (d :: ds)
                  | None => d :: ds
                  end) in *.
  destruct proxies as [|p ps] eqn:Ep.
  { exists [], (Some text). split; [reflexivity|]. split; [constructor|].
    split; [intros q Hq; inversion Hq|]. intros k _ Hk. cbn. lia. }
  destruct (Proxy.set_order n (List.filter (Proxy.passes n) (p :: ps)))
    as [|w ws] eqn:Ew.
  { exists [], (Some EmptyString). split; [reflexivity|].
    split; [constructor|].
    split; [intros q Hq; inversion Hq|]. intros k _ Hk. cbn. lia. }
  exists (w :: ws), (Some (String.concat (String "010" EmptyString) (w :: ws))).
  split; [reflexivity|]. split; [exact Hnd|]. split; [|exact Hlen].
  intros q Hq. destruct (Hin q Hq) as (H1 & H2 & _). now split.
Qed.

(** X26. When a call of [get_working_proxies] has written the cache
    file and returned more than the direct connection, a later call with
    the default arguments, on that cache file, returns the same list
    without any check and leaves the file as it is. *)
Theorem cached_proxies_round_trip (refresh recheck_cached : bool)
    (max_candidates max_candidates' : option Z)
    (r : list (option string)) (text' : string) (n' : Proxy.net) :
  Proxy.get_working_proxies n refresh max_candidates recheck_cached
  = Ok (r, Some text') ->
  r <> [None] ->
  Proxy.proxies_txt n' = Some text' ->
  Proxy.get_working_proxies n' false max_candidates' false
  = Ok (r, Some text').
Proof.
  intros Hrun Hr Hfile'.
  assert (Hfast : forall cached,
    Proxy.nonempty_lines text' = cached -> cached <> [] ->
    r = None :: map Some cached ->
    Proxy.get_working_proxies n' false max_candidates' false
    = Ok (r, Some text')).
  { intros cached Hc Hne ->. unfold Proxy.get_working_proxies.
    rewrite Hfile', Hc. destruct cached; [contradiction|]. reflexivity. }
  unfold Proxy.get_working_proxies in Hrun.
  set (cached := match Proxy.proxies_txt n with
                 | Some text => Proxy.nonempty_lines text
                 | None => []
                 end) in *.
  assert (Hcached : forall t, Proxy.proxies_txt n = Some t ->
            Proxy.nonempty_lines t = cached).
  { intros t E. subst cached. now rewrite E. }
  assert (Hcg : Forall proxy_line cached).
  { subst cached. destruct (Proxy.proxies_txt n);
      [apply nonempty_lines_good|constructor]. }
  destruct (negb refresh && negb recheck_cached && Proxy.nonempty cached)
    eqn:Efast.
  { injection Hrun as <- Hf. apply (Hfast cached); auto.
    apply andb_true_iff in Efast as [_ E]. now destruct cached. }
  destruct (if if recheck_cached then negb (Proxy.nonempty cached)
               else refresh || negb (Proxy.nonempty cached)
            then text ← Proxy.remote_text n; Ok (Proxy.nonempty_lines text)
            else Ok []) as [fetched|e] eqn:Ef; [|discriminate].
  cbn [mbind res_bind] in Hrun.
  assert (Hfg : Forall proxy_line fetched).
  { destruct (if recheck_cached then _ else _).
    - destruct (Proxy.remote_text n) as [text|]; [|discriminate].
      cbn in Ef. injection Ef as <-. apply nonempty_lines_good.
    - injection Ef as <-. constructor. }
  set (l := ((if recheck_cached && Proxy.nonempty cached then cached else [])
             ++ fetched)%list) in *.
  assert (Hl : Forall proxy_line l).
  { subst l. apply Forall_app. split; [|exact Hfg].
    destruct (recheck_cached && Proxy.nonempty cached);
      [exact Hcg|constructor]. }
  destruct (validated_lines max_candidates l Hl) as (_ & Hin & _).
  cbv zeta in Hin.
  destruct (Proxy.dedupe ∅ l) as [|d ds] eqn:Ed.
  { injection Hrun as <- Hf. apply (Hfast cached); auto.
    intros E. rewrite E in Hr. now apply Hr. }
  set (proxies := match max_candidates with
                  | Some k => if k =? 0 then d :: ds else slice_to k (d :: ds)
                  | None => d :: ds
                  end) in *.
  destruct proxies as [|p ps]; [injection Hrun as <- _; contradiction|].
  destruct (Proxy.set_order n (List.filter (Proxy.passes n) (p :: ps)))
    as [|w ws] eqn:Ew; [injection Hrun as <- _; contradiction|].
  injection Hrun as <- <-.
  apply (Hfast (w :: ws)); [|discriminate|reflexivity].
  assert (Hws : Forall proxy_line (w :: ws)).
  { apply Forall_forall. intros q Hq. now apply Hin in Hq as (_ & _ & Hq). }
  exact (nonempty_lines_join (w :: ws) Hws).
Qed.

End ProxyList.

Lemma recheck_uses_cache_only_witness :
  exists (working : list string) (file : option string),
    Proxy.get_working_proxies sample_net false (Some 5) true
    = Ok (None :: map Some working, file)
    /\ NoDup working
    /\ (forall p, p ∈ working ->
          Proxy.passes sample_net p = true
          /\ p ∈ Proxy.nonempty_lines
                  ("1.1.1.1:80" ++ String "010" "2.2.2.2:80"))
    /\ (forall k, Some 5 = Some k -> 0 < k ->
          Z.of_nat (length working) <= k).
Proof.
  apply (recheck_uses_cache_only sample_net (fun l => Permutation_refl l)
           ("1.1.1.1:80" ++ String "010" "2.2.2.2:80") false (Some 5)).
  - reflexivity.
  - vm_compute. discriminate.
Defined.

Lemma cached_proxies_round_trip_witness :
  Proxy.get_working_proxies checked_net false None false
  = Ok ([None; Some "1.1.1.1:80"], Some "1.1.1.1:80").
Proof.
  apply (cached_proxies_round_trip sample_net (fun l => Permutation_refl l)
           false true (Some 5) None [None; Some "1.1.1.1:80"] "1.1.1.1:80"
           checked_net).
  - reflexivity.
  - discriminate.
  - reflexivity.
Defined.

(** ** [generate_download_urls] *)

Lemma omap_length_le {A B} (f : A -> option B) (l : list A) :
  (length (omap f l) <= length l)%nat.
Proof.
  induction l as [|x l IH]; cbn; [lia|]. destruct (f x); cbn; lia.
Qed.

Lemma collect_length (rounds : list (list (option string))) (count : Z) :
  forall urls r : list string,
    K2sClient.collect rounds count urls = Some r ->
    (Z.of_nat (length urls) <= count -> Z.of_nat (length r) = count)
    /\ (count <= Z.of_nat (length urls) -> r = urls).
Proof.
  induction rounds as [|done rounds IH]; intros urls r; cbn [K2sClient.collect].
  - destruct (Z.ltb_spec (Z.of_nat (length urls)) count); [discriminate|].
    intros [= <-]. split; [lia|reflexivity].
  - destruct (Z.ltb_spec (Z.of_nat (length urls)) count) as [Hlt|Hge].
    + intros H. apply IH in H as [H _]. split; [|lia]. intros _. apply H.
      rewrite length_app.
      pose proof (omap_length_le id
                    (take (Z.to_nat (count - Z.of_nat (length urls))) done))
        as Hle.
      rewrite length_take in Hle. lia.
    + intros [= <-]. split; [lia|reflexivity].
Qed.

Lemma visit_returns (pool : list (option string)) :
  forall (captchas : list (res unit)) (links : list K2sClient.reply)
         (rounds : list (list (option string))) (count : Z)
         (urls : list string),
    K2sClient.visit pool captchas links rounds count = K2sClient.Returns urls ->
    urls = [] \/ (1 <= count /\ Z.of_nat (length urls) = count).
Proof.
  induction pool as [|p pool IH]; intros captchas links rounds count urls;
    cbn [K2sClient.visit].
  - intros [= <-]. now left.
  - destruct (K2sClient.try_link links captchas) as [key c' l'|c' l'|e| |];
      try discriminate.
    + destruct (K2sClient.collect rounds count []) as [r|] eqn:E;
        [|discriminate].
      intros [= <-]. apply collect_length in E as [H1 H2]. cbn in H1, H2.
      destruct (Z_le_gt_dec count 0) as [Hc|Hc].
      * left. now apply H2.
      * right. split; [lia|]. apply H1. lia.
    + apply IH.
Qed.

(** X27. When [generate_download_urls] returns, [count] is at least 1
    and it returns exactly [count] URLs. *)
Theorem generate_download_urls_count (net : Proxy.net) (sc : K2sClient.script)
    (file_id : string) (count skip : Z)
    (proxies : option (list (option string))) (urls : list string) :
  K2sClient.generate_download_urls net sc file_id count skip proxies
  = K2sClient.Returns urls ->
  1 <= count /\ Z.of_nat (length urls) = count.
Proof.
  unfold K2sClient.generate_download_urls.
  destruct (match proxies with Some pool => Ok pool | None => _ end)
    as [pool|e]; [|discriminate].
  destruct (K2sClient.captchas sc) as [|[[]|e] captchas']; try discriminate.
  destruct (K2sClient.visit _ captchas' _ _ count) as [r| | |] eqn:E;
    try discriminate.
  apply visit_returns in E. destruct r as [|u r]; [discriminate|].
  destruct E as [E|[Hc Hl]]; [discriminate|].
  intros [= <-]. split; [exact Hc|].
  unfold slice_to. rewrite (proj2 (Z.leb_le 0 count)) by lia.
  rewrite length_take. lia.
Qed.

Lemma generate_download_urls_count_witness :
  K2sClient.generate_download_urls checked_net sample_script "abc123" 2 0
    (Some [None])
  = K2sClient.Returns ["https://host/u1"; "https://host/u2"]
  /\ 1 <= 2
  /\ Z.of_nat (length ["https://host/u1"; "https://host/u2"]) = 2.
Proof.
  split; [reflexivity|].
  apply (generate_download_urls_count checked_net sample_script "abc123" 2 0
           (Some [None]) ["https://host/u1"; "https://host/u2"]).
  reflexivity.
Defined.



(** ** [cli.main] *)

(** X29. When the split size on the command line is a whole number
    followed by one to three letters that are no unit of the table,
    [main] ends with an uncaught [KeyError] before it does anything
    else; this is so for the default [20M].  (With four letters or more
    the pattern of [parse_size] does not match, and [main] leaves
    through [parser.error]: [main_long_unit].) *)
Theorem main_unknown_unit (fl : Q -> Q) (w : world) (sched : list action)
    (cache : option cache_file) (fs : gmap string pybytes) (a : Cli.args)
    (n : Z) (u : string) :
  0 <= n ->
  Forall (fun c => Py.is_alpha c = true) (list_ascii_of_string u) ->
  (String.length u <= 3)%nat ->
  dict_get size_units (Py.upper u) = Raise KeyError ->
  Cli.size a = Py.str n ++ u ->
  Cli.main fl w sched cache fs a = Some (Cli.Uncaught KeyError, []).
Proof.
  intros Hn Ha Hl Hu Hs. unfold Cli.main.
  now rewrite Hs, (parse_size_number_unit fl n u Hn Ha Hl), Hu.
Qed.

Lemma main_unknown_unit_witness :
  Cli.main Py.b64 sample_world plain_run None ∅
    (Cli.defaults "https://k2s.cc/file/abc123")
  = Some (Cli.Uncaught KeyError, []).
Proof.
  apply (main_unknown_unit Py.b64 sample_world plain_run None ∅
           (Cli.defaults "https://k2s.cc/file/abc123") 20 "M").
  - lia.
  - repeat constructor.
  - simpl. lia.
  - reflexivity.
  - reflexivity.
Defined.

(** Four letters after the number: the pattern does not match,
    [parse_size] raises [ValueError] and [main] leaves with status 2. *)
Lemma main_long_unit :
  Cli.main Py.b64 sample_world plain_run None ∅
    {| Cli.url := "https://k2s.cc/file/abc123"; Cli.filename := None;
       Cli.batch_count := 20; Cli.size := "20MEGA";
       Cli.skip_media_check := false |}
  = Some (Cli.Exit 2, []).
Proof. vm_compute. reflexivity. Qed.

(** X30. When the split size on the command line parses to less than
    5 MiB, [main] leaves through [parser.exit] with status 1: [download]
    raised [ValueError] before it contacted anything. *)
Theorem main_small_split (fl : Q -> Q) (w : world) (sched : list action)
    (cache : option cache_file) (fs : gmap string pybytes) (a : Cli.args)
    (split_size : Z) :
  parse_size fl (Cli.size a) = Ok split_size ->
  split_size < 5 * 1024 * 1024 ->
  Cli.main fl w sched cache fs a = Some (Cli.Exit 1, []).
Proof.
  intros Hp Hs. unfold Cli.main. rewrite Hp.
  unfold download, download_setup.
  now rewrite (proj2 (Z.ltb_lt split_size (5 * 1024 * 1024)) Hs).
Qed.

Lemma main_small_split_witness :
  Cli.main Py.b64 sample_world plain_run None ∅
    {| Cli.url := "https://k2s.cc/file/abc123"; Cli.filename := None;
       Cli.batch_count := 20; Cli.size := "1MB";
       Cli.skip_media_check := false |}
  = Some (Cli.Exit 1, []).
Proof.
  apply (main_small_split Py.b64 sample_world plain_run None ∅ _ (1024 * 1024)).
  - vm_compute. reflexivity.
  - lia.
Defined.
